(** * CraftEngineConverter: the rule evaluation and transformation engine

    A shallow embedding of [src/utils.py] and of the conversion core of
    [src/converter.py], followed by the properties of the engine.

    - YAML data is the type [value]: scalars (null, booleans, integers,
      floats, strings), lists, and insertion-ordered dictionaries keyed by
      scalars, as [yaml.safe_load] builds them.  Values are trees: two
      places of a record never share one list or dictionary object.
    - Python exceptions are the [Raise] results of the type [res].
    - Code that mutates the record or the sequence counters runs in the
      monad [M]; what was mutated before an exception stays mutated.  The
      state also keeps the log lines of [apply_actions] that the
      properties observe; the logger is otherwise left out.
    - File input and output, the progress bar and the command line are
      left out: [convert_single_file] here takes the parsed [old_data] and
      returns [new_data].
    - The libraries the program calls ([yaml], [re], [asteval], [str] on
      floats and containers) are the fields of the class [Libraries]. *)

From Stdlib Require Import String Ascii List ZArith Lia Bool DecimalString.
From Stdlib Require Import Floats.SpecFloat.
Import ListNotations.

Local Open Scope string_scope.
Local Open Scope list_scope.

Set Implicit Arguments.

(** ** Exceptions *)

Inductive exn :=
| TypeError
| AttributeError
| OverflowError
| ReError          (* re.error: the pattern does not compile *)
| ValueError
| ObjectIdentity   (* the outcome depends on which objects are one and
                      the same (a list mutated through two references, a
                      NaN found by identity): trees cannot express it *)
| OutsideModel.    (* a library returned an object that is no [value]
                      (a date, bytes, a set) *)

Inductive res (A : Type) :=
| Ok (a : A)
| Raise (e : exn).

Arguments Ok {A} a.
Arguments Raise {A} e.

Definition res_bind {A B} (r : res A) (k : A -> res B) : res B :=
  match r with
  | Ok a => k a
  | Raise e => Raise e
  end.

Declare Scope res_scope.
Delimit Scope res_scope with res.
Notation "x <- r ;; k" := (res_bind r (fun x => k))
  (at level 61, r at next level, right associativity) : res_scope.

(** ** Python values *)

Module Py.

Inductive scalar :=
| SNone
| SBool (b : bool)
| SInt (z : Z)
| SFloat (f : spec_float)
| SStr (s : string).

#[warnings="-register-all"]
Inductive value :=
| Atom (a : scalar)
| VList (l : list value)
| VDict (d : list (scalar * value)).

Abbreviation VNone := (Atom SNone).
Abbreviation VBool b := (Atom (SBool b)).
Abbreviation VInt z := (Atom (SInt z)).
Abbreviation VFloat f := (Atom (SFloat f)).
Abbreviation VStr s := (Atom (SStr s)).

(** A dict is the list of its items in insertion order. *)
Definition dict := list (scalar * value).

(** *** Numbers: [bool] is a subclass of [int]; [int] and [float] compare
    by their exact mathematical values. *)

Inductive number :=
| NInt (z : Z)
| NFloat (f : spec_float).

Definition as_number (a : scalar) : option number :=
  match a with
  | SBool b => Some (NInt (if b then 1 else 0)%Z)
  | SInt z => Some (NInt z)
  | SFloat f => Some (NFloat f)
  | _ => None
  end.

(** [None] stands for "unordered" (a NaN operand). *)
Definition int_float_compare (z : Z) (f : spec_float) : option comparison :=
  match f with
  | S754_nan => None
  | S754_zero _ => Some (z ?= 0)%Z
  | S754_infinity neg => Some (if neg then Gt else Lt)
  | S754_finite neg m e =>
      let mz := if neg then Z.neg m else Z.pos m in
      if (0 <=? e)%Z then Some (z ?= mz * 2 ^ e)%Z
      else Some (z * 2 ^ (- e) ?= mz)%Z
  end.

Definition number_compare (x y : number) : option comparison :=
  match x, y with
  | NInt a, NInt b => Some (a ?= b)%Z
  | NFloat f, NFloat g => SFcompare f g
  | NInt a, NFloat g => int_float_compare a g
  | NFloat f, NInt b => option_map CompOpp (int_float_compare b f)
  end.

Definition number_ltb (x y : number) : bool :=
  match number_compare x y with Some Lt => true | _ => false end.

Definition number_gtb (x y : number) : bool :=
  match number_compare x y with Some Gt => true | _ => false end.

(** [float(z)]: round to nearest even; too large an integer raises. *)
Definition float_of_int (z : Z) : res spec_float :=
  match binary_normalize 53 1024 z 0 false with
  | S754_infinity _ => Raise OverflowError
  | f => Ok f
  end.

Definition number_add (x y : number) : res scalar :=
  match x, y with
  | NInt a, NInt b => Ok (SInt (a + b))
  | NFloat f, NFloat g => Ok (SFloat (SFadd 53 1024 f g))
  | NInt a, NFloat g =>
      (f <- float_of_int a ;; Ok (SFloat (SFadd 53 1024 f g)))%res
  | NFloat f, NInt b =>
      (g <- float_of_int b ;; Ok (SFloat (SFadd 53 1024 f g)))%res
  end.

(** *** Equality of hashable keys ([==] together with equal hashes):
    [True == 1 == 1.0], and a NaN equals nothing. *)
Definition scalar_eqb (a b : scalar) : bool :=
  match a, b with
  | SNone, SNone => true
  | SStr s, SStr t => String.eqb s t
  | _, _ =>
      match as_number a, as_number b with
      | Some x, Some y =>
          match number_compare x y with Some Eq => true | _ => false end
      | _, _ => false
      end
  end.

(** *** Dictionaries *)

Section Assoc.
Variables (K V : Type) (eqb : K -> K -> bool).

(** [d.get(k)] / [k in d] *)
Fixpoint assoc_get (d : list (K * V)) (k : K) : option V :=
  match d with
  | [] => None
  | (k', v) :: rest => if eqb k' k then Some v else assoc_get rest k
  end.

(** [d[k] = v]: an existing key keeps its place, a new one goes last. *)
Fixpoint assoc_set (d : list (K * V)) (k : K) (v : V) : list (K * V) :=
  match d with
  | [] => [(k, v)]
  | (k', v') :: rest =>
      if eqb k' k then (k', v) :: rest else (k', v') :: assoc_set rest k v
  end.

(** [del d[k]] for a key that may be missing *)
Fixpoint assoc_del (d : list (K * V)) (k : K) : list (K * V) :=
  match d with
  | [] => []
  | (k', v') :: rest =>
      if eqb k' k then rest else (k', v') :: assoc_del rest k
  end.

Definition assoc_mem (d : list (K * V)) (k : K) : bool :=
  match assoc_get d k with Some _ => true | None => false end.
End Assoc.

Definition dict_get (d : dict) (k : scalar) : option value :=
  assoc_get scalar_eqb d k.
Definition dict_set (d : dict) (k : scalar) (v : value) : dict :=
  assoc_set scalar_eqb d k v.
Definition dict_del (d : dict) (k : scalar) : dict :=
  assoc_del scalar_eqb d k.
Definition dict_mem (d : dict) (k : scalar) : bool :=
  assoc_mem scalar_eqb d k.

(** [d.get(k, default)] *)
Definition dict_get_default (d : dict) (k : scalar) (default : value) : value :=
  match dict_get d k with Some v => v | None => default end.

(** *** Truthiness, [==], [len], iteration *)

Definition py_truthy (v : value) : bool :=
  match v with
  | VNone => false
  | VBool b => b
  | VInt z => negb (z =? 0)%Z
  | VFloat f => match f with S754_zero _ => false | _ => true end
  | VStr s => negb (String.eqb s "")
  | VList l => match l with [] => false | _ => true end
  | VDict d => match d with [] => false | _ => true end
  end.

(** [a == b] between two distinct objects. *)
Fixpoint py_eqb (a b : value) {struct a} : bool :=
  match a, b with
  | Atom x, Atom y => scalar_eqb x y
  | VList l1, VList l2 =>
      (fix all2 (l1 l2 : list value) {struct l1} : bool :=
         match l1, l2 with
         | [], [] => true
         | x :: xs, y :: ys => py_eqb x y && all2 xs ys
         | _, _ => false
         end) l1 l2
  | VDict d1, VDict d2 =>
      Nat.eqb (length d1) (length d2) &&
      forallb (fun kv =>
                 match dict_get d2 (fst kv) with
                 | Some w => py_eqb (snd kv) w
                 | None => false
                 end) d1
  | _, _ => false
  end.

Definition is_str (v : value) : bool :=
  match v with VStr _ => true | _ => false end.
Definition is_list (v : value) : bool :=
  match v with VList _ => true | _ => false end.

(** [x.get], [x.items()]: only a dict has them. *)
Definition as_dict (v : value) : res dict :=
  match v with VDict d => Ok d | _ => Raise AttributeError end.

(** A dict key must be hashable. *)
Definition as_key (v : value) : res scalar :=
  match v with Atom a => Ok a | _ => Raise TypeError end.

Fixpoint chars (s : string) : list value :=
  match s with
  | EmptyString => []
  | String c s' => VStr (String c EmptyString) :: chars s'
  end.

(** [for x in v] *)
Definition py_iter (v : value) : res (list value) :=
  match v with
  | VList l => Ok l
  | VDict d => Ok (map (fun kv => Atom (fst kv)) d)
  | VStr s => Ok (chars s)
  | _ => Raise TypeError
  end.

(** [len(v)] *)
Definition py_len (v : value) : res nat :=
  match v with
  | VList l => Ok (length l)
  | VDict d => Ok (length d)
  | VStr s => Ok (String.length s)
  | _ => Raise TypeError
  end.

(** *** Strings *)

(** [s.split(sep)] for a one-character separator: never an empty list. *)
Fixpoint split_on (sep : ascii) (s : string) : list string :=
  match s with
  | EmptyString => [EmptyString]
  | String c s' =>
      if Ascii.eqb c sep then EmptyString :: split_on sep s'
      else match split_on sep s' with
           | [] => [String c EmptyString]
           | w :: ws => String c w :: ws
           end
  end.

(** [s.replace(old, new)] for a non-empty [old]: occurrences are taken
    left to right and do not overlap.  [skip] counts the characters of a
    matched occurrence still to be dropped. *)
Fixpoint replace_from (old new s : string) (skip : nat) : string :=
  match s with
  | EmptyString => EmptyString
  | String c s' =>
      match skip with
      | S k => replace_from old new s' k
      | O =>
          if String.prefix old s
          then new ++ replace_from old new s' (String.length old - 1)
          else String c (replace_from old new s' 0)
      end
  end.

Definition str_replace (s old new : string) : string :=
  replace_from old new s 0.

Definition str_of_int (z : Z) : string :=
  NilZero.string_of_int (Z.to_int z).

(** [s.endswith(suffix)] *)
Definition endswith (s suffix : string) : bool :=
  let n := String.length s in
  let m := String.length suffix in
  Nat.leb m n && String.eqb (substring (n - m) m s) suffix.

End Py.
Export Py.

(** ** Library functions the program calls

    Their results are not computed here; the engine is parametric in them.
    [None] is the exception the caller catches or lets through. *)

Class Libraries := {
  (** [str(x)] for a float *)
  str_float : spec_float -> string;
  (** [str(x)] for a list or a dict *)
  str_container : value -> string;
  (** [yaml.safe_load(s)]: [Ok (Some v)] is the loaded value and
      [Ok None] is [yaml.YAMLError]; [Raise e] is any other exception
      ([ValueError] for a date that does not exist) or a loaded object
      that is no [value] ([OutsideModel]) *)
  yaml_safe_load : string -> res (option value);
  (** [re.match(pattern, s)] found a match; [None] is [re.error] *)
  re_match : string -> string -> option bool;
  (** [re.escape(s)] *)
  re_escape : string -> string;
  (** [Interpreter.eval(expression)] with the symbol table of
      [process_dynamic_context]: the accumulated context, the record as
      [data]; [None] is an exception *)
  aeval_context : dict -> value -> value -> option value;
  (** [Interpreter.eval(expression)] with the symbol table of the [set]
      action: the context variables as symbols, the record as [data] *)
  aeval_set : dict -> value -> value -> option value
}.

Section PyStr.
Context {L : Libraries}.

(** [str(x)] *)
Definition str_scalar (a : scalar) : string :=
  match a with
  | SNone => "None"
  | SBool true => "True"
  | SBool false => "False"
  | SInt z => str_of_int z
  | SFloat f => str_float f
  | SStr s => s
  end.

Definition py_str (v : value) : string :=
  match v with
  | Atom a => str_scalar a
  | _ => str_container v
  end.
End PyStr.

(** [a += b] on a counter.  A list counter is extended in place by any
    iterable, while the record still holds the same list. *)
Definition py_iadd (a b : value) : res value :=
  match a, b with
  | VStr s, VStr t => Ok (VStr (s ++ t))
  | VList _, _ => (_ <- py_iter b ;; Raise ObjectIdentity)%res
  | Atom x, Atom y =>
      match as_number x, as_number y with
      | Some n, Some m => (r <- number_add n m ;; Ok (Atom r))%res
      | _, _ => Raise TypeError
      end
  | _, _ => Raise TypeError
  end.

(** ** [src/utils.py] *)

Module Utils.
Section WithLibraries.
Context {L : Libraries}.
Local Open Scope res_scope.

(** The loop of [process_placeholders] over [context.items()]. *)
Definition substitute (s : string) (context : dict) : string :=
  fold_left
    (fun processed_str kv =>
       str_replace processed_str
                   ("{" ++ str_scalar (fst kv) ++ "}") (py_str (snd kv)))
    context s.

(** [process_placeholders] on a string: only [yaml.YAMLError] is caught,
    whatever else [yaml.safe_load] raises goes to the caller. *)
Definition process_str (s : string) (context : dict) : res value :=
  let processed_str := substitute s context in
  if String.eqb processed_str s then Ok (VStr s)
  else
    loaded <- yaml_safe_load processed_str ;;
    match loaded with
    | Some v => Ok v
    | None => Ok (VStr processed_str)
    end.

(** [process_placeholders] on a dict key: keys are scalars, so only the
    string case can apply. *)
Definition process_key (k : scalar) (context : dict) : res value :=
  match k with
  | SStr s => process_str s context
  | _ => Ok (Atom k)
  end.

(** The dict comprehension evaluates key, then value, then stores the
    pair: an unhashable key raises, an equal key is overwritten. *)
Fixpoint process_placeholders (v : value) (context : dict) {struct v}
  : res value :=
  match v with
  | VStr s => process_str s context
  | VList l =>
      l' <- (fix items (l : list value) : res (list value) :=
               match l with
               | [] => Ok []
               | item :: rest =>
                   item' <- process_placeholders item context ;;
                   rest' <- items rest ;;
                   Ok (item' :: rest')
               end) l ;;
      Ok (VList l')
  | VDict d =>
      d' <- (fix items (d : list (scalar * value)) (acc : dict) : res dict :=
               match d with
               | [] => Ok acc
               | (k, x) :: rest =>
                   key <- process_key k context ;;
                   x' <- process_placeholders x context ;;
                   k' <- as_key key ;;
                   items rest (dict_set acc k' x')
               end) d [] ;;
      Ok (VDict d')
  | _ => Ok v
  end.

(** [path.split('.')] *)
Definition split_path (path : value) : res (list string) :=
  match path with
  | VStr s => Ok (split_on "."%char s)
  | _ => Raise AttributeError
  end.

(** The loop of [get_nested_value]; [VNone] is Python's [None]. *)
Fixpoint get_parts (current : value) (parts : list string) : value :=
  match parts with
  | [] => current
  | part :: rest =>
      match current with
      | VDict d =>
          match dict_get d (SStr part) with
          | Some v => get_parts v rest
          | None => VNone
          end
      | _ => VNone
      end
  end.

Definition get_nested_value (data path : value) : res value :=
  parts <- split_path path ;;
  Ok (get_parts data parts).

(** The loop of [set_nested_value] below a dict. *)
Fixpoint set_parts (current : dict) (parts : list string) (v : value)
  : dict :=
  match parts with
  | [] => current
  | [part] => dict_set current (SStr part) v
  | part :: rest =>
      let child :=
        match dict_get current (SStr part) with
        | Some (VDict c) => c
        | _ => []
        end in
      dict_set current (SStr part) (VDict (set_parts child rest v))
  end.

(** [set_nested_value] returns the mutated [data].  Anything but a dict
    at the root raises at the first subscript or [in]. *)
Definition set_nested_value (data path v : value) : res value :=
  parts <- split_path path ;;
  match data with
  | VDict d => Ok (VDict (set_parts d parts v))
  | _ => Raise TypeError
  end.

(** The loop of [delete_nested_value]. *)
Fixpoint delete_parts (current : value) (parts : list string) : value :=
  match parts with
  | [] => current
  | [part] =>
      match current with
      | VDict d => VDict (dict_del d (SStr part))
      | _ => current
      end
  | part :: rest =>
      match current with
      | VDict d =>
          match dict_get d (SStr part) with
          | Some child =>
              VDict (dict_set d (SStr part) (delete_parts child rest))
          | None => current
          end
      | _ => current
      end
  end.

Definition delete_nested_value (data path : value) : res value :=
  parts <- split_path path ;;
  Ok (delete_parts data parts).

(** [x is None], [x is True], [x is False] *)
Definition is_None (v : value) : bool :=
  match v with VNone => true | _ => false end.
Definition is_True (v : value) : bool :=
  match v with VBool true => true | _ => false end.
Definition is_False (v : value) : bool :=
  match v with VBool false => true | _ => false end.

(** [re.match(pattern, s)] for a string [s] *)
Definition py_re_match (pattern : value) (s : string) : res bool :=
  match pattern with
  | VStr p =>
      match re_match p s with
      | Some found => Ok found
      | None => Raise ReError
      end
  | _ => Raise TypeError
  end.

(** [x < bound] and [x > bound] for a number [x] *)
Definition py_lt (x : number) (bound : value) : res bool :=
  match bound with
  | Atom b =>
      match as_number b with
      | Some y => Ok (number_ltb x y)
      | None => Raise TypeError
      end
  | _ => Raise TypeError
  end.

Definition py_gt (x : number) (bound : value) : res bool :=
  match bound with
  | Atom b =>
      match as_number b with
      | Some y => Ok (number_gtb x y)
      | None => Raise TypeError
      end
  | _ => Raise TypeError
  end.

(** The number behind a value for which [isinstance(v, (int, float))]
    holds. *)
Definition value_number (v : value) : option number :=
  match v with Atom a => as_number a | _ => None end.

(** Test 1 of [evaluate_condition], on [exists]: [true] when it returns
    [False]. *)
Definition exists_fails (processed_condition : dict) (value_at_path : value)
  : bool :=
  match dict_get processed_condition (SStr "exists") with
  | Some e =>
      (is_True e && is_None value_at_path)
      || (is_False e && negb (is_None value_at_path))
  | None => false
  end.

(** The test between tests 1 and 2. *)
Definition needs_value (processed_condition : dict) : bool :=
  dict_mem processed_condition (SStr "value")
  || dict_mem processed_condition (SStr "regex_match")
  || dict_mem processed_condition (SStr "min")
  || dict_mem processed_condition (SStr "max").

(** Test 2, on [value]: [true] when it returns [False]. *)
Definition value_fails (processed_condition : dict) (value_at_path : value)
  : bool :=
  match dict_get processed_condition (SStr "value") with
  | Some expected => negb (py_eqb value_at_path expected)
  | None => false
  end.

(** Test 3, on [regex_match]: [Ok true] when it returns [False]. *)
Definition regex_fails (processed_condition : dict) (value_at_path : value)
  : res bool :=
  match dict_get processed_condition (SStr "regex_match") with
  | Some pattern =>
      match value_at_path with
      | VStr s => found <- py_re_match pattern s ;; Ok (negb found)
      | _ => Ok true
      end
  | None => Ok false
  end.

(** Test 4, on [min] and [max]: [Ok true] when it returns [False]. *)
Definition range_fails (processed_condition : dict) (value_at_path : value)
  : res bool :=
  let min := dict_get processed_condition (SStr "min") in
  let max := dict_get processed_condition (SStr "max") in
  match min, max with
  | None, None => Ok false
  | _, _ =>
      match value_number value_at_path with
      | None => Ok true
      | Some x =>
          below <- match min with
                   | Some bound => py_lt x bound
                   | None => Ok false
                   end ;;
          if below then Ok true
          else match max with
               | Some bound => py_gt x bound
               | None => Ok false
               end
      end
  end.

Definition evaluate_condition (item_config condition : value)
           (context : dict) : res bool :=
  processed <- process_placeholders condition context ;;
  processed_condition <- as_dict processed ;;
  let path := dict_get_default processed_condition (SStr "path") VNone in
  if negb (py_truthy path) then Ok false
  else
    value_at_path <- get_nested_value item_config path ;;
    if exists_fails processed_condition value_at_path then Ok false
    else if is_None value_at_path && needs_value processed_condition
    then Ok false
    else if value_fails processed_condition value_at_path then Ok false
    else
      no_match <- regex_fails processed_condition value_at_path ;;
      if no_match then Ok false
      else
        out_of_range <- range_fails processed_condition value_at_path ;;
        if out_of_range then Ok false else Ok true.

End WithLibraries.
End Utils.

(** ** [src/converter.py] *)

Module Converter.
Import Utils.

(** *** The logger

    Recorded: every warning and error of [apply_actions], and the debug
    lines that announce a skip, a phase, or the value a sequence writes.
    The other debug lines repeat what the state shows. *)

Inductive action_kind :=
| KDelete | KRename | KSet | KAppend | KPrepend | KSequence.

Inductive event :=
| SkipAll                                           (* line 82 *)
| Running (kind : action_kind) (processed : value)  (* lines 87, 94, 106,
                                                       147, 166, 185 *)
| ExpressionFailed (path : scalar)                  (* line 133 *)
| DefaultUsed (path : scalar) (default : value)     (* line 136 *)
| NotAList (kind : action_kind) (path : scalar)     (* lines 156, 175 *)
| UnnamedSequence (path : scalar)                   (* lines 197-198 *)
| SequenceSet (path : scalar) (written : value).    (* lines 220, 223 *)

Inductive level := DEBUG | WARNING | ERROR.

Definition event_level (e : event) : level :=
  match e with
  | SkipAll | Running _ _ | SequenceSet _ _ => DEBUG
  | DefaultUsed _ _ | NotAList _ _ => WARNING
  | ExpressionFailed _ | UnnamedSequence _ => ERROR
  end.

(** *** Sequence counters: keyed by the string [shared_id_<id>] or by the
    tuple [(rule_name, path)]. *)

Inductive counter_key :=
| SharedKey (s : string)
| IsolatedKey (rule_name path : scalar).

Definition counter_key_eqb (a b : counter_key) : bool :=
  match a, b with
  | SharedKey s, SharedKey t => String.eqb s t
  | IsolatedKey n p, IsolatedKey m q => scalar_eqb n m && scalar_eqb p q
  | _, _ => false
  end.

Definition counters := list (counter_key * value).

(** *** The mutable state *)

Record state := mkState {
  content_config : value;
  sequence_counters : counters;
  log : list event
}.

Definition M (A : Type) := state -> state * res A.

Definition ret {A} (a : A) : M A := fun st => (st, Ok a).

Definition bind {A B} (m : M A) (k : A -> M B) : M B :=
  fun st =>
    match m st with
    | (st', Ok a) => k a st'
    | (st', Raise e) => (st', Raise e)
    end.

Definition lift {A} (r : res A) : M A := fun st => (st, r).

Declare Scope M_scope.
Delimit Scope M_scope with M.
Notation "x <- m ;; k" := (bind m (fun x => k))
  (at level 61, m at next level, right associativity) : M_scope.
Notation "m ;; k" := (bind m (fun _ => k))
  (at level 61, right associativity) : M_scope.

Definition emit (e : event) : M unit :=
  fun st => (mkState (content_config st) (sequence_counters st)
                     (log st ++ [e]), Ok tt).

Definition get_config : M value := fun st => (st, Ok (content_config st)).

Definition put_config (c : value) : M unit :=
  fun st => (mkState c (sequence_counters st) (log st), Ok tt).

Definition get_counters : M counters :=
  fun st => (st, Ok (sequence_counters st)).

Definition put_counter (k : counter_key) (v : value) : M unit :=
  fun st => (mkState (content_config st)
                     (assoc_set counter_key_eqb (sequence_counters st) k v)
                     (log st), Ok tt).

Fixpoint for_each {A} (l : list A) (body : A -> M unit) : M unit :=
  match l with
  | [] => ret tt
  | x :: rest => bind (body x) (fun _ => for_each rest body)
  end.

Section WithLibraries.
Context {L : Libraries}.
Local Open Scope M_scope.

(** [set_nested_value(content_config, path, v)] and
    [delete_nested_value(content_config, path)] on the state *)
Definition set_in_config (path v : value) : M unit :=
  cfg <- get_config ;;
  cfg' <- lift (set_nested_value cfg path v) ;;
  put_config cfg'.

Definition delete_in_config (path : value) : M unit :=
  cfg <- get_config ;;
  cfg' <- lift (delete_nested_value cfg path) ;;
  put_config cfg'.

Definition get_in_config (path : value) : M value :=
  cfg <- get_config ;;
  lift (get_nested_value cfg path).

(** [process_dynamic_context] *)
Fixpoint context_loop (definitions : list (scalar * value))
         (content_config : value) (final_context : dict) : dict :=
  match definitions with
  | [] => final_context
  | (var_name, var_config) :: rest =>
      let next :=
        match var_config with
        | VDict c =>
            match dict_get c (SStr "expression") with
            | Some expression =>
                match aeval_context final_context content_config
                                    expression with
                | Some final_value =>
                    dict_set final_context var_name final_value
                | None =>
                    match dict_get c (SStr "default_value") with
                    | Some default => dict_set final_context var_name default
                    | None => final_context
                    end
                end
            | None => dict_set final_context var_name var_config
            end
        | _ => dict_set final_context var_name var_config
        end in
      context_loop rest content_config next
  end.

Definition process_dynamic_context (context_definitions content_config : value)
           (base_context : dict) : res dict :=
  (definitions <- as_dict context_definitions ;;
   Ok (context_loop definitions content_config base_context))%res.

(** *** [apply_actions], one phase per action kind *)

Definition delete_phase (actions context : dict) : M unit :=
  match dict_get actions (SStr "delete") with
  | None => ret tt
  | Some paths =>
      processed_delete_paths <- lift (process_placeholders paths context) ;;
      emit (Running KDelete processed_delete_paths) ;;
      to_delete <- lift (py_iter processed_delete_paths) ;;
      for_each to_delete delete_in_config
  end.

Definition rename_body (pair : scalar * value) : M unit :=
  let (old_path, new_path) := pair in
  v <- get_in_config (Atom old_path) ;;
  if is_None v then ret tt
  else
    set_in_config new_path v ;;
    delete_in_config (Atom old_path).

Definition rename_phase (actions context : dict) : M unit :=
  match dict_get actions (SStr "rename") with
  | None => ret tt
  | Some renames =>
      processed_rename_map <- lift (process_placeholders renames context) ;;
      emit (Running KRename processed_rename_map) ;;
      pairs <- lift (as_dict processed_rename_map) ;;
      for_each pairs rename_body
  end.

Definition set_body (context : dict) (pair : scalar * value) : M unit :=
  let (path, value_config) := pair in
  let literal := set_in_config (Atom path) value_config in
  match value_config with
  | VDict c =>
      match dict_get c (SStr "expression") with
      | Some expression =>
          cfg <- get_config ;;
          match aeval_set context cfg expression with
          | Some final_value => set_in_config (Atom path) final_value
          | None =>
              emit (ExpressionFailed path) ;;
              match dict_get c (SStr "default_value") with
              | Some default =>
                  emit (DefaultUsed path default) ;;
                  set_in_config (Atom path) default
              | None => ret tt
              end
          end
      | None => literal
      end
  | _ => literal
  end.

Definition set_phase (actions context : dict) : M unit :=
  match dict_get actions (SStr "set") with
  | None => ret tt
  | Some sets =>
      processed_set_map <- lift (process_placeholders sets context) ;;
      emit (Running KSet processed_set_map) ;;
      pairs <- lift (as_dict processed_set_map) ;;
      for_each pairs (set_body context)
  end.

(** [x if isinstance(x, list) else [x]] *)
Definition as_elements (elements_to_add : value) : list value :=
  match elements_to_add with
  | VList l => l
  | _ => [elements_to_add]
  end.

(** [append] and [prepend] differ in the last statement only.  The
    list object found (or just stored) at [path] is changed in place,
    which on a tree is a write at [path]. *)
Definition extend_body (kind : action_kind)
           (extend : list value -> list value -> list value)
           (pair : scalar * value) : M unit :=
  let (path, elements_to_add) := pair in
  current_list <- get_in_config (Atom path) ;;
  match current_list with
  | VNone =>
      set_in_config (Atom path) (VList []) ;;
      set_in_config (Atom path)
                    (VList (extend [] (as_elements elements_to_add)))
  | VList l =>
      set_in_config (Atom path)
                    (VList (extend l (as_elements elements_to_add)))
  | _ => emit (NotAList kind path)
  end.

Definition append_phase (actions context : dict) : M unit :=
  match dict_get actions (SStr "append") with
  | None => ret tt
  | Some appends =>
      processed_append_map <- lift (process_placeholders appends context) ;;
      emit (Running KAppend processed_append_map) ;;
      pairs <- lift (as_dict processed_append_map) ;;
      for_each pairs (extend_body KAppend (fun l new => l ++ new))
  end.

Definition prepend_phase (actions context : dict) : M unit :=
  match dict_get actions (SStr "prepend") with
  | None => ret tt
  | Some prepends =>
      processed_prepend_map <- lift (process_placeholders prepends context) ;;
      emit (Running KPrepend processed_prepend_map) ;;
      pairs <- lift (as_dict processed_prepend_map) ;;
      for_each pairs (extend_body KPrepend (fun l new => new ++ l))
  end.

(** The key under which a sequence counts: [None] is the unnamed-rule
    error.  A tuple key is hashed, so the rule name must be hashable;
    a NaN name would be found again by identity only. *)
Definition counter_key_of (rule_name : value) (path : scalar)
           (sequence_id : value) : res (option counter_key) :=
  if py_truthy sequence_id
  then Ok (Some (SharedKey ("shared_id_" ++ py_str sequence_id)))
  else if py_eqb rule_name (VStr "Unnamed Rule") then Ok None
  else match rule_name with
       | VFloat S754_nan => Raise ObjectIdentity
       | Atom name => Ok (Some (IsolatedKey name path))
       | _ => Raise TypeError
       end.

(** The value a counter is created with. *)
Definition initial_value_of (sequence_overrides : option dict)
           (path : scalar) (sequence_id start_value : value) : res value :=
  let override_key := if py_truthy sequence_id then sequence_id
                      else Atom path in
  match sequence_overrides with
  | Some overrides =>
      if py_truthy (VDict overrides)
      then (k <- as_key override_key ;;
            match dict_get overrides k with
            | Some v => Ok v
            | None => Ok start_value
            end)%res
      else Ok start_value
  | None => Ok start_value
  end.

(** The value written for a counter value. *)
Definition sequence_output (format_string current_value : value) : value :=
  match format_string with
  | VStr f =>
      if py_truthy format_string
      then VStr (str_replace f "{counter}" (py_str current_value))
      else current_value
  | _ => current_value
  end.

Definition sequence_body (rule_name : value)
           (sequence_overrides : option dict)
           (pair : scalar * value) : M unit :=
  let (path, sequence_info) := pair in
  info <- lift (as_dict sequence_info) ;;
  let sequence_id := dict_get_default info (SStr "id") VNone in
  key <- lift (counter_key_of rule_name path sequence_id) ;;
  match key with
  | None => emit (UnnamedSequence path)
  | Some counter_key =>
      let start_value := dict_get_default info (SStr "start") (VInt 0) in
      let step_value := dict_get_default info (SStr "step") (VInt 1) in
      let format_string := dict_get_default info (SStr "format") VNone in
      known <- get_counters ;;
      current_value <-
        match assoc_get counter_key_eqb known counter_key with
        | Some v => ret v
        | None =>
            initial_value <- lift (initial_value_of sequence_overrides path
                                     sequence_id start_value) ;;
            put_counter counter_key initial_value ;;
            ret initial_value
        end ;;
      let final_value_to_set := sequence_output format_string current_value in
      emit (SequenceSet path final_value_to_set) ;;
      set_in_config (Atom path) final_value_to_set ;;
      next <- lift (py_iadd current_value step_value) ;;
      put_counter counter_key next
  end.

Definition sequence_phase (actions context : dict) (rule_name : value)
           (sequence_overrides : option dict) : M unit :=
  match dict_get actions (SStr "sequence") with
  | None => ret tt
  | Some sequences =>
      processed_sequence_map <-
        lift (process_placeholders sequences context) ;;
      emit (Running KSequence processed_sequence_map) ;;
      pairs <- lift (as_dict processed_sequence_map) ;;
      for_each pairs (sequence_body rule_name sequence_overrides)
  end.

Definition apply_actions (actions : value) (context : dict)
           (rule_name : value) (sequence_overrides : option dict) : M unit :=
  acts <- lift (as_dict actions) ;;
  if py_truthy (dict_get_default acts (SStr "skip") (VBool false))
  then emit SkipAll
  else
    delete_phase acts context ;;
    rename_phase acts context ;;
    set_phase acts context ;;
    append_phase acts context ;;
    prepend_phase acts context ;;
    sequence_phase acts context rule_name sequence_overrides.

(** *** The rule loop of [convert_single_file] for one record *)

(** [[dep for dep in dependencies if dep not in executed]]: every
    [dep] is hashed. *)
Fixpoint missing_deps (dependencies : list value) (executed : list scalar)
  : res (list value) :=
  match dependencies with
  | [] => Ok []
  | dep :: rest =>
      (k <- as_key dep ;;
       rest' <- missing_deps rest executed ;;
       Ok (if existsb (scalar_eqb k) executed then rest' else dep :: rest'))%res
  end.

Definition dependencies_missing (dependencies : value)
           (executed : list scalar) : res bool :=
  if py_truthy dependencies
  then (deps <- (if is_str dependencies then Ok [dependencies]
                 else py_iter dependencies) ;;
        missing <- missing_deps deps executed ;;
        Ok (py_truthy (VList missing)))%res
  else Ok false.

(** The loop over [rule['conditions']], left at the first failure. *)
Fixpoint conditions_hold (conditions : list value) (context : dict)
  : M bool :=
  match conditions with
  | [] => ret true
  | condition :: rest =>
      cfg <- get_config ;;
      met <- lift (evaluate_condition cfg condition context) ;;
      if met then conditions_hold rest context else ret false
  end.

(** [executed_rules_for_item.add(name)] *)
Definition add_executed (executed : list scalar) (name : value)
  : res (list scalar) :=
  (k <- as_key name ;;
   Ok (if existsb (scalar_eqb k) executed then executed
       else executed ++ [k]))%res.

(** [rule.get('name', 'Unnamed Rule')] *)
Definition rule_name_of (rule : dict) : value :=
  dict_get_default rule (SStr "name") (VStr "Unnamed Rule").

(** One turn of [for rule in nested_rules]; returns the executed set. *)
Definition run_rule (context : dict) (sequence_overrides : option dict)
           (executed : list scalar) (rule : value) : M (list scalar) :=
  r <- lift (as_dict rule) ;;
  let rule_name := rule_name_of r in
  let rule_actions := dict_get_default r (SStr "actions") (VDict []) in
  let dependencies := dict_get_default r (SStr "depends_on") VNone in
  blocked <- lift (dependencies_missing dependencies executed) ;;
  if blocked then ret executed
  else
    acts <- lift (as_dict rule_actions) ;;
    if py_truthy (dict_get_default acts (SStr "skip") (VBool false))
    then ret executed
    else
      conditions_met <-
        match dict_get r (SStr "conditions") with
        | Some conditions =>
            cs <- lift (py_iter conditions) ;;
            conditions_hold cs context
        | None => ret true
        end ;;
      if conditions_met
      then
        apply_actions rule_actions context rule_name sequence_overrides ;;
        let name := dict_get_default r (SStr "name") VNone in
        if py_truthy name then lift (add_executed executed name)
        else ret executed
      else ret executed.

Fixpoint run_rules (context : dict) (sequence_overrides : option dict)
         (executed : list scalar) (nested_rules : list value)
  : M (list scalar) :=
  match nested_rules with
  | [] => ret executed
  | rule :: rest =>
      executed' <- run_rule context sequence_overrides executed rule ;;
      run_rules context sequence_overrides executed' rest
  end.

(** *** Content groups *)

Definition content_key_base (content_type : value) : res string :=
  match content_type with
  | VStr s => Ok (if endswith s "s" then s else (s ++ "s")%string)
  | _ => Raise AttributeError
  end.

Definition key_pattern (base : string) : string :=
  ("^" ++ re_escape base ++ "\d*$")%string.

Fixpoint select_keys (pattern : string) (keys : list value)
  : res (list string) :=
  match keys with
  | [] => Ok []
  | VStr k :: rest =>
      (found <- py_re_match (VStr pattern) k ;;
       rest' <- select_keys pattern rest ;;
       Ok (if found then k :: rest' else rest'))%res
  | _ :: _ => Raise TypeError
  end.

(** [[k for k in old_data if re.match(pattern, k)]] *)
Definition matching_keys (old_data : value) (base : string)
  : res (list string) :=
  (keys <- py_iter old_data ;;
   select_keys (key_pattern base) keys)%res.

(** [old_data.get(content_key, {})] *)
Definition group_of (old_data : value) (content_key : string) : res value :=
  (d <- as_dict old_data ;;
   Ok (dict_get_default d (SStr content_key) (VDict [])))%res.

(** The first loop over [rules_list], which sizes the progress bar. *)
Fixpoint count_keys (old_data : value) (keys : list string) (total : nat)
  : res nat :=
  match keys with
  | [] => Ok total
  | content_key :: rest =>
      (g <- group_of old_data content_key ;;
       n <- py_len g ;;
       count_keys old_data rest (total + n))%res
  end.

Fixpoint count_items (old_data : value) (rules_list : list value)
         (total : nat) : res nat :=
  match rules_list with
  | [] => Ok total
  | top_level_rule :: rest =>
      (rule <- as_dict top_level_rule ;;
       let content_type := dict_get_default rule (SStr "content") VNone in
       if negb (py_truthy content_type) then count_items old_data rest total
       else
         base <- content_key_base content_type ;;
         keys <- matching_keys old_data base ;;
         total' <- count_keys old_data keys total ;;
         count_items old_data rest total')%res
  end.

(** [new_data[content_key][content_id] = content_config_new] *)
Definition store (new_data : dict) (content_key : string)
           (content_id : scalar) (content_config_new : value) : dict :=
  match dict_get new_data (SStr content_key) with
  | Some (VDict group) =>
      dict_set new_data (SStr content_key)
               (VDict (dict_set group content_id content_config_new))
  | _ => new_data
  end.

(** One turn of [for content_id, content_config_old in ...items()].
    [copy.deepcopy] of a tree is the tree. *)
Definition convert_item (content_type nested_rules definitions : value)
           (sequence_overrides : option dict) (content_key : string)
           (new_data : dict) (item : scalar * value) : M dict :=
  let (content_id, content_config_old) := item in
  put_config content_config_old ;;
  let base_context := [(SStr "content_id", Atom content_id);
                       (SStr "content_type", content_type)] in
  final_context <- lift (process_dynamic_context definitions
                           content_config_old base_context) ;;
  rules <- lift (py_iter nested_rules) ;;
  run_rules final_context sequence_overrides [] rules ;;
  content_config_new <- get_config ;;
  ret (store new_data content_key content_id content_config_new).

Fixpoint convert_items (content_type nested_rules definitions : value)
         (sequence_overrides : option dict) (content_key : string)
         (new_data : dict) (items : list (scalar * value)) : M dict :=
  match items with
  | [] => ret new_data
  | item :: rest =>
      new_data' <- convert_item content_type nested_rules definitions
                     sequence_overrides content_key new_data item ;;
      convert_items content_type nested_rules definitions
                    sequence_overrides content_key new_data' rest
  end.

(** One turn of [for content_key in matching_keys]. *)
Definition convert_group (old_data content_type nested_rules definitions
                            : value)
           (sequence_overrides : option dict) (new_data : dict)
           (content_key : string) : M dict :=
  contents_to_process <- lift (group_of old_data content_key) ;;
  let new_data' := dict_set new_data (SStr content_key) (VDict []) in
  if negb (py_truthy contents_to_process) then ret new_data'
  else
    items <- lift (as_dict contents_to_process) ;;
    convert_items content_type nested_rules definitions sequence_overrides
                  content_key new_data' items.

Fixpoint convert_groups (old_data content_type nested_rules definitions
                           : value)
         (sequence_overrides : option dict) (new_data : dict)
         (keys : list string) : M dict :=
  match keys with
  | [] => ret new_data
  | content_key :: rest =>
      new_data' <- convert_group old_data content_type nested_rules
                     definitions sequence_overrides new_data content_key ;;
      convert_groups old_data content_type nested_rules definitions
                     sequence_overrides new_data' rest
  end.

(** One turn of the second [for top_level_rule in rules_list]. *)
Definition convert_rule (old_data : value)
           (sequence_overrides : option dict) (new_data : dict)
           (top_level_rule : value) : M dict :=
  rule <- lift (as_dict top_level_rule) ;;
  let content_type := dict_get_default rule (SStr "content") VNone in
  let nested_rules := dict_get_default rule (SStr "rules") (VList []) in
  let definitions := dict_get_default rule (SStr "context") (VDict []) in
  if negb (py_truthy content_type) then ret new_data
  else
    base <- lift (content_key_base content_type) ;;
    keys <- lift (matching_keys old_data base) ;;
    convert_groups old_data content_type nested_rules definitions
                   sequence_overrides new_data keys.

Fixpoint convert_rules (old_data : value)
         (sequence_overrides : option dict) (new_data : dict)
         (rules_list : list value) : M dict :=
  match rules_list with
  | [] => ret new_data
  | top_level_rule :: rest =>
      new_data' <- convert_rule old_data sequence_overrides new_data
                     top_level_rule ;;
      convert_rules old_data sequence_overrides new_data' rest
  end.

(** [convert_single_file] between loading [old_data] and saving
    [new_data]: fresh counters, the sizing loop, the conversion loop. *)
Definition initial_state : state := mkState VNone [] [].

Definition convert (old_data rules_list : value)
           (sequence_overrides : option dict) : M value :=
  rules <- lift (py_iter rules_list) ;;
  lift (count_items old_data rules 0) ;;
  new_data <- convert_rules old_data sequence_overrides [] rules ;;
  ret (VDict new_data).

(** What the caller receives as [new_data]. *)
Definition convert_single_file (old_data rules_list : value)
           (sequence_overrides : option dict) : res value :=
  snd (convert old_data rules_list sequence_overrides initial_state).

End WithLibraries.
End Converter.

(** ** [main.py] *)

Module Main.
Section WithInt.
(** [int(s)]; [None] is [ValueError] *)
Variable py_int : string -> option Z.

(** [s.rsplit(sep, 1)] for a string that holds [sep]: what stands before
    and after its last occurrence; [None] when [sep not in s]. *)
Fixpoint rsplit_on (sep : ascii) (s : string) : option (string * string) :=
  match s with
  | EmptyString => None
  | String c s' =>
      match rsplit_on sep s' with
      | Some (before, after) => Some (String c before, after)
      | None => if Ascii.eqb c sep then Some (EmptyString, s') else None
      end
  end.

(** One turn of the loop of [parse_sequence_overrides]; the two warnings
    go to the root logger and are left out. *)
Definition parse_override (parsed_overrides : dict) (override : string)
  : dict :=
  match rsplit_on ":"%char override with
  | None => parsed_overrides
  | Some (path, value_str) =>
      match py_int value_str with
      | Some v => dict_set parsed_overrides (SStr path) (VInt v)
      | None => parsed_overrides
      end
  end.

Definition parse_sequence_overrides (overrides : list string) : dict :=
  fold_left parse_override overrides [].
End WithInt.
End Main.

Import Utils Converter Main.

(** ** Vocabulary of the properties *)

(** A field is present when every segment of its path is a key of the
    mapping reached so far, whatever the value found at the end. *)
Fixpoint has_parts (current : value) (parts : list string) : bool :=
  match parts with
  | [] => true
  | part :: rest =>
      match current with
      | VDict d =>
          match dict_get d (SStr part) with
          | Some v => has_parts v rest
          | None => false
          end
      | _ => false
      end
  end.

(** The mapping an intermediate node contributes to a write: itself when
    it is a mapping, a fresh empty mapping otherwise. *)
Definition mapping_or_empty (node : value) : dict :=
  match node with
  | VDict c => c
  | _ => []
  end.









(** One use of a sequence action during a file conversion: the name of
    its rule and its entry of the processed [sequence] map. *)
Record sequence_use := mkUse {
  use_rule : value;
  use_path : string;
  use_info : dict
}.

Definition use_id (u : sequence_use) : value :=
  dict_get_default (use_info u) (SStr "id") VNone.
Definition use_start (u : sequence_use) : value :=
  dict_get_default (use_info u) (SStr "start") (VInt 0).
Definition use_step (u : sequence_use) : value :=
  dict_get_default (use_info u) (SStr "step") (VInt 1).
Definition use_format (u : sequence_use) : value :=
  dict_get_default (use_info u) (SStr "format") VNone.

(** The entry of a processed [sequence] map that a use stands for. *)
Definition use_entry (u : sequence_use) : scalar * value :=
  (SStr (use_path u), VDict (use_info u)).

(** A counter key made of strings: [shared_id_<id>], or a tuple of a
    string rule name and a string path. *)
Definition string_key (k : counter_key) : bool :=
  match k with
  | SharedKey _ => true
  | IsolatedKey (SStr _) (SStr _) => true
  | _ => false
  end.

(** Every counter holds an integer. *)
Definition integer_counters (cs : counters) : Prop :=
  Forall (fun kv => exists z, snd kv = VInt z) cs.

(** The values the sequence actions wrote, as the log lists them. *)
Definition sequence_writes (l : list event) : list value :=
  flat_map (fun e => match e with SequenceSet _ v => [v] | _ => [] end) l.

(** The records of the group under [content_key]. *)
Definition group_items (groups : dict) (content_key : string)
  : list (scalar * value) :=
  match dict_get groups (SStr content_key) with
  | Some (VDict items) => items
  | _ => []
  end.

Section Uses.
Context {L : Libraries}.

Definition use_key (u : sequence_use) : res (option counter_key) :=
  counter_key_of (use_rule u) (SStr (use_path u)) (use_id u).

Definition bound_to (K : counter_key) (u : sequence_use) : bool :=
  match use_key u with
  | Ok (Some k) => counter_key_eqb k K
  | _ => false
  end.

(** The value a use would create its counter with. *)
Definition use_initial (sequence_overrides : option dict) (u : sequence_use)
  : res value :=
  initial_value_of sequence_overrides (SStr (use_path u)) (use_id u)
                   (use_start u).

(** A use that counts in integers and does not raise. *)
Definition integer_use (sequence_overrides : option dict) (u : sequence_use)
  : Prop :=
  (exists k, use_key u = Ok (Some k))
  /\ (exists i, use_initial sequence_overrides u = Ok (VInt i))
  /\ (exists s, use_step u = VInt s).

(** The writes of the uses bound to [K]. *)
Definition writes_bound_to (K : counter_key) (uses : list sequence_use)
           (written : list value) : list value :=
  map snd (filter (fun uw => bound_to K (fst uw)) (combine uses written)).

(** The first use bound to [K]. *)
Definition first_bound_to (K : counter_key) (uses : list sequence_use)
  : option sequence_use :=
  find (bound_to K) uses.

(** The uses bound to [K] all advance the counter by [s]. *)
Definition same_step (K : counter_key) (s : Z) (uses : list sequence_use)
  : Prop :=
  forall u, In u uses -> bound_to K u = true -> use_step u = VInt s.

(** What successive uses write when the counter stands at [a] and
    advances by [s]. *)
Fixpoint progression (a s : Z) (uses : list sequence_use) : list value :=
  match uses with
  | [] => []
  | u :: rest =>
      sequence_output (use_format u) (VInt a)
      :: progression (a + s) s rest
  end.

(** The counter discipline in the spec's words: a counter is created
    at its first use, from the override or the [start], and every use
    writes the value of its counter and advances it by its [step].
    Returns the counters after the use and the value written. *)
Definition counted_use (sequence_overrides : option dict) (cs : counters)
           (u : sequence_use) : counters * value :=
  match use_key u, use_step u with
  | Ok (Some k), VInt s =>
      match assoc_get counter_key_eqb cs k with
      | Some (VInt c) =>
          (assoc_set counter_key_eqb cs k (VInt (c + s)),
           sequence_output (use_format u) (VInt c))
      | Some _ => (cs, VNone)
      | None =>
          match use_initial sequence_overrides u with
          | Ok (VInt i) =>
              (assoc_set counter_key_eqb
                 (assoc_set counter_key_eqb cs k (VInt i)) k (VInt (i + s)),
               sequence_output (use_format u) (VInt i))
          | _ => (cs, VNone)
          end
      end
  | _, _ => (cs, VNone)
  end.

Fixpoint counted (sequence_overrides : option dict) (cs : counters)
         (uses : list sequence_use) : counters * list value :=
  match uses with
  | [] => (cs, [])
  | u :: rest =>
      let (cs1, w) := counted_use sequence_overrides cs u in
      let (cs2, ws) := counted sequence_overrides cs1 rest in
      (cs2, w :: ws)
  end.

(** A computation on a record that does to the counters, and logs as
    written, what the counter discipline says of [uses]. *)
Definition counts_on_record {A : Type} (sequence_overrides : option dict)
           (m : M A) (uses : list sequence_use) : Prop :=
  forall st d,
    content_config st = VDict d ->
    integer_counters (sequence_counters st) ->
    exists st' a d',
      m st = (st', Ok a)
      /\ content_config st' = VDict d'
      /\ sequence_counters st'
         = fst (counted sequence_overrides (sequence_counters st) uses)
      /\ sequence_writes (log st')
         = sequence_writes (log st)
           ++ snd (counted sequence_overrides (sequence_counters st) uses).

(** The same of a computation that brings its own records. *)
Definition counts {A : Type} (sequence_overrides : option dict)
           (m : M A) (uses : list sequence_use) : Prop :=
  forall st,
    integer_counters (sequence_counters st) ->
    exists st' a,
      m st = (st', Ok a)
      /\ sequence_counters st'
         = fst (counted sequence_overrides (sequence_counters st) uses)
      /\ sequence_writes (log st')
         = sequence_writes (log st)
           ++ snd (counted sequence_overrides (sequence_counters st) uses).

(** The context of a record under the context definitions of its
    top-level rule. *)
Definition record_context (definitions : dict) (content_type : value)
           (item : scalar * value) : dict :=
  context_loop definitions (snd item)
               [(SStr "content_id", Atom (fst item));
                (SStr "content_type", content_type)].

(** A nested rule that only counts: no dependencies, no conditions, a
    hashable name, and an action block that holds nothing but
    [sequence], whose entries are those of [uses] once the placeholders
    are processed in each of [contexts]. *)
Definition counting_rule (contexts : list dict) (rule : dict)
           (uses : list sequence_use) : Prop :=
  py_truthy (dict_get_default rule (SStr "depends_on") VNone) = false
  /\ dict_get rule (SStr "conditions") = None
  /\ (exists name, dict_get_default rule (SStr "name") VNone = Atom name)
  /\ Forall (fun u => use_rule u = rule_name_of rule) uses
  /\ exists entries,
       dict_get rule (SStr "actions")
       = Some (VDict [(SStr "sequence", entries)])
       /\ forall context,
            In context contexts ->
            process_placeholders entries context
            = Ok (VDict (map use_entry uses)).

(** An entry of a processed [sequence] map that, when it counts under
    [K], has the step [s]. *)
Definition steady_entry (K : counter_key) (s : Z) (rule_name : value)
           (pair : scalar * value) : Prop :=
  forall info k,
    snd pair = VDict info ->
    counter_key_of rule_name (fst pair)
                   (dict_get_default info (SStr "id") VNone) = Ok (Some k) ->
    counter_key_eqb k K = true ->
    dict_get_default info (SStr "step") (VInt 1) = VInt s.

(** A nested rule, whatever else it holds, whose [sequence] entries are
    steady in whatever context their placeholders are processed. *)
Definition steady_rule (K : counter_key) (s : Z) (rule : value) : Prop :=
  forall r acts entries context pairs,
    rule = VDict r ->
    dict_get_default r (SStr "actions") (VDict []) = VDict acts ->
    dict_get acts (SStr "sequence") = Some entries ->
    process_placeholders entries context = Ok (VDict pairs) ->
    Forall (steady_entry K s (rule_name_of r)) pairs.

Definition steady_top (K : counter_key) (s : Z) (top_level_rule : value)
  : Prop :=
  forall top nested,
    top_level_rule = VDict top ->
    py_iter (dict_get_default top (SStr "rules") (VList [])) = Ok nested ->
    Forall (steady_rule K s) nested.

(** A rules file in which every use of [K] has the step [s]. *)
Definition steady_rules (K : counter_key) (s : Z) (rules_list : value)
  : Prop :=
  forall tops, py_iter rules_list = Ok tops -> Forall (steady_top K s) tops.
End Uses.

(** The counter of [K], when it stands at an integer, stands afterwards
    at that integer advanced by [s] a number of times. *)
Definition advances (K : counter_key) (s : Z) (before after : state) : Prop :=
  forall c,
    assoc_get counter_key_eqb (sequence_counters before) K = Some (VInt c) ->
    exists n : nat,
      assoc_get counter_key_eqb (sequence_counters after) K
      = Some (VInt (c + Z.of_nat n * s)).

(** The override supplied for a use: the entry of the overrides under
    the [id] of the use when it has one, under its path otherwise. *)
Definition override_for (sequence_overrides : option dict) (u : sequence_use)
  : option value :=
  match sequence_overrides with
  | Some overrides =>
      match as_key (if py_truthy (use_id u) then use_id u
                    else VStr (use_path u)) with
      | Ok k => dict_get overrides k
      | Raise _ => None
      end
  | None => None
  end.

(** Keys that differ pairwise, as the keys of a dict do. *)
Fixpoint distinct_keys (d : dict) : bool :=
  match d with
  | [] => true
  | (k, _) :: rest =>
      forallb (fun kv => negb (scalar_eqb k (fst kv))) rest
      && distinct_keys rest
  end.

(** An input record tree: groups under distinct string keys, each a
    mapping from distinct ids to records. *)
Definition record_tree (groups : dict) : Prop :=
  distinct_keys groups = true
  /\ Forall (fun kv => exists k g, kv = (SStr k, VDict g)
                                   /\ distinct_keys g = true) groups.

Definition string_keyed (d : dict) : Prop :=
  Forall (fun kv => exists k, fst kv = SStr k) d.

(** A top-level rule that only names a content type: neither context
    definitions nor nested rules. *)
Definition bare_rule (rule : value) : Prop :=
  exists r content_type,
    rule = VDict r
    /\ dict_get_default r (SStr "content") VNone = VStr content_type
    /\ content_type <> ""
    /\ dict_get_default r (SStr "rules") (VList []) = VList []
    /\ dict_get_default r (SStr "context") (VDict []) = VDict [].

Section Selection.
Context {L : Libraries}.

Definition matches (pattern k : string) : bool :=
  match re_match pattern k with
  | Some true => true
  | _ => false
  end.

(** The group keys a top-level rule selects. *)
Definition selects (rule : value) (k : string) : bool :=
  match rule with
  | VDict r =>
      match content_key_base (dict_get_default r (SStr "content") VNone) with
      | Ok base => matches (key_pattern base) k
      | Raise _ => false
      end
  | _ => false
  end.

(** The keys of a tree that match a pattern, in the order of the tree. *)
Fixpoint selected_keys (pattern : string) (groups : dict) : list string :=
  match groups with
  | [] => []
  | (SStr k, _) :: rest =>
      if matches pattern k then k :: selected_keys pattern rest
      else selected_keys pattern rest
  | _ :: rest => selected_keys pattern rest
  end.
End Selection.

(** Every dict of a value has pairwise different keys. *)
Fixpoint well_formed (v : value) : bool :=
  match v with
  | Atom _ => true
  | VList l => forallb well_formed l
  | VDict d => distinct_keys d && forallb (fun kv => well_formed (snd kv)) d
  end.

(** A string without an opening brace. *)
Fixpoint no_brace (s : string) : bool :=
  match s with
  | EmptyString => true
  | String c s' => negb (Ascii.eqb c "{"%char) && no_brace s'
  end.

Definition no_brace_key (k : scalar) : bool :=
  match k with
  | SStr s => no_brace s
  | _ => true
  end.

(** No string of the value, key or leaf, has an opening brace. *)
Fixpoint brace_free (v : value) : bool :=
  match v with
  | Atom a => no_brace_key a
  | VList l => forallb brace_free l
  | VDict d =>
      forallb (fun kv => no_brace_key (fst kv) && brace_free (snd kv)) d
  end.

(** A context definition that is taken as it stands: not a mapping with
    an [expression]. *)
Definition static_definition (var_config : value) : bool :=
  match var_config with
  | VDict c => negb (dict_mem c (SStr "expression"))
  | _ => true
  end.

(** A computation whose final state is related to its initial state,
    whether it returns or raises. *)
Definition preserves (R : state -> state -> Prop) {A : Type} (m : M A)
  : Prop :=
  forall st, R st (fst (m st)).

Definition same_counters (st st' : state) : Prop :=
  sequence_counters st' = sequence_counters st.

(** The counters that exist go on existing. *)
Definition counters_persist (st st' : state) : Prop :=
  forall k, assoc_mem counter_key_eqb (sequence_counters st) k = true ->
            assoc_mem counter_key_eqb (sequence_counters st') k = true.

(** In the executed set. *)
Definition executed_has (executed : list scalar) (name : scalar) : bool :=
  existsb (scalar_eqb name) executed.

(** The value a command-line token gives for [path]: the token must end
    in [:<integer>] after [path]. *)
Definition override_of (py_int : string -> option Z) (path token : string)
  : option Z :=
  match rsplit_on ":"%char token with
  | Some (p, value_str) => if String.eqb p path then py_int value_str else None
  | None => None
  end.

(** The keys an iteration over the input tree yields. *)
Definition input_keys (old_data : value) : list value :=
  match py_iter old_data with
  | Ok keys => keys
  | Raise _ => []
  end.

(** An output group that stems from the input: it stands under a key of
    the input tree and is a mapping whose ids are distinct and are ids of
    the input group under that key. *)
Definition group_from (old_data : value) (key : scalar) (v : value) : Prop :=
  exists (k : string) (group : dict),
    key = SStr k /\ v = VDict group
    /\ In (VStr k) (input_keys old_data)
    /\ distinct_keys group = true
    /\ forall id, In id (map fst group) ->
                  exists input_group,
                    group_of old_data k = Ok (VDict input_group)
                    /\ In id (map fst input_group).

Definition groups_from (old_data : value) (new_data : dict) : Prop :=
  distinct_keys new_data = true
  /\ Forall (fun kv => group_from old_data (fst kv) (snd kv)) new_data.

(** Two runs end in the same state, and either raise the same exception
    or return trees with the same group under [key]. *)
Definition agree_at (key : string) (r1 r2 : state * res dict) : Prop :=
  fst r1 = fst r2
  /\ match snd r1, snd r2 with
     | Ok a, Ok b => dict_get a (SStr key) = dict_get b (SStr key)
     | Raise e1, Raise e2 => e1 = e2
     | _, _ => False
     end.

(** ** Stand-ins for the libraries, for the examples

    [re.match] on the two pattern shapes of the examples: a group-key
    pattern [^<base>\d*$] matches [<base>] followed by digits, any other
    pattern is taken literally and must start the string.  Nothing
    parses as YAML and no expression evaluates. *)

Fixpoint all_digits (s : string) : bool :=
  match s with
  | EmptyString => true
  | String c rest =>
      (Nat.leb 48 (nat_of_ascii c) && Nat.leb (nat_of_ascii c) 57)
      && all_digits rest
  end.

Definition example_re_match (pattern s : string) : option bool :=
  let n := String.length pattern in
  if String.prefix "^" pattern && endswith pattern "\d*$"
  then let base := substring 1 (n - 5) pattern in
       Some (String.prefix base s
             && all_digits (substring (String.length base)
                                      (String.length s) s))
  else Some (String.prefix pattern s).

Definition example_libraries : Libraries := {|
  str_float := fun _ => "nan";
  str_container := fun _ => "[]";
  yaml_safe_load := fun _ => Ok None;
  re_match := example_re_match;
  re_escape := fun s => s;
  aeval_context := fun _ _ _ => None;
  aeval_set := fun _ _ _ => None
|}.

(** [int] on an optional minus sign and ASCII digits. *)
Fixpoint digits_value (s : string) (acc : Z) : option Z :=
  match s with
  | EmptyString => Some acc
  | String c rest =>
      let n := nat_of_ascii c in
      if Nat.leb 48 n && Nat.leb n 57
      then digits_value rest (10 * acc + Z.of_nat (n - 48))%Z
      else None
  end.

Definition example_int (s : string) : option Z :=
  match s with
  | EmptyString => None
  | String "-" (String c rest) =>
      option_map Z.opp (digits_value (String c rest) 0)
  | String "-" EmptyString => None
  | _ => digits_value s 0
  end.

(** A YAML reader for plain scalars: an integer when the text is one,
    the text itself otherwise; the date [2001-02-30] does not exist. *)
Definition example_yaml (s : string) : res (option value) :=
  if String.eqb s "2001-02-30" then Raise ValueError
  else match example_int s with
       | Some z => Ok (Some (VInt z))
       | None => Ok (Some (VStr s))
       end.

Definition yaml_libraries : Libraries := {|
  str_float := fun _ => "nan";
  str_container := fun _ => "[]";
  yaml_safe_load := example_yaml;
  re_match := example_re_match;
  re_escape := fun s => s;
  aeval_context := fun _ _ _ => None;
  aeval_set := fun _ _ _ => None
|}.

(** ** Facts about dictionaries, strings and paths *)

Unset Implicit Arguments.

Section AssocFacts.
Variables (K V : Type) (eqb : K -> K -> bool).

Lemma assoc_get_set_same (d : list (K * V)) (k : K) (v : V) :
  eqb k k = true -> assoc_get eqb (assoc_set eqb d k v) k = Some v.
Proof.
  intros Hrefl. induction d as [|[k' v'] rest IH]; simpl.
  - now rewrite Hrefl.
  - destruct (eqb k' k) eqn:E; simpl; rewrite E; auto.
Qed.

(** Writing under [k] is invisible under [k0] when the only key equal
    to [k0], on either side of the test, is [k0] itself. *)
Lemma assoc_get_set_other (d : list (K * V)) (k k0 : K) (v : V) :
  (forall x, eqb x k0 = true -> x = k0) ->
  (forall x, eqb k0 x = true -> x = k0) ->
  eqb k k0 = false ->
  assoc_get eqb (assoc_set eqb d k v) k0 = assoc_get eqb d k0.
Proof.
  intros Hl Hr Hne. induction d as [|[k' v'] rest IH]; simpl.
  - now rewrite Hne.
  - destruct (eqb k' k) eqn:E; simpl.
    + destruct (eqb k' k0) eqn:E0; auto.
      pose proof (Hl _ E0) as ->.
      pose proof (Hr _ E) as ->.
      congruence.
    + destruct (eqb k' k0); auto.
Qed.
End AssocFacts.

Lemma scalar_eqb_str_refl (s : string) : scalar_eqb (SStr s) (SStr s) = true.
Proof. simpl. apply String.eqb_refl. Qed.

Lemma scalar_eqb_str_l (s : string) (x : scalar) :
  scalar_eqb (SStr s) x = true -> x = SStr s.
Proof.
  destruct x; simpl; try discriminate.
  intros H. apply String.eqb_eq in H. now subst.
Qed.

Lemma scalar_eqb_str_r (s : string) (x : scalar) :
  scalar_eqb x (SStr s) = true -> x = SStr s.
Proof.
  destruct x; simpl; try discriminate.
  intros H. apply String.eqb_eq in H. now subst.
Qed.

Lemma dict_get_set_same (d : dict) (part : string) (v : value) :
  dict_get (dict_set d (SStr part) v) (SStr part) = Some v.
Proof. apply assoc_get_set_same, scalar_eqb_str_refl. Qed.

Lemma split_on_not_nil (sep : ascii) (s : string) : split_on sep s <> [].
Proof.
  destruct s as [|c s]; simpl; [discriminate|].
  destruct (Ascii.eqb c sep); [discriminate|].
  destruct (split_on sep s); discriminate.
Qed.

Lemma get_parts_None (parts : list string) : get_parts VNone parts = VNone.
Proof. destruct parts; reflexivity. Qed.

Lemma get_parts_app (data : value) (pre post : list string) :
  get_parts data (pre ++ post) = get_parts (get_parts data pre) post.
Proof.
  revert data. induction pre as [|part pre IH]; intros data; simpl; auto.
  destruct data as [a|l|d]; try (now rewrite get_parts_None).
  destruct (dict_get d (SStr part)); auto. now rewrite get_parts_None.
Qed.

Lemma set_parts_cons (part : string) (rest : list string) (d : dict)
      (v : value) :
  rest <> [] ->
  set_parts d (part :: rest) v
  = dict_set d (SStr part)
      (VDict (set_parts (mapping_or_empty
                           (match dict_get d (SStr part) with
                            | Some c => c
                            | None => VNone
                            end)) rest v)).
Proof.
  intros Hne. destruct rest as [|part' rest']; [congruence|].
  simpl. destruct (dict_get d (SStr part)) as [[a|l|c]|]; reflexivity.
Qed.

Lemma get_set_parts (parts : list string) (d : dict) (v : value) :
  parts <> [] -> get_parts (VDict (set_parts d parts v)) parts = v.
Proof.
  revert d. induction parts as [|part rest IH]; intros d Hne; [congruence|].
  destruct rest as [|part' rest'].
  - simpl. now rewrite dict_get_set_same.
  - rewrite set_parts_cons by discriminate.
    cbn [get_parts]. rewrite dict_get_set_same. apply IH. discriminate.
Qed.

(** What a write leaves at a proper prefix of its path. *)
Lemma set_parts_prefix (pre post : list string) (d : dict) (v : value) :
  pre <> [] -> post <> [] ->
  get_parts (VDict (set_parts d (pre ++ post) v)) pre
  = VDict (set_parts (mapping_or_empty (get_parts (VDict d) pre)) post v).
Proof.
  revert d. induction pre as [|part pre IH]; intros d Hpre Hpost; [congruence|].
  assert (Hrest : pre ++ post <> []).
  { intros H. apply app_eq_nil in H. destruct H; congruence. }
  change ((part :: pre) ++ post) with (part :: pre ++ post).
  rewrite set_parts_cons by assumption.
  cbn [get_parts]. rewrite dict_get_set_same.
  destruct pre as [|part' pre'].
  - simpl. reflexivity.
  - rewrite IH by (auto; discriminate). f_equal. f_equal. f_equal.
    destruct (dict_get d (SStr part)) as [[a|l|c]|]; reflexivity.
Qed.

(** ** Path addressing *)

(** C9.  For every record and every dotted path string the getter
    returns a value and never raises.  When a segment is missing, or the
    node to index is not a mapping, it returns the "no value" sentinel
    [None]; the sentinel differs from the empty string, [0], the empty
    sequence and the empty mapping (and from [0.0] and [False]), and a
    field holding one of these is read back as that value, not as the
    sentinel. *)
Theorem get_nested_value_total_with_sentinel :
  (forall (data : value) (path : string),
      exists v, get_nested_value data (VStr path) = Ok v)
  /\ (forall (data : value) (path : string) pre part post,
         split_on "." path = pre ++ part :: post ->
         (forall d, get_parts data pre = VDict d ->
                    dict_get d (SStr part) = None) ->
         get_nested_value data (VStr path) = Ok VNone)
  /\ (VNone <> VStr "" /\ VNone <> VInt 0
      /\ VNone <> VList [] /\ VNone <> VDict [])
  /\ (forall (d : dict) (part : string) (v : value),
         In v [VStr ""; VInt 0; VFloat (S754_zero false); VBool false;
               VList []; VDict []] ->
         get_parts (VDict (dict_set d (SStr part) v)) [part] = v
         /\ v <> VNone).
Proof.
  split; [|split; [|split]].
  - intros data path. eexists. reflexivity.
  - intros data path pre part post Hsplit Hmiss.
    unfold get_nested_value. simpl. rewrite Hsplit, get_parts_app.
    f_equal. simpl.
    destruct (get_parts data pre) as [a|l|d] eqn:Hnode; auto.
    rewrite (Hmiss d eq_refl). reflexivity.
  - repeat split; discriminate.
  - intros d part v Hin. split.
    + simpl. now rewrite dict_get_set_same.
    + simpl in Hin.
      destruct Hin as [<-|[<-|[<-|[<-|[<-|[<-|[]]]]]]]; discriminate.
Qed.

(** In [{"a": 1}] the path [a.b] indexes a number and [c] is missing:
    both read as the sentinel. *)
Lemma get_nested_value_total_with_sentinel_witness :
  get_nested_value (VDict [(SStr "a", VInt 1)]) (VStr "a.b") = Ok VNone
  /\ get_nested_value (VDict [(SStr "a", VInt 1)]) (VStr "c") = Ok VNone
  /\ get_parts (VDict (dict_set [] (SStr "n") (VInt 0))) ["n"] = VInt 0.
Proof.
  destruct get_nested_value_total_with_sentinel as (_ & Hmiss & _ & Hheld).
  split; [|split].
  - apply (Hmiss _ "a.b" ["a"] "b" []); [reflexivity|].
    intros d H. discriminate H.
  - apply (Hmiss _ "c" [] "c" []); [reflexivity|].
    intros d H. injection H as <-. reflexivity.
  - apply (Hheld [] "n" (VInt 0)). simpl. auto.
Defined.

(** ** The condition evaluator *)

Lemma has_parts_false_get_parts (data : value) (parts : list string) :
  has_parts data parts = false -> get_parts data parts = VNone.
Proof.
  revert data. induction parts as [|part rest IH]; intros data; simpl.
  - discriminate.
  - destruct data as [a|l|d]; auto.
    destruct (dict_get d (SStr part)); auto.
Qed.

Lemma get_parts_has_parts (data : value) (parts : list string) :
  get_parts data parts <> VNone -> has_parts data parts = true.
Proof.
  intros H. destruct (has_parts data parts) eqn:E; auto.
  now apply has_parts_false_get_parts in E.
Qed.

Lemma py_truthy_str (p : string) : p <> "" -> py_truthy (VStr p) = true.
Proof.
  intros H. simpl. destruct (String.eqb_spec p ""); [contradiction|reflexivity].
Qed.

Lemma is_None_spec (v : value) : is_None v = true <-> v = VNone.
Proof.
  destruct v as [[| | | |]| |]; simpl; split; congruence.
Qed.

Lemma is_None_false (v : value) : v <> VNone -> is_None v = false.
Proof.
  intros H. destruct (is_None v) eqn:E; auto. now apply is_None_spec in E.
Qed.

Section ConditionProperties.
Context {L : Libraries}.

(** [evaluate_condition] once the condition is processed and its path
    is a non-empty string. *)
Lemma evaluate_condition_at (item_config condition : value)
      (context pc : dict) (p : string) :
  process_placeholders condition context = Ok (VDict pc) ->
  dict_get pc (SStr "path") = Some (VStr p) ->
  p <> "" ->
  evaluate_condition item_config condition context
  = let value_at_path := get_parts item_config (split_on "." p) in
    if exists_fails pc value_at_path then Ok false
    else if is_None value_at_path && needs_value pc then Ok false
    else if value_fails pc value_at_path then Ok false
    else res_bind (regex_fails pc value_at_path) (fun no_match =>
         if no_match then Ok false
         else res_bind (range_fails pc value_at_path) (fun out_of_range =>
              if out_of_range then Ok false else Ok true)).
Proof.
  intros Hpc Hpath Hp. unfold evaluate_condition.
  rewrite Hpc. cbn [res_bind as_dict]. unfold dict_get_default.
  rewrite Hpath, (py_truthy_str p Hp). reflexivity.
Qed.

(** C5.  When the path of a condition resolves to no value and the
    condition has a [value], [regex_match], [min] or [max] clause, the
    condition evaluates to false, with or without an [exists] clause. *)
Theorem absent_value_fails (item_config condition : value)
        (context pc : dict) (p : string) :
  process_placeholders condition context = Ok (VDict pc) ->
  dict_get pc (SStr "path") = Some (VStr p) ->
  get_nested_value item_config (VStr p) = Ok VNone ->
  needs_value pc = true ->
  evaluate_condition item_config condition context = Ok false.
Proof.
  intros Hpc Hpath Hget Hneeds.
  destruct (String.eqb_spec p "") as [->|Hp].
  - unfold evaluate_condition. rewrite Hpc. cbn [res_bind as_dict].
    unfold dict_get_default. rewrite Hpath. reflexivity.
  - rewrite (evaluate_condition_at item_config _ _ _ _ Hpc Hpath Hp). cbv zeta.
    unfold get_nested_value in Hget. simpl in Hget.
    injection Hget as ->. rewrite Hneeds.
    destruct (exists_fails pc VNone); reflexivity.
Qed.

(** C6.  For a condition with a [regex_match] clause and a path: a
    field value that is not a string fails it; it passes only when
    the value is a string and [re.match], which anchors the pattern at
    the start of the string and not at its end, finds a match; and
    when [regex_match] is its only clause it passes exactly then. *)
Theorem regex_match_condition (item_config condition : value)
        (context pc : dict) (p : string) (pattern : value) :
  process_placeholders condition context = Ok (VDict pc) ->
  dict_get pc (SStr "path") = Some (VStr p) ->
  p <> "" ->
  dict_get pc (SStr "regex_match") = Some pattern ->
  let value_at_path := get_parts item_config (split_on "." p) in
  let outcome := evaluate_condition item_config condition context in
  (is_str value_at_path = false -> outcome = Ok false)
  /\ (outcome = Ok true ->
      exists pat s, pattern = VStr pat /\ value_at_path = VStr s
                    /\ re_match pat s = Some true)
  /\ (dict_get pc (SStr "exists") = None ->
      dict_get pc (SStr "value") = None ->
      dict_get pc (SStr "min") = None ->
      dict_get pc (SStr "max") = None ->
      forall pat, pattern = VStr pat ->
        (outcome = Ok true <->
         exists s, value_at_path = VStr s /\ re_match pat s = Some true)).
Proof.
  intros Hpc Hpath Hp Hre value_at_path outcome.
  assert (Hout : outcome = _)
    by apply (evaluate_condition_at item_config _ _ _ _ Hpc Hpath Hp).
  cbv zeta in Hout. fold value_at_path in Hout.
  assert (Hneeds : needs_value pc = true).
  { unfold needs_value, dict_mem, assoc_mem. unfold dict_get in Hre.
    rewrite Hre. now rewrite orb_true_r. }
  rewrite Hneeds, andb_true_r in Hout.
  unfold regex_fails in Hout. rewrite Hre in Hout.
  split; [|split].
  - intros Hstr. rewrite Hout.
    destruct (exists_fails pc value_at_path); auto.
    destruct (is_None value_at_path); auto.
    destruct (value_fails pc value_at_path); auto.
    destruct value_at_path as [[| | | |s]| |]; try reflexivity.
    discriminate Hstr.
  - intros Htrue. rewrite Htrue in Hout.
    destruct (exists_fails pc value_at_path); [discriminate|].
    destruct (is_None value_at_path); [discriminate|].
    destruct (value_fails pc value_at_path); [discriminate|].
    destruct value_at_path as [[| | | |s]| |]; try discriminate Hout.
    destruct pattern as [[| | | |pat]| |]; try discriminate Hout.
    exists pat, s. repeat split. simpl in Hout.
    destruct (re_match pat s) as [[|]|]; [reflexivity|discriminate..].
  - intros Hex Hval Hmin Hmax pat ->.
    unfold exists_fails, value_fails, range_fails in Hout.
    rewrite Hex, Hval, Hmin, Hmax in Hout. rewrite Hout.
    destruct value_at_path as [[| | | |s]| |]; simpl;
      try (split; [discriminate|intros (s' & Hs & _); discriminate Hs]).
    destruct (re_match pat s) as [[|]|] eqn:Hm; simpl; split;
      try discriminate; try (intros (s' & Hs & Hm'); congruence).
    intros _. exists s. auto.
Qed.
End ConditionProperties.

(** [{path: damage, min: 3}] on a record without [damage]. *)
Lemma absent_value_fails_witness :
  @evaluate_condition example_libraries
    (VDict [(SStr "name", VStr "x")])
    (VDict [(SStr "path", VStr "damage"); (SStr "min", VInt 3)])
    [(SStr "content_id", VStr "sword"); (SStr "content_type", VStr "item")]
  = Ok false.
Proof.
  apply (@absent_value_fails example_libraries _ _ _
           [(SStr "path", VStr "damage"); (SStr "min", VInt 3)] "damage");
    reflexivity.
Defined.

(** [{path: id, regex_match: sword}]: [sword_iron] passes although the
    pattern stops before the end of the string; the number [5] fails. *)
Lemma regex_match_condition_witness :
  @evaluate_condition example_libraries
    (VDict [(SStr "id", VStr "sword_iron")])
    (VDict [(SStr "path", VStr "id"); (SStr "regex_match", VStr "sword")])
    [] = Ok true
  /\ @evaluate_condition example_libraries
       (VDict [(SStr "id", VInt 5)])
       (VDict [(SStr "path", VStr "id"); (SStr "regex_match", VStr "sword")])
       [] = Ok false.
Proof.
  pose (pc := [(SStr "path", VStr "id"); (SStr "regex_match", VStr "sword")]).
  split.
  - destruct (@regex_match_condition example_libraries
                (VDict [(SStr "id", VStr "sword_iron")]) (VDict pc) [] pc
                "id" (VStr "sword") eq_refl eq_refl) as (_ & _ & Hiff);
      [discriminate|reflexivity|].
    apply (Hiff eq_refl eq_refl eq_refl eq_refl "sword" eq_refl).
    exists "sword_iron". split; reflexivity.
  - destruct (@regex_match_condition example_libraries
                (VDict [(SStr "id", VInt 5)]) (VDict pc) [] pc
                "id" (VStr "sword") eq_refl eq_refl) as (Hfail & _);
      [discriminate|reflexivity|].
    apply Hfail. reflexivity.
Defined.

Section ExistsClause.
Context {L : Libraries}.

(** C4, as the code has it.  A condition whose only clause is
    [exists: false], on a non-empty path, passes when the field is
    absent and also when it is present with the value null, which the
    getter reports as "no value"; it fails whenever the field is
    present with a value other than null. *)
Theorem exists_false_condition (item_config condition : value)
        (context pc : dict) (p : string) :
  process_placeholders condition context = Ok (VDict pc) ->
  dict_get pc (SStr "path") = Some (VStr p) ->
  p <> "" ->
  dict_get pc (SStr "exists") = Some (VBool false) ->
  needs_value pc = false ->
  let parts := split_on "." p in
  let outcome := evaluate_condition item_config condition context in
  (has_parts item_config parts = false -> outcome = Ok true)
  /\ (get_parts item_config parts = VNone -> outcome = Ok true)
  /\ (get_parts item_config parts <> VNone ->
      has_parts item_config parts = true /\ outcome = Ok false).
Proof.
  intros Hpc Hpath Hp Hex Hneeds parts outcome.
  assert (Hout : outcome = _)
    by apply (evaluate_condition_at item_config _ _ _ _ Hpc Hpath Hp).
  cbv zeta in Hout. fold parts in Hout.
  rewrite Hneeds, andb_false_r in Hout.
  unfold exists_fails in Hout. rewrite Hex in Hout. simpl in Hout.
  assert (Hnone : get_parts item_config parts = VNone -> outcome = Ok true).
  { intros Hv. rewrite Hout, Hv. simpl.
    unfold needs_value, dict_mem, assoc_mem in Hneeds.
    unfold value_fails, regex_fails, range_fails, dict_get.
    destruct (assoc_get scalar_eqb pc (SStr "value")); [discriminate|].
    destruct (assoc_get scalar_eqb pc (SStr "regex_match")); [discriminate|].
    destruct (assoc_get scalar_eqb pc (SStr "min")); [discriminate|].
    destruct (assoc_get scalar_eqb pc (SStr "max")); [discriminate|].
    reflexivity. }
  split; [|split].
  - intros Habs. apply Hnone. now apply has_parts_false_get_parts.
  - exact Hnone.
  - intros Hv. split; [now apply get_parts_has_parts|].
    rewrite Hout, (is_None_false _ Hv). reflexivity.
Qed.
End ExistsClause.

(** [{path: a, exists: false}] on [{}], on [{"a": null}] and on
    [{"a": 0}]. *)
Lemma exists_false_condition_witness :
  let condition :=
    VDict [(SStr "path", VStr "a"); (SStr "exists", VBool false)] in
  @evaluate_condition example_libraries (VDict []) condition [] = Ok true
  /\ @evaluate_condition example_libraries
       (VDict [(SStr "a", VNone)]) condition [] = Ok true
  /\ @evaluate_condition example_libraries
       (VDict [(SStr "a", VInt 0)]) condition [] = Ok false.
Proof.
  pose (pc := [(SStr "path", VStr "a"); (SStr "exists", VBool false)]).
  assert (Hp : "a" <> "") by discriminate.
  cbv zeta. split; [|split].
  - apply (@exists_false_condition example_libraries (VDict []) (VDict pc)
             [] pc "a" eq_refl eq_refl Hp eq_refl eq_refl).
    reflexivity.
  - apply (@exists_false_condition example_libraries
             (VDict [(SStr "a", VNone)]) (VDict pc)
             [] pc "a" eq_refl eq_refl Hp eq_refl eq_refl).
    reflexivity.
  - apply (@exists_false_condition example_libraries
             (VDict [(SStr "a", VInt 0)]) (VDict pc)
             [] pc "a" eq_refl eq_refl Hp eq_refl eq_refl).
    discriminate.
Defined.

(** C4 as stated fails: in [{"a": null}] the field [a] is present, yet
    [{path: a, exists: false}] passes. *)
Lemma exists_false_passes_on_present_null :
  ~ (forall (L : Libraries) (item_config : value) (p : string)
            (context : dict),
        has_parts item_config (split_on "." p) = true ->
        evaluate_condition item_config
          (VDict [(SStr "path", VStr p); (SStr "exists", VBool false)])
          context = Ok false).
Proof.
  intros H.
  specialize (H example_libraries (VDict [(SStr "a", VNone)]) "a" []
                eq_refl).
  discriminate H.
Qed.

(** ** The action applicator *)

Lemma get_in_config_str (st : state) (p : string) :
  get_in_config (VStr p) st
  = (st, Ok (get_parts (content_config st) (split_on "." p))).
Proof. reflexivity. Qed.

Lemma set_in_config_dict (st : state) (d : dict) (p : string) (v : value) :
  content_config st = VDict d ->
  set_in_config (VStr p) v st
  = (mkState (VDict (set_parts d (split_on "." p) v))
             (sequence_counters st) (log st), Ok tt).
Proof.
  intros Hd. unfold set_in_config, bind, get_config, lift, put_config.
  rewrite Hd. reflexivity.
Qed.

Lemma delete_in_config_str (st : state) (p : string) :
  delete_in_config (VStr p) st
  = (mkState (delete_parts (content_config st) (split_on "." p))
             (sequence_counters st) (log st), Ok tt).
Proof. reflexivity. Qed.

(** What one turn of [append] or [prepend] does to a record. *)
Lemma extend_body_run (kind : action_kind)
      (extend : list value -> list value -> list value)
      (st : state) (d : dict) (p : string) (elements_to_add : value) :
  content_config st = VDict d ->
  let parts := split_on "." p in
  extend_body kind extend (SStr p, elements_to_add) st
  = match get_parts (VDict d) parts with
    | VNone =>
        (mkState (VDict (set_parts (set_parts d parts (VList [])) parts
                           (VList (extend [] (as_elements elements_to_add)))))
                 (sequence_counters st) (log st), Ok tt)
    | VList l =>
        (mkState (VDict (set_parts d parts
                           (VList (extend l (as_elements elements_to_add)))))
                 (sequence_counters st) (log st), Ok tt)
    | _ =>
        (mkState (VDict d) (sequence_counters st)
                 (log st ++ [NotAList kind (SStr p)]), Ok tt)
    end.
Proof.
  intros Hd parts. unfold extend_body. unfold bind at 1.
  rewrite get_in_config_str, Hd. fold parts.
  destruct (get_parts (VDict d) parts) as [[| | | |]| |];
    try (unfold emit; now rewrite Hd).
  - unfold bind. rewrite (set_in_config_dict st d p _ Hd).
    now rewrite (set_in_config_dict _ (set_parts d parts (VList [])) p).
  - cbv beta iota. now rewrite (set_in_config_dict st d p _ Hd).
Qed.

Lemma set_parts_twice (parts : list string) (d : dict) (v w : value) :
  parts <> [] ->
  get_parts (VDict (set_parts (set_parts d parts v) parts w)) parts = w.
Proof. intros H. now apply get_set_parts. Qed.

Section SetProperties.
Context {L : Libraries}.

(** C7.  For every record [d], dotted path and value [v], the setter
    succeeds and a following get at the same path returns [v].  On the
    way every proper prefix of the path ends up holding a mapping: the
    one that was there, or a fresh empty one where the node was missing
    or was not a mapping, written on with the rest of the path.  So the
    [set] action leaves at the path what it was given: the literal, the
    result of the expression, or the default of an expression that does
    not evaluate; an expression that neither evaluates nor has a
    default leaves the record as it was. *)
Theorem set_then_get (d : dict) (path : string) :
  (forall v : value,
      exists data',
        set_nested_value (VDict d) (VStr path) v = Ok data'
        /\ get_nested_value data' (VStr path) = Ok v
        /\ forall pre post,
             pre <> [] -> post <> [] -> split_on "." path = pre ++ post ->
             get_parts data' pre
             = VDict (set_parts (mapping_or_empty (get_parts (VDict d) pre))
                                post v))
  /\ forall (st : state) (context : dict) (value_config : value),
       content_config st = VDict d ->
       let given :=
         match value_config with
         | VDict c =>
             match dict_get c (SStr "expression") with
             | Some expression =>
                 match aeval_set context (VDict d) expression with
                 | Some result => Some result
                 | None => dict_get c (SStr "default_value")
                 end
             | None => Some value_config
             end
         | _ => Some value_config
         end in
       let run := set_body context (SStr path, value_config) st in
       snd run = Ok tt
       /\ match given with
          | Some v =>
              get_nested_value (content_config (fst run)) (VStr path) = Ok v
          | None => content_config (fst run) = VDict d
          end.
Proof.
  split.
  - intros v. exists (VDict (set_parts d (split_on "." path) v)).
    split; [reflexivity|split].
    + unfold get_nested_value. simpl. f_equal.
      apply get_set_parts, split_on_not_nil.
    + intros pre post Hpre Hpost ->. now apply set_parts_prefix.
  - intros st context value_config Hd.
    assert (Hset : forall st0 w,
               content_config st0 = VDict d ->
               snd (set_in_config (VStr path) w st0) = Ok tt
               /\ get_nested_value
                    (content_config (fst (set_in_config (VStr path) w st0)))
                    (VStr path) = Ok w).
    { intros st0 w H0. rewrite (set_in_config_dict st0 d path w H0).
      split; [reflexivity|]. unfold get_nested_value. simpl. f_equal.
      apply get_set_parts, split_on_not_nil. }
    unfold set_body.
    destruct value_config as [a|l|c]; try (apply Hset; assumption).
    destruct (dict_get c (SStr "expression")) as [expression|];
      [|apply Hset; assumption].
    unfold bind. cbn [get_config emit]. rewrite Hd.
    destruct (aeval_set context (VDict d) expression) as [result|];
      [apply Hset; assumption|].
    destruct (dict_get c (SStr "default_value")) as [default|].
    + apply Hset. exact Hd.
    + cbn [ret fst snd content_config]. auto.
Qed.
End SetProperties.

(** Writing [7] at [a.b.c] into [{"a": 5, "k": 1}]: the number at [a]
    gives way to a fresh mapping and the value is read back; the [set]
    action does the same with a literal. *)
Lemma set_then_get_witness :
  let d := [(SStr "a", VInt 5); (SStr "k", VInt 1)] in
  (exists data',
      set_nested_value (VDict d) (VStr "a.b.c") (VInt 7) = Ok data'
      /\ get_nested_value data' (VStr "a.b.c") = Ok (VInt 7)
      /\ get_parts data' ["a"]
         = VDict [(SStr "b", VDict [(SStr "c", VInt 7)])])
  /\ get_nested_value
       (content_config
          (fst (@set_body example_libraries [] (SStr "a.b.c", VInt 7)
                          (mkState (VDict d) [] []))))
       (VStr "a.b.c") = Ok (VInt 7).
Proof.
  cbv zeta.
  pose (d := [(SStr "a", VInt 5); (SStr "k", VInt 1)]).
  destruct (@set_then_get example_libraries d "a.b.c") as (Hset & Haction).
  split.
  - destruct (Hset (VInt 7)) as (data' & Hok & Hget & Hpre).
    exists data'. split; [exact Hok|split; [exact Hget|]].
    rewrite (Hpre ["a"] ["b"; "c"]); [reflexivity|discriminate|discriminate|].
    reflexivity.
  - apply (Haction (mkState (VDict d) [] []) [] (VInt 7) eq_refl).
Defined.

Section AppendProperties.
Context {L : Libraries}.

(** C8, amended.  An [append] of [elements_to_add] at path [p] of a
    record: when the getter finds no value at [p] (the field is
    missing, or holds null), the record then holds at [p] the sequence
    of exactly the added values, in order; when [p] holds a sequence,
    the added values follow its elements, in order; when [p] holds a
    value that is neither a sequence nor null, the record and the
    counters are untouched, a warning is logged and the action goes
    on.  In particular appending ["rare"] to the absent [tags] gives
    [{"tags": ["rare"]}] and appending [["epic", "new"]] next gives
    [{"tags": ["rare", "epic", "new"]}]. *)
Theorem append_action (st : state) (d : dict) (p : string)
        (elements_to_add : value) :
  content_config st = VDict d ->
  let parts := split_on "." p in
  let added := as_elements elements_to_add in
  let result := extend_body KAppend (fun l new => l ++ new)
                            (SStr p, elements_to_add) st in
  (get_parts (VDict d) parts = VNone ->
   snd result = Ok tt
   /\ get_parts (content_config (fst result)) parts = VList added)
  /\ (forall l, get_parts (VDict d) parts = VList l ->
      snd result = Ok tt
      /\ get_parts (content_config (fst result)) parts = VList (l ++ added))
  /\ (is_None (get_parts (VDict d) parts) = false ->
      is_list (get_parts (VDict d) parts) = false ->
      result = (mkState (content_config st) (sequence_counters st)
                        (log st ++ [NotAList KAppend (SStr p)]), Ok tt)
      /\ event_level (NotAList KAppend (SStr p)) = WARNING)
  /\ (let context := [(SStr "content_id", VStr "sword");
                      (SStr "content_type", VStr "item")] in
      let once :=
        fst (apply_actions
               (VDict [(SStr "append", VDict [(SStr "tags", VStr "rare")])])
               context (VStr "r") None (mkState (VDict []) [] [])) in
      let twice :=
        fst (apply_actions
               (VDict [(SStr "append",
                        VDict [(SStr "tags",
                                VList [VStr "epic"; VStr "new"])])])
               context (VStr "r") None once) in
      content_config once = VDict [(SStr "tags", VList [VStr "rare"])]
      /\ content_config twice
         = VDict [(SStr "tags",
                   VList [VStr "rare"; VStr "epic"; VStr "new"])]).
Proof.
  intros Hd parts added result.
  assert (Hparts : parts <> []) by apply split_on_not_nil.
  assert (Hres : result
                 = match get_parts (VDict d) parts with
                   | VNone =>
                       (mkState (VDict (set_parts (set_parts d parts (VList []))
                                                  parts (VList ([] ++ added))))
                                (sequence_counters st) (log st), Ok tt)
                   | VList l =>
                       (mkState (VDict (set_parts d parts (VList (l ++ added))))
                                (sequence_counters st) (log st), Ok tt)
                   | _ =>
                       (mkState (content_config st) (sequence_counters st)
                                (log st ++ [NotAList KAppend (SStr p)]), Ok tt)
                   end).
  { unfold result, extend_body. unfold bind at 1.
    rewrite get_in_config_str, Hd. fold parts.
    destruct (get_parts (VDict d) parts) as [[| | | |]| |];
      try (unfold emit; now rewrite Hd).
    - unfold bind. rewrite (set_in_config_dict st d p _ Hd).
      now rewrite (set_in_config_dict _ (set_parts d parts (VList [])) p).
    - cbv beta iota. now rewrite (set_in_config_dict st d p _ Hd). }
  split; [|split; [|split]].
  - intros Hv. rewrite Hres, Hv. simpl. split; [reflexivity|].
    now apply set_parts_twice.
  - intros l Hv. rewrite Hres, Hv. simpl. split; [reflexivity|].
    now apply get_set_parts.
  - intros Hnone Hlist. rewrite Hres. split; [|reflexivity].
    destruct (get_parts (VDict d) parts) as [[| | | |]| |];
      try reflexivity; discriminate.
  - cbv zeta. split; vm_compute; reflexivity.
Qed.
End AppendProperties.

(** Appending to [{"tags": ["rare"], "id": "x"}]: at the absent [lore],
    at the sequence [tags], at the string [id]. *)
Lemma append_action_witness :
  let d := [(SStr "tags", VList [VStr "rare"]); (SStr "id", VStr "x")] in
  let st := mkState (VDict d) [] [] in
  let run p e := extend_body KAppend (fun l new => l ++ new) (SStr p, e) st in
  get_parts (content_config (fst (run "lore" (VStr "old")))) ["lore"]
  = VList [VStr "old"]
  /\ get_parts
       (content_config (fst (run "tags" (VList [VStr "epic"; VStr "new"]))))
       ["tags"]
     = VList [VStr "rare"; VStr "epic"; VStr "new"]
  /\ run "id" (VStr "y")
     = (mkState (VDict d) [] [NotAList KAppend (SStr "id")], Ok tt).
Proof.
  cbv zeta.
  pose (d := [(SStr "tags", VList [VStr "rare"]); (SStr "id", VStr "x")]).
  pose (st := mkState (VDict d) [] []).
  split; [|split].
  - apply (@append_action example_libraries st d "lore" (VStr "old") eq_refl).
    reflexivity.
  - apply (proj1 (proj2 (@append_action example_libraries st d "tags"
                           (VList [VStr "epic"; VStr "new"]) eq_refl))
                 [VStr "rare"]).
    reflexivity.
  - apply (@append_action example_libraries st d "id" (VStr "y") eq_refl);
      reflexivity.
Defined.

(** C8 as stated fails: in [{"tags": null}] the field [tags] is present
    and holds a non-sequence, yet the append is not skipped: the record
    then holds [["rare"]] there and no warning is logged. *)
Lemma append_overwrites_present_null :
  ~ (forall (st : state) (d : dict) (p : string) (elements_to_add : value),
        content_config st = VDict d ->
        has_parts (VDict d) (split_on "." p) = true ->
        is_list (get_parts (VDict d) (split_on "." p)) = false ->
        let result := extend_body KAppend (fun l new => l ++ new)
                                  (SStr p, elements_to_add) st in
        get_parts (content_config (fst result)) (split_on "." p)
        = get_parts (VDict d) (split_on "." p)).
Proof.
  intros H.
  specialize (H (mkState (VDict [(SStr "tags", VNone)]) [] [])
                [(SStr "tags", VNone)] "tags" (VStr "rare")
                eq_refl eq_refl eq_refl).
  discriminate H.
Qed.

(** ** Strings without a placeholder *)

Lemma no_brace_app (a b : string) :
  no_brace (a ++ b) = no_brace a && no_brace b.
Proof.
  induction a as [|c a IH]; [reflexivity|].
  cbn [append no_brace]. now rewrite IH, andb_assoc.
Qed.

Lemma string_append_assoc (a b c : string) :
  ((a ++ b) ++ c = a ++ b ++ c)%string.
Proof.
  induction a as [|x a IH]; [reflexivity|]. cbn [append]. now rewrite IH.
Qed.

Lemma prefix_brace (k s : string) :
  no_brace s = true -> String.prefix (String "{" k) s = false.
Proof.
  destruct s as [|c s]; [reflexivity|]. cbn [no_brace String.prefix].
  intros H. apply andb_true_iff in H. destruct H as [Hc _].
  apply negb_true_iff in Hc. apply Ascii.eqb_neq in Hc.
  destruct (ascii_dec "{" c) as [E|E]; [|reflexivity]. now subst.
Qed.

Lemma prefix_app (a b : string) : String.prefix a (a ++ b) = true.
Proof.
  induction a as [|c a IH]; [now destruct b|].
  cbn [append String.prefix]. now destruct (ascii_dec c c).
Qed.

Lemma replace_from_no_brace (k new s : string) :
  no_brace s = true -> replace_from (String "{" k) new s 0 = s.
Proof.
  induction s as [|c s IH]; [reflexivity|]. intros H.
  cbn [replace_from]. rewrite (prefix_brace k _ H).
  cbn [no_brace] in H. apply andb_true_iff in H. now rewrite IH.
Qed.

Lemma replace_from_before (old_rest new pre s : string) :
  no_brace pre = true ->
  replace_from (String "{" old_rest) new (pre ++ s) 0
  = (pre ++ replace_from (String "{" old_rest) new s 0)%string.
Proof.
  induction pre as [|c pre IH]; [reflexivity|]. intros H.
  cbn [no_brace] in H. apply andb_true_iff in H. destruct H as [Hc Hpre].
  cbn [append replace_from].
  replace (String.prefix (String "{" old_rest) (String c (pre ++ s)))
    with false; [now rewrite IH|].
  cbn [String.prefix]. apply negb_true_iff, Ascii.eqb_neq in Hc.
  destruct (ascii_dec "{" c) as [E|E]; [now subst|reflexivity].
Qed.

Lemma replace_from_skip (old new a b : string) :
  replace_from old new (a ++ b) (String.length a) = replace_from old new b 0.
Proof.
  induction a as [|c a IH]; [reflexivity|].
  cbn [append String.length replace_from]. exact IH.
Qed.

(** One occurrence between two stretches without a brace is spliced. *)
Lemma str_replace_token (k new pre post : string) :
  no_brace pre = true -> no_brace post = true ->
  str_replace (pre ++ String "{" k ++ post) (String "{" k) new
  = (pre ++ new ++ post)%string.
Proof.
  intros Hpre Hpost. unfold str_replace.
  rewrite replace_from_before by exact Hpre. f_equal.
  cbn [append replace_from].
  change (String "{" (k ++ post)) with (String "{" k ++ post)%string.
  rewrite prefix_app. f_equal.
  cbn [String.length Nat.sub]. rewrite ?Nat.sub_0_r, replace_from_skip.
  now apply replace_from_no_brace.
Qed.

Section PlainStrings.
Context {L : Libraries}.

Lemma substitute_no_brace (context : dict) (s : string) :
  no_brace s = true -> substitute s context = s.
Proof.
  unfold substitute. induction context as [|[k v] rest IH]; intros H.
  - reflexivity.
  - cbn [fold_left fst snd].
    change ("{" ++ str_scalar k ++ "}")%string
      with (String "{" (str_scalar k ++ "}")).
    unfold str_replace. rewrite replace_from_no_brace by exact H. now apply IH.
Qed.

Lemma process_str_no_brace (s : string) (context : dict) :
  no_brace s = true -> process_str s context = Ok (VStr s).
Proof.
  intros H. unfold process_str. rewrite substitute_no_brace by exact H.
  now rewrite String.eqb_refl.
Qed.

Lemma process_key_no_brace (k : scalar) (context : dict) :
  no_brace_key k = true -> process_key k context = Ok (Atom k).
Proof.
  destruct k; try reflexivity. apply process_str_no_brace.
Qed.
End PlainStrings.

(** ** Relations that every step of a run keeps *)

Section Preserving.
Variable R : state -> state -> Prop.
Hypothesis R_refl : forall st, R st st.
Hypothesis R_trans : forall a b c, R a b -> R b c -> R a c.
Hypothesis R_config :
  forall st c, R st (mkState c (sequence_counters st) (log st)).
Hypothesis R_log :
  forall st l, R st (mkState (content_config st) (sequence_counters st) l).

Lemma preserves_ret {A : Type} (a : A) : preserves R (ret a).
Proof. intros st. apply R_refl. Qed.

Lemma preserves_lift {A : Type} (r : res A) : preserves R (lift r).
Proof. intros st. apply R_refl. Qed.

Lemma preserves_bind {A B : Type} (m : M A) (k : A -> M B) :
  preserves R m -> (forall a, preserves R (k a)) -> preserves R (bind m k).
Proof.
  intros Hm Hk st. unfold bind. specialize (Hm st).
  destruct (m st) as [st' [a|e]]; simpl in *; [|assumption].
  eapply R_trans; [exact Hm|apply Hk].
Qed.

Lemma preserves_for_each {A : Type} (l : list A) (body : A -> M unit) :
  (forall x, preserves R (body x)) -> preserves R (for_each l body).
Proof.
  intros Hbody. induction l as [|x rest IH]; simpl.
  - apply preserves_ret.
  - apply preserves_bind; auto.
Qed.

(** What follows a [lift] runs only on a value that was returned. *)
Lemma preserves_bind_lift {A B : Type} (r : res A) (k : A -> M B) :
  (forall a, r = Ok a -> preserves R (k a)) -> preserves R (bind (lift r) k).
Proof.
  intros Hk st. unfold bind, lift. destruct r as [a|e]; simpl.
  - now apply Hk.
  - apply R_refl.
Qed.

Lemma preserves_for_each_in {A : Type} (l : list A) (body : A -> M unit) :
  (forall x, In x l -> preserves R (body x)) -> preserves R (for_each l body).
Proof.
  induction l as [|x rest IH]; intros Hbody; simpl.
  - apply preserves_ret.
  - apply preserves_bind; [apply Hbody; now left|intros _].
    apply IH. intros y Hy. apply Hbody. now right.
Qed.

Lemma preserves_emit (e : event) : preserves R (emit e).
Proof. intros st. apply R_log. Qed.

Lemma preserves_get_config : preserves R get_config.
Proof. intros st. apply R_refl. Qed.

Lemma preserves_put_config (c : value) : preserves R (put_config c).
Proof. intros st. apply R_config. Qed.

Lemma preserves_get_counters : preserves R get_counters.
Proof. intros st. apply R_refl. Qed.

Lemma preserves_set_in_config (path v : value) :
  preserves R (set_in_config path v).
Proof.
  unfold set_in_config.
  apply preserves_bind; [apply preserves_get_config|intros cfg].
  apply preserves_bind; [apply preserves_lift|intros cfg'].
  apply preserves_put_config.
Qed.

Lemma preserves_delete_in_config (path : value) :
  preserves R (delete_in_config path).
Proof.
  unfold delete_in_config.
  apply preserves_bind; [apply preserves_get_config|intros cfg].
  apply preserves_bind; [apply preserves_lift|intros cfg'].
  apply preserves_put_config.
Qed.

Lemma preserves_get_in_config (path : value) :
  preserves R (get_in_config path).
Proof.
  unfold get_in_config.
  apply preserves_bind; [apply preserves_get_config|intros cfg].
  apply preserves_lift.
Qed.

Lemma preserves_rename_body (pair : scalar * value) :
  preserves R (rename_body pair).
Proof.
  unfold rename_body. destruct pair as [old_path new_path].
  apply preserves_bind; [apply preserves_get_in_config|intros v].
  destruct (is_None v); [apply preserves_ret|].
  apply preserves_bind; [apply preserves_set_in_config|intros _].
  apply preserves_delete_in_config.
Qed.

Lemma preserves_extend_body (kind : action_kind)
      (extend : list value -> list value -> list value)
      (pair : scalar * value) :
  preserves R (extend_body kind extend pair).
Proof.
  unfold extend_body. destruct pair as [path elements_to_add].
  apply preserves_bind; [apply preserves_get_in_config|intros current_list].
  destruct current_list as [[| | | |]| |];
    try apply preserves_emit;
    repeat (apply preserves_bind; [apply preserves_set_in_config|intros _]);
    apply preserves_set_in_config.
Qed.

(** A phase of the shape the six phases share. *)
Lemma preserves_phase {A : Type} (entry : option value) (context : dict)
      (kind : action_kind) (iterate : value -> res (list A))
      (body : A -> M unit) :
  (forall x, preserves R (body x)) ->
  forall {L : Libraries},
  preserves R
    match entry with
    | None => ret tt
    | Some raw =>
        bind (lift (process_placeholders raw context)) (fun processed =>
        bind (emit (Running kind processed)) (fun _ =>
        bind (lift (iterate processed)) (fun items =>
        for_each items body)))
    end.
Proof.
  intros Hbody L. destruct entry as [raw|]; [|apply preserves_ret].
  apply preserves_bind; [apply preserves_lift|intros processed].
  apply preserves_bind; [apply preserves_emit|intros _].
  apply preserves_bind; [apply preserves_lift|intros items].
  now apply preserves_for_each.
Qed.

Section WithLibraries.
Context {L : Libraries}.

Lemma preserves_set_body (context : dict) (pair : scalar * value) :
  preserves R (set_body context pair).
Proof.
  unfold set_body. destruct pair as [path value_config].
  destruct value_config as [a|l|c]; try apply preserves_set_in_config.
  destruct (dict_get c (SStr "expression"));
    [|apply preserves_set_in_config].
  apply preserves_bind; [apply preserves_get_config|intros cfg].
  destruct (aeval_set context cfg v); [apply preserves_set_in_config|].
  apply preserves_bind; [apply preserves_emit|intros _].
  destruct (dict_get c (SStr "default_value")); [|apply preserves_ret].
  apply preserves_bind; [apply preserves_emit|intros _].
  apply preserves_set_in_config.
Qed.

(** The five phases that come before [sequence], then anything that
    keeps the relation. *)
Lemma preserves_phases_then (acts context : dict) (last : M unit) :
  preserves R last ->
  preserves R
    (bind (delete_phase acts context) (fun _ =>
     bind (rename_phase acts context) (fun _ =>
     bind (set_phase acts context) (fun _ =>
     bind (append_phase acts context) (fun _ =>
     bind (prepend_phase acts context) (fun _ => last)))))).
Proof.
  intros Hlast.
  repeat (apply preserves_bind; [|intros _]); [| | | | |exact Hlast].
  - apply (preserves_phase _ context KDelete py_iter).
    apply preserves_delete_in_config.
  - apply (preserves_phase _ context KRename as_dict).
    apply preserves_rename_body.
  - apply (preserves_phase _ context KSet as_dict).
    apply preserves_set_body.
  - apply (preserves_phase _ context KAppend as_dict).
    intros x. apply preserves_extend_body.
  - apply (preserves_phase _ context KPrepend as_dict).
    intros x. apply preserves_extend_body.
Qed.

Lemma preserves_conditions_hold (conditions : list value) (context : dict) :
  preserves R (conditions_hold conditions context).
Proof.
  induction conditions as [|c rest IH]; [apply preserves_ret|].
  cbn [conditions_hold].
  apply preserves_bind; [apply preserves_get_config|intros cfg].
  apply preserves_bind; [apply preserves_lift|intros met].
  destruct met; [exact IH|apply preserves_ret].
Qed.

Hypothesis R_counter :
  forall st k v,
    R st (mkState (content_config st)
                  (assoc_set counter_key_eqb (sequence_counters st) k v)
                  (log st)).

Lemma preserves_sequence_body (rule_name : value)
      (sequence_overrides : option dict) (pair : scalar * value) :
  preserves R (sequence_body rule_name sequence_overrides pair).
Proof.
  assert (Hput : forall k v, preserves R (put_counter k v)).
  { intros k v st. apply R_counter. }
  unfold sequence_body. destruct pair as [path sequence_info].
  apply preserves_bind; [apply preserves_lift|intros info].
  apply preserves_bind; [apply preserves_lift|intros key].
  destruct key as [counter_key|]; [|apply preserves_emit].
  apply preserves_bind; [apply preserves_get_counters|intros known].
  apply preserves_bind.
  - destruct (assoc_get counter_key_eqb known counter_key);
      [apply preserves_ret|].
    apply preserves_bind; [apply preserves_lift|intros initial_value].
    apply preserves_bind; [apply Hput|intros _]. apply preserves_ret.
  - intros current_value.
    apply preserves_bind; [apply preserves_emit|intros _].
    apply preserves_bind; [apply preserves_set_in_config|intros _].
    apply preserves_bind; [apply preserves_lift|intros next].
    apply Hput.
Qed.

Lemma preserves_apply_actions (actions : value) (context : dict)
      (rule_name : value) (sequence_overrides : option dict) :
  preserves R (apply_actions actions context rule_name sequence_overrides).
Proof.
  unfold apply_actions.
  apply preserves_bind; [apply preserves_lift|intros acts].
  destruct (py_truthy _); [apply preserves_emit|].
  apply preserves_phases_then.
  apply (preserves_phase _ context KSequence as_dict).
  apply preserves_sequence_body.
Qed.
End WithLibraries.
End Preserving.

Lemma assoc_mem_set {K V : Type} (eqb : K -> K -> bool)
      (d : list (K * V)) (k k' : K) (v : V) :
  assoc_mem eqb d k = true -> assoc_mem eqb (assoc_set eqb d k' v) k = true.
Proof.
  unfold assoc_mem. induction d as [|[k0 v0] rest IH]; simpl; [discriminate|].
  destruct (eqb k0 k') eqn:E'; simpl; destruct (eqb k0 k); auto.
Qed.

Lemma same_counters_trans (a b c : state) :
  same_counters a b -> same_counters b c -> same_counters a c.
Proof. unfold same_counters. congruence. Qed.

Lemma counters_persist_trans (a b c : state) :
  counters_persist a b -> counters_persist b c -> counters_persist a c.
Proof. unfold counters_persist. auto. Qed.

(** ** Sequence counters *)

Lemma counter_key_eqb_refl (K : counter_key) :
  string_key K = true -> counter_key_eqb K K = true.
Proof.
  destruct K as [s|[| | | |n] [| | | |q]]; simpl; try discriminate; intros _.
  - apply String.eqb_refl.
  - now rewrite !String.eqb_refl.
Qed.

Lemma counter_key_eqb_l (K k : counter_key) :
  string_key K = true -> counter_key_eqb k K = true -> k = K.
Proof.
  destruct K as [s|[| | | |n] [| | | |q]]; simpl; try discriminate; intros _.
  - destruct k as [t|]; try discriminate.
    intros H. apply String.eqb_eq in H. now subst.
  - destruct k as [|m r]; try discriminate.
    intros H. apply andb_true_iff in H. destruct H as [H1 H2].
    apply scalar_eqb_str_r in H1. apply scalar_eqb_str_r in H2. now subst.
Qed.

Lemma counter_key_eqb_r (K k : counter_key) :
  string_key K = true -> counter_key_eqb K k = true -> k = K.
Proof.
  destruct K as [s|[| | | |n] [| | | |q]]; simpl; try discriminate; intros _.
  - destruct k as [t|]; try discriminate.
    intros H. apply String.eqb_eq in H. now subst.
  - destruct k as [|m r]; try discriminate.
    intros H. apply andb_true_iff in H. destruct H as [H1 H2].
    apply (scalar_eqb_str_l n) in H1. apply (scalar_eqb_str_l q) in H2.
    now subst.
Qed.

(** A write under another key leaves the counter of [K] as it was. *)
Lemma counter_frame (cs : counters) (k K : counter_key) (v : value) :
  string_key K = true -> counter_key_eqb k K = false ->
  assoc_get counter_key_eqb (assoc_set counter_key_eqb cs k v) K
  = assoc_get counter_key_eqb cs K.
Proof.
  intros HK Hne. apply assoc_get_set_other; auto.
  - intros x. now apply counter_key_eqb_l.
  - intros x. now apply counter_key_eqb_r.
Qed.

Lemma counter_same (cs : counters) (K : counter_key) (v : value) :
  string_key K = true ->
  assoc_get counter_key_eqb (assoc_set counter_key_eqb cs K v) K = Some v.
Proof. intros HK. now apply assoc_get_set_same, counter_key_eqb_refl. Qed.

Lemma integer_counters_set (cs : counters) (k : counter_key) (z : Z) :
  integer_counters cs ->
  integer_counters (assoc_set counter_key_eqb cs k (VInt z)).
Proof.
  unfold integer_counters. induction 1 as [|[k' v'] rest Hv Hrest IH]; simpl.
  - constructor; [now exists z|constructor].
  - destruct (counter_key_eqb k' k).
    + constructor; [now exists z|assumption].
    + constructor; assumption.
Qed.

Lemma integer_counters_get (cs : counters) (k : counter_key) (v : value) :
  integer_counters cs -> assoc_get counter_key_eqb cs k = Some v ->
  exists z, v = VInt z.
Proof.
  unfold integer_counters. induction 1 as [|[k' v'] rest Hv Hrest IH]; simpl.
  - discriminate.
  - destruct (counter_key_eqb k' k); auto.
    intros H. injection H as <-. exact Hv.
Qed.

Lemma initial_value_of_override (sequence_overrides : option dict)
      (u : sequence_use) (v : value) :
  initial_value_of sequence_overrides (SStr (use_path u)) (use_id u)
                   (use_start u) = Ok v ->
  v = match override_for sequence_overrides u with
      | Some x => x
      | None => use_start u
      end.
Proof.
  unfold initial_value_of, override_for.
  destruct sequence_overrides as [overrides|]; [|congruence].
  destruct overrides as [|kv rest].
  - simpl. intros H. injection H as <-.
    now destruct (as_key _).
  - cbn [py_truthy].
    destruct (as_key (if py_truthy (use_id u) then use_id u
                      else VStr (use_path u))) as [k|e]; cbn [res_bind].
    + destruct (dict_get (kv :: rest) k); congruence.
    + discriminate.
Qed.

Section SequenceProperties.
Context {L : Libraries}.
Variable sequence_overrides : option dict.

(** One use that counts in integers follows the counter discipline. *)
Lemma counted_use_spec (cs : counters) (u : sequence_use)
      (k : counter_key) (i s : Z) :
  use_key u = Ok (Some k) ->
  use_initial sequence_overrides u = Ok (VInt i) ->
  use_step u = VInt s ->
  integer_counters cs ->
  exists c,
    snd (counted_use sequence_overrides cs u)
    = sequence_output (use_format u) (VInt c)
    /\ match assoc_get counter_key_eqb cs k with
       | Some v => v = VInt c
                   /\ fst (counted_use sequence_overrides cs u)
                      = assoc_set counter_key_eqb cs k (VInt (c + s))
       | None => c = i
                 /\ fst (counted_use sequence_overrides cs u)
                    = assoc_set counter_key_eqb
                        (assoc_set counter_key_eqb cs k (VInt i)) k
                        (VInt (i + s))
       end.
Proof.
  intros Hkey Hinit Hstep Hint. unfold counted_use.
  rewrite Hkey, Hstep.
  destruct (assoc_get counter_key_eqb cs k) as [v|] eqn:Hget.
  - destruct (integer_counters_get cs k v Hint Hget) as [c ->].
    exists c. auto.
  - rewrite Hinit. exists i. auto.
Qed.

(** The code of one entry of the sequence map (lines 186-226), on a
    record and integer counters: it writes at the path, logs the value
    and leaves the counters as the discipline says. *)
Lemma sequence_body_counted (u : sequence_use) (st : state) (d : dict) :
  content_config st = VDict d ->
  integer_counters (sequence_counters st) ->
  integer_use sequence_overrides u ->
  let counted_here :=
    counted_use sequence_overrides (sequence_counters st) u in
  sequence_body (use_rule u) sequence_overrides (use_entry u) st
  = (mkState (VDict (set_parts d (split_on "." (use_path u))
                               (snd counted_here)))
             (fst counted_here)
             (log st ++ [SequenceSet (SStr (use_path u)) (snd counted_here)]),
     Ok tt).
Proof.
  intros Hd Hint ((k & Hkey) & (i & Hinit) & (s & Hstep)) counted_here.
  unfold counted_here, counted_use. rewrite Hkey, Hstep.
  destruct st as [cfg cs lg]. cbn [content_config sequence_counters] in *.
  subst cfg.
  assert (Hhere : match assoc_get counter_key_eqb cs k with
                  | Some _ => True
                  | None => use_initial sequence_overrides u = Ok (VInt i)
                  end) by now destruct (assoc_get counter_key_eqb cs k).
  unfold use_key, use_id in Hkey.
  unfold use_initial, use_id, use_start in Hinit.
  unfold use_step in Hstep.
  unfold sequence_body, use_entry.
  cbv [bind lift as_dict get_counters ret put_counter emit put_config
       set_in_config get_config content_config sequence_counters log].
  rewrite Hkey.
  destruct (assoc_get counter_key_eqb cs k) as [v|] eqn:Hget.
  - destruct (integer_counters_get cs k v Hint Hget) as [c ->].
    rewrite Hstep. cbn [set_nested_value split_path res_bind py_iadd
                        as_number number_add fst snd].
    reflexivity.
  - rewrite Hhere, Hinit.
    rewrite Hstep. cbn [set_nested_value split_path res_bind py_iadd
                        as_number number_add fst snd].
    reflexivity.
Qed.

Lemma counted_use_integer (cs : counters) (u : sequence_use) :
  integer_counters cs ->
  integer_counters (fst (counted_use sequence_overrides cs u)).
Proof.
  intros Hint. unfold counted_use.
  destruct (use_key u) as [[k|]|e]; try exact Hint.
  destruct (use_step u) as [[| |s| |]| |]; try exact Hint.
  destruct (assoc_get counter_key_eqb cs k) as [[[| |c| |]| |]|];
    try exact Hint.
  - now apply integer_counters_set.
  - destruct (use_initial sequence_overrides u) as [[[| |i| |]| |]|e];
      try exact Hint.
    now repeat apply integer_counters_set.
Qed.

Lemma counted_cons (cs : counters) (u : sequence_use)
      (rest : list sequence_use) :
  counted sequence_overrides cs (u :: rest)
  = (fst (counted sequence_overrides
            (fst (counted_use sequence_overrides cs u)) rest),
     snd (counted_use sequence_overrides cs u)
     :: snd (counted sequence_overrides
               (fst (counted_use sequence_overrides cs u)) rest)).
Proof.
  cbn [counted]. destruct (counted_use sequence_overrides cs u) as [cs1 w].
  cbn [fst snd]. now destruct (counted sequence_overrides cs1 rest).
Qed.

Lemma counted_app (uses1 uses2 : list sequence_use) :
  forall cs,
    counted sequence_overrides cs (uses1 ++ uses2)
    = (fst (counted sequence_overrides
              (fst (counted sequence_overrides cs uses1)) uses2),
       snd (counted sequence_overrides cs uses1)
       ++ snd (counted sequence_overrides
                 (fst (counted sequence_overrides cs uses1)) uses2)).
Proof.
  induction uses1 as [|u rest IH]; intros cs.
  - cbn [app counted fst snd].
    now destruct (counted sequence_overrides cs uses2).
  - cbn [app]. rewrite !counted_cons, IH. reflexivity.
Qed.

Lemma counted_integer (uses : list sequence_use) :
  forall cs,
    integer_counters cs ->
    integer_counters (fst (counted sequence_overrides cs uses)).
Proof.
  induction uses as [|u rest IH]; intros cs Hint; [exact Hint|].
  rewrite counted_cons. cbn [fst]. now apply IH, counted_use_integer.
Qed.

Lemma counted_length (uses : list sequence_use) :
  forall cs, length (snd (counted sequence_overrides cs uses)) = length uses.
Proof.
  induction uses as [|u rest IH]; intros cs; [reflexivity|].
  rewrite counted_cons. cbn [snd length]. now rewrite IH.
Qed.

Lemma writes_bound_to_cons (K : counter_key) (u : sequence_use)
      (rest : list sequence_use) (w : value) (ws : list value) :
  writes_bound_to K (u :: rest) (w :: ws)
  = if bound_to K u then w :: writes_bound_to K rest ws
    else writes_bound_to K rest ws.
Proof.
  unfold writes_bound_to. simpl. now destruct (bound_to K u).
Qed.

Lemma nth_error_progression (us : list sequence_use) :
  forall (a s : Z) (n : nat) (u : sequence_use),
    nth_error us n = Some u ->
    nth_error (progression a s us) n
    = Some (sequence_output (use_format u) (VInt (a + Z.of_nat n * s))).
Proof.
  induction us as [|u0 rest IH]; intros a s n u Hn.
  - destruct n; discriminate.
  - destruct n as [|n].
    + injection Hn as <-. cbn [progression nth_error].
      replace (a + Z.of_nat 0 * s)%Z with a by lia. reflexivity.
    + cbn [nth_error] in Hn. cbn [progression nth_error].
      rewrite (IH _ _ _ _ Hn).
      replace (a + s + Z.of_nat n * s)%Z
        with (a + Z.of_nat (S n) * s)%Z by lia.
      reflexivity.
Qed.

Lemma length_progression (us : list sequence_use) (a s : Z) :
  length (progression a s us) = length us.
Proof.
  revert a. induction us as [|u rest IH]; intros a; simpl; auto.
Qed.

Section OneKey.
Variables (K : counter_key) (s : Z).
Hypothesis K_strings : string_key K = true.

(** Once the counter of [K] exists, the uses bound to [K] go on from
    its value. *)
Lemma counted_known (uses : list sequence_use) :
  forall (cs : counters) (a : Z),
    Forall (integer_use sequence_overrides) uses ->
    same_step K s uses ->
    integer_counters cs ->
    assoc_get counter_key_eqb cs K = Some (VInt a) ->
    writes_bound_to K uses (snd (counted sequence_overrides cs uses))
    = progression a s (filter (bound_to K) uses).
Proof.
  induction uses as [|u rest IH]; intros cs a Hall Hstep Hint Hget.
  - reflexivity.
  - inversion Hall as [|u' rest' Hu Hrest]; subst.
    destruct Hu as ((k & Hkey) & (i & Hinit) & (su & Hsu)).
    destruct (counted_use_spec cs u k i su Hkey Hinit Hsu Hint)
      as (c & Hw & Hcs).
    assert (Hstep' : same_step K s rest).
    { intros x Hx. apply Hstep. now right. }
    pose proof (counted_use_integer cs u Hint) as Hint1.
    rewrite counted_cons. cbn [snd]. rewrite writes_bound_to_cons.
    cbn [filter].
    destruct (bound_to K u) eqn:Hb.
    + assert (Hk : k = K).
      { unfold bound_to in Hb. rewrite Hkey in Hb.
        now apply counter_key_eqb_l. }
      subst k. rewrite Hget in Hcs. destruct Hcs as [Hc Hcs1].
      injection Hc as <-.
      assert (su = s).
      { pose proof (Hstep u (or_introl eq_refl) Hb) as E.
        rewrite Hsu in E. now injection E. }
      subst su. cbn [progression]. rewrite Hw. f_equal.
      apply IH; auto. rewrite Hcs1. now apply counter_same.
    + assert (Hk : counter_key_eqb k K = false).
      { unfold bound_to in Hb. now rewrite Hkey in Hb. }
      apply IH; auto.
      destruct (assoc_get counter_key_eqb cs k);
        destruct Hcs as [_ ->]; rewrite !counter_frame; auto.
Qed.

(** While the counter of [K] does not exist, the first use bound to
    [K] creates it. *)
Lemma counted_fresh (uses : list sequence_use) :
  forall (cs : counters) (u0 : sequence_use) (v0 : Z),
    Forall (integer_use sequence_overrides) uses ->
    same_step K s uses ->
    integer_counters cs ->
    assoc_get counter_key_eqb cs K = None ->
    first_bound_to K uses = Some u0 ->
    use_initial sequence_overrides u0 = Ok (VInt v0) ->
    writes_bound_to K uses (snd (counted sequence_overrides cs uses))
    = progression v0 s (filter (bound_to K) uses).
Proof.
  induction uses as [|u rest IH];
    intros cs u0 v0 Hall Hstep Hint Hget Hfirst Hv0.
  - discriminate Hfirst.
  - inversion Hall as [|u' rest' Hu Hrest]; subst.
    destruct Hu as ((k & Hkey) & (i & Hinit) & (su & Hsu)).
    destruct (counted_use_spec cs u k i su Hkey Hinit Hsu Hint)
      as (c & Hw & Hcs).
    assert (Hstep' : same_step K s rest).
    { intros x Hx. apply Hstep. now right. }
    pose proof (counted_use_integer cs u Hint) as Hint1.
    rewrite counted_cons. cbn [snd]. rewrite writes_bound_to_cons.
    cbn [filter].
    unfold first_bound_to in Hfirst. cbn [find] in Hfirst.
    destruct (bound_to K u) eqn:Hb.
    + injection Hfirst as <-.
      assert (Hk : k = K).
      { unfold bound_to in Hb. rewrite Hkey in Hb.
        now apply counter_key_eqb_l. }
      subst k. rewrite Hget in Hcs. destruct Hcs as [-> Hcs1].
      assert (i = v0) by congruence. subst i.
      assert (su = s).
      { pose proof (Hstep u (or_introl eq_refl) Hb) as E.
        rewrite Hsu in E. now injection E. }
      subst su. cbn [progression]. rewrite Hw. f_equal.
      apply counted_known; auto. rewrite Hcs1. now apply counter_same.
    + assert (Hk : counter_key_eqb k K = false).
      { unfold bound_to in Hb. now rewrite Hkey in Hb. }
      apply (IH _ u0 v0); auto.
      destruct (assoc_get counter_key_eqb cs k);
        destruct Hcs as [_ ->]; rewrite !counter_frame; auto.
Qed.
End OneKey.

(** *** From the counter discipline to the conversion loop *)

Lemma sequence_writes_app (l1 l2 : list event) :
  sequence_writes (l1 ++ l2) = sequence_writes l1 ++ sequence_writes l2.
Proof. apply flat_map_app. Qed.

Lemma counts_on_record_ret {A : Type} (a : A) :
  counts_on_record sequence_overrides (ret a) [].
Proof.
  intros st d Hd Hint. exists st, a, d. cbn [counted fst snd].
  rewrite app_nil_r. auto.
Qed.

Lemma counts_on_record_lift {A : Type} (a : A) :
  counts_on_record sequence_overrides (lift (Ok a)) [].
Proof. apply counts_on_record_ret. Qed.

Lemma counts_on_record_emit (e : event) :
  sequence_writes [e] = [] ->
  counts_on_record sequence_overrides (emit e) [].
Proof.
  intros He st d Hd Hint. eexists _, tt, d. split; [reflexivity|].
  cbn [content_config sequence_counters log counted fst snd].
  rewrite sequence_writes_app, He. auto.
Qed.

Lemma counts_on_record_bind {A B : Type} (m : M A) (k : A -> M B)
      (uses1 uses2 : list sequence_use) :
  counts_on_record sequence_overrides m uses1 ->
  (forall a, counts_on_record sequence_overrides (k a) uses2) ->
  counts_on_record sequence_overrides (bind m k) (uses1 ++ uses2).
Proof.
  intros Hm Hk st d Hd Hint.
  destruct (Hm st d Hd Hint) as (st1 & a & d1 & Hrun & Hd1 & Hcs & Hlog).
  assert (Hint1 : integer_counters (sequence_counters st1)).
  { rewrite Hcs. now apply counted_integer. }
  destruct (Hk a st1 d1 Hd1 Hint1)
    as (st2 & b & d2 & Hrun2 & Hd2 & Hcs2 & Hlog2).
  exists st2, b, d2. unfold bind. rewrite Hrun, Hrun2, counted_app.
  cbn [fst snd]. rewrite Hcs2, Hlog2, Hlog, Hcs, app_assoc. auto.
Qed.

Lemma counts_on_record_then {A B : Type} (m : M A) (k : A -> M B)
      (uses : list sequence_use) :
  counts_on_record sequence_overrides m uses ->
  (forall a, counts_on_record sequence_overrides (k a) []) ->
  counts_on_record sequence_overrides (bind m k) uses.
Proof.
  intros Hm Hk. rewrite <- (app_nil_r uses).
  now apply counts_on_record_bind.
Qed.

Lemma counts_on_record_after_lift {A B : Type} (a : A) (k : A -> M B)
      (uses : list sequence_use) :
  counts_on_record sequence_overrides (k a) uses ->
  counts_on_record sequence_overrides (bind (lift (Ok a)) k) uses.
Proof. intros Hk st d Hd Hint. exact (Hk st d Hd Hint). Qed.

Lemma counts_on_record_after_ret {A B : Type} (a : A) (k : A -> M B)
      (uses : list sequence_use) :
  counts_on_record sequence_overrides (k a) uses ->
  counts_on_record sequence_overrides (bind (ret a) k) uses.
Proof. intros Hk st d Hd Hint. exact (Hk st d Hd Hint). Qed.

Lemma counts_sequence_body (u : sequence_use) :
  integer_use sequence_overrides u ->
  counts_on_record sequence_overrides
    (sequence_body (use_rule u) sequence_overrides (use_entry u)) [u].
Proof.
  intros Hu st d Hd Hint.
  rewrite (sequence_body_counted u st d Hd Hint Hu). cbv zeta.
  eexists _, tt, _. split; [reflexivity|].
  cbn [content_config sequence_counters log].
  rewrite counted_cons, sequence_writes_app. cbn [counted fst snd].
  auto.
Qed.

(** The loop of the [sequence] action over the entries of [uses]. *)
Lemma counts_for_each (rule_name : value) (uses : list sequence_use) :
  Forall (integer_use sequence_overrides) uses ->
  Forall (fun u => use_rule u = rule_name) uses ->
  counts_on_record sequence_overrides
    (for_each (map use_entry uses)
              (sequence_body rule_name sequence_overrides)) uses.
Proof.
  induction uses as [|u rest IH]; intros Hint Hname.
  - apply counts_on_record_ret.
  - inversion Hint as [|u1 rest1 Hu Hrest]; subst.
    inversion Hname as [|u2 rest2 Hn Hnames]; subst.
    cbn [map for_each].
    apply (counts_on_record_bind _ _ [u] rest).
    + now apply counts_sequence_body.
    + intros _. now apply IH.
Qed.

(** [apply_actions] on a block that holds nothing but [sequence]. *)
Lemma counts_apply_actions (entries : value) (context : dict)
      (uses : list sequence_use) (rule_name : value) :
  process_placeholders entries context = Ok (VDict (map use_entry uses)) ->
  Forall (integer_use sequence_overrides) uses ->
  Forall (fun u => use_rule u = rule_name) uses ->
  counts_on_record sequence_overrides
    (apply_actions (VDict [(SStr "sequence", entries)]) context rule_name
                   sequence_overrides) uses.
Proof.
  intros Hentries Hint Hname. unfold apply_actions. cbn [as_dict].
  apply counts_on_record_after_lift.
  change (py_truthy (dict_get_default [(SStr "sequence", entries)]
                                      (SStr "skip") (VBool false)))
    with false.
  cbv iota.
  unfold delete_phase, rename_phase, set_phase, append_phase, prepend_phase,
    sequence_phase.
  change (dict_get [(SStr "sequence", entries)] (SStr "delete"))
    with (@None value).
  change (dict_get [(SStr "sequence", entries)] (SStr "rename"))
    with (@None value).
  change (dict_get [(SStr "sequence", entries)] (SStr "set"))
    with (@None value).
  change (dict_get [(SStr "sequence", entries)] (SStr "append"))
    with (@None value).
  change (dict_get [(SStr "sequence", entries)] (SStr "prepend"))
    with (@None value).
  change (dict_get [(SStr "sequence", entries)] (SStr "sequence"))
    with (Some entries).
  cbv iota.
  do 5 apply counts_on_record_after_ret.
  rewrite Hentries. apply counts_on_record_after_lift.
  apply (counts_on_record_bind _ _ [] uses);
    [now apply counts_on_record_emit|intros _].
  cbn [as_dict]. apply counts_on_record_after_lift.
  now apply counts_for_each.
Qed.

(** One turn of the rule loop on a rule that only counts. *)
Lemma counts_run_rule (contexts : list dict) (context : dict)
      (executed : list scalar) (rule : dict) (uses : list sequence_use) :
  In context contexts ->
  counting_rule contexts rule uses ->
  Forall (integer_use sequence_overrides) uses ->
  counts_on_record sequence_overrides
    (run_rule context sequence_overrides executed (VDict rule)) uses.
Proof.
  intros Hin (Hdeps & Hconds & (name & Hname) & Hrule
              & entries & Hactions & Hentries) Hint.
  assert (Hacts : dict_get_default rule (SStr "actions") (VDict [])
                  = VDict [(SStr "sequence", entries)]).
  { unfold dict_get_default. now rewrite Hactions. }
  unfold run_rule. cbn [as_dict]. apply counts_on_record_after_lift.
  cbv zeta. rewrite Hacts.
  unfold dependencies_missing. rewrite Hdeps.
  apply counts_on_record_after_lift. cbv iota. cbn [as_dict].
  apply counts_on_record_after_lift.
  change (py_truthy (dict_get_default [(SStr "sequence", entries)]
                                      (SStr "skip") (VBool false)))
    with false.
  cbv iota. rewrite Hconds. apply counts_on_record_after_ret. cbv iota.
  apply counts_on_record_then.
  - apply counts_apply_actions; auto.
  - intros _. rewrite Hname.
    destruct (py_truthy (Atom name)); [|apply counts_on_record_ret].
    unfold add_executed. cbn [as_key res_bind].
    apply counts_on_record_lift.
Qed.

Lemma counts_run_rules (contexts : list dict) (context : dict)
      (rules : list (dict * list sequence_use)) :
  In context contexts ->
  Forall (fun ru => counting_rule contexts (fst ru) (snd ru)) rules ->
  Forall (integer_use sequence_overrides) (flat_map snd rules) ->
  forall executed,
    counts_on_record sequence_overrides
      (run_rules context sequence_overrides executed
                 (map (fun ru => VDict (fst ru)) rules))
      (flat_map snd rules).
Proof.
  intros Hin. induction rules as [|[rule uses] rest IH];
    intros Hrules Hint executed.
  - apply counts_on_record_ret.
  - inversion Hrules as [|ru rest1 Hrule Hrest]; subst.
    cbn [flat_map snd] in Hint. apply Forall_app in Hint.
    destruct Hint as [Hint1 Hint2].
    cbn [map flat_map fst snd run_rules].
    apply counts_on_record_bind.
    + now apply (counts_run_rule contexts).
    + intros executed'. now apply IH.
Qed.

Lemma counts_ret {A : Type} (a : A) : counts sequence_overrides (ret a) [].
Proof.
  intros st Hint. exists st, a. cbn [counted fst snd].
  rewrite app_nil_r. auto.
Qed.

Lemma counts_bind {A B : Type} (m : M A) (k : A -> M B)
      (uses1 uses2 : list sequence_use) :
  counts sequence_overrides m uses1 ->
  (forall a, counts sequence_overrides (k a) uses2) ->
  counts sequence_overrides (bind m k) (uses1 ++ uses2).
Proof.
  intros Hm Hk st Hint.
  destruct (Hm st Hint) as (st1 & a & Hrun & Hcs & Hlog).
  assert (Hint1 : integer_counters (sequence_counters st1)).
  { rewrite Hcs. now apply counted_integer. }
  destruct (Hk a st1 Hint1) as (st2 & b & Hrun2 & Hcs2 & Hlog2).
  exists st2, b. unfold bind. rewrite Hrun, Hrun2, counted_app.
  cbn [fst snd]. rewrite Hcs2, Hlog2, Hlog, Hcs, app_assoc. auto.
Qed.

Lemma counts_after_lift {A B : Type} (a : A) (k : A -> M B)
      (uses : list sequence_use) :
  counts sequence_overrides (k a) uses ->
  counts sequence_overrides (bind (lift (Ok a)) k) uses.
Proof. intros Hk st Hint. exact (Hk st Hint). Qed.

Section OneRule.
Variables (top_type : string) (definitions : dict).
Variable rules : list (dict * list sequence_use).
Variable contexts : list dict.
Hypothesis rules_count :
  Forall (fun ru => counting_rule contexts (fst ru) (snd ru)) rules.
Hypothesis rules_integer :
  Forall (integer_use sequence_overrides) (flat_map snd rules).

(** One record (lines 288-346): the rules run on a copy of it. *)
Lemma counts_convert_item (content_key : string) (new_data : dict)
      (item : scalar * value) :
  (exists d, snd item = VDict d) ->
  In (record_context definitions (VStr top_type) item) contexts ->
  counts sequence_overrides
    (convert_item (VStr top_type)
                  (VList (map (fun ru => VDict (fst ru)) rules))
                  (VDict definitions) sequence_overrides content_key
                  new_data item)
    (flat_map snd rules).
Proof.
  destruct item as [content_id content_config_old].
  intros (d & Hd) Hin st Hint. cbn [snd] in Hd. subst content_config_old.
  unfold record_context in Hin. cbn [fst snd] in Hin.
  unfold convert_item. unfold bind at 1. cbn [put_config].
  unfold bind at 1. cbn [lift process_dynamic_context as_dict res_bind].
  unfold bind at 1. cbn [lift py_iter].
  destruct (counts_run_rules contexts _ rules Hin rules_count rules_integer
              [] (mkState (VDict d) (sequence_counters st) (log st)) d
              eq_refl Hint)
    as (st1 & executed & d1 & Hrun & Hd1 & Hcs & Hlog).
  unfold bind at 1. rewrite Hrun.
  unfold bind at 1. cbn [get_config ret].
  eexists _, _. split; [reflexivity|]. auto.
Qed.

Lemma counts_convert_items (content_key : string)
      (items : list (scalar * value)) :
  Forall (fun item => exists d, snd item = VDict d) items ->
  (forall item, In item items ->
                In (record_context definitions (VStr top_type) item)
                   contexts) ->
  forall new_data,
    counts sequence_overrides
      (convert_items (VStr top_type)
                     (VList (map (fun ru => VDict (fst ru)) rules))
                     (VDict definitions) sequence_overrides content_key
                     new_data items)
      (flat_map (fun _ => flat_map snd rules) items).
Proof.
  induction items as [|item rest IH]; intros Hitems Hin new_data.
  - apply counts_ret.
  - inversion Hitems as [|item1 rest1 Hitem Hrest]; subst.
    cbn [convert_items flat_map]. apply counts_bind.
    + apply counts_convert_item; [exact Hitem|]. apply Hin. now left.
    + intros new_data'. apply IH; [exact Hrest|].
      intros x Hx. apply Hin. now right.
Qed.

Variable groups : dict.

Lemma counts_convert_groups (keys : list string) :
  Forall (fun key =>
            exists items,
              dict_get groups (SStr key) = Some (VDict items)
              /\ Forall (fun item => exists d, snd item = VDict d) items)
         keys ->
  (forall item, In item (flat_map (group_items groups) keys) ->
                In (record_context definitions (VStr top_type) item)
                   contexts) ->
  forall new_data,
    counts sequence_overrides
      (convert_groups (VDict groups) (VStr top_type)
                      (VList (map (fun ru => VDict (fst ru)) rules))
                      (VDict definitions) sequence_overrides new_data keys)
      (flat_map (fun _ => flat_map snd rules)
                (flat_map (group_items groups) keys)).
Proof.
  induction keys as [|key rest IH]; intros Hkeys Hin new_data.
  - apply counts_ret.
  - inversion Hkeys as [|key1 rest1 (items & Hgroup & Hitems) Hrest]; subst.
    assert (Hhere : group_items groups key = items).
    { unfold group_items. now rewrite Hgroup. }
    cbn [convert_groups flat_map]. rewrite flat_map_app.
    apply counts_bind.
    + unfold convert_group, group_of. cbn [as_dict res_bind].
      apply counts_after_lift. unfold dict_get_default. rewrite Hgroup.
      rewrite Hhere in *.
      destruct items as [|item items'].
      * apply counts_ret.
      * cbn [py_truthy negb as_dict]. apply counts_after_lift.
        apply counts_convert_items; [exact Hitems|].
        intros x Hx. apply Hin. cbn [flat_map]. apply in_or_app. left.
        now rewrite Hhere.
    + intros new_data'. apply IH; [exact Hrest|].
      intros x Hx. apply Hin. cbn [flat_map]. apply in_or_app. now right.
Qed.
End OneRule.

Lemma counts_then {A B : Type} (m : M A) (k : A -> M B)
      (uses : list sequence_use) :
  counts sequence_overrides m uses ->
  (forall a, counts sequence_overrides (k a) []) ->
  counts sequence_overrides (bind m k) uses.
Proof.
  intros Hm Hk. rewrite <- (app_nil_r uses). now apply counts_bind.
Qed.

Lemma count_keys_groups (groups : dict) (keys : list string) :
  Forall (fun key => exists items,
                       dict_get groups (SStr key) = Some (VDict items)
                       /\ Forall (fun item => exists d, snd item = VDict d)
                                 items) keys ->
  forall total, exists n, count_keys (VDict groups) keys total = Ok n.
Proof.
  induction 1 as [|key rest (items & Hgroup & _) _ IH]; intros total.
  - now exists total.
  - cbn [count_keys group_of as_dict res_bind]. unfold dict_get_default.
    rewrite Hgroup. cbn [py_len res_bind]. apply IH.
Qed.

Lemma Forall_repeated {A B : Type} (P : B -> Prop) (l : list A)
      (each : list B) :
  Forall P each -> Forall P (flat_map (fun _ => each) l).
Proof.
  intros Heach. induction l as [|x rest IH]; [constructor|].
  cbn [flat_map]. apply Forall_app. now split.
Qed.

Lemma In_repeated {A B : Type} (l : list A) (each : list B) (b : B) :
  In b (flat_map (fun _ => each) l) -> In b each.
Proof.
  intros H. apply in_flat_map in H. now destruct H as (_ & _ & H).
Qed.

Section SteadyKey.
Variables (K : counter_key) (s : Z).
Hypothesis K_strings : string_key K = true.

Lemma advances_refl (st : state) : advances K s st st.
Proof.
  intros c Hc. exists 0%nat. rewrite Hc. do 3 f_equal. simpl. ring.
Qed.

Lemma advances_trans (a b c : state) :
  advances K s a b -> advances K s b c -> advances K s a c.
Proof.
  intros Hab Hbc x Hx. destruct (Hab x Hx) as [n Hn].
  destruct (Hbc _ Hn) as [m Hm]. exists (n + m)%nat.
  rewrite Hm. do 3 f_equal. rewrite Nat2Z.inj_add. ring.
Qed.

Lemma advances_config (st : state) (c : value) :
  advances K s st (mkState c (sequence_counters st) (log st)).
Proof. intros x Hx. exists 0%nat. simpl. rewrite Hx. do 3 f_equal. ring. Qed.

Lemma advances_log (st : state) (l : list event) :
  advances K s st (mkState (content_config st) (sequence_counters st) l).
Proof. intros x Hx. exists 0%nat. simpl. rewrite Hx. do 3 f_equal. ring. Qed.

Lemma advances_other_key (k : counter_key) (v : value) :
  counter_key_eqb k K = false -> preserves (advances K s) (put_counter k v).
Proof.
  intros Hk st x Hx. exists 0%nat. unfold put_counter. simpl.
  rewrite (counter_frame _ k K v K_strings Hk), Hx. do 3 f_equal. ring.
Qed.

Local Ltac keep :=
  first [apply (preserves_ret _ advances_refl)
        |apply (preserves_lift _ advances_refl)
        |apply (preserves_emit _ advances_log)
        |apply (preserves_get_config _ advances_refl)
        |apply (preserves_put_config _ advances_config)
        |apply (preserves_get_counters _ advances_refl)
        |apply (preserves_set_in_config _ advances_refl advances_trans
                                        advances_config)].

Local Ltac step :=
  apply (preserves_bind _ advances_trans); [try keep|intro].

Local Ltac after_lift :=
  apply (preserves_bind_lift _ advances_refl).

Lemma as_dict_Ok (v : value) (d : dict) : as_dict v = Ok d -> v = VDict d.
Proof.
  destruct v as [x|x|x]; try discriminate. simpl. now intros [= ->].
Qed.

(** One entry of the sequence map: a use of [K] advances its counter by
    [s], or leaves it when the write raises; a use of another key does
    not touch it. *)
Lemma advances_sequence_body (rule_name : value) (pair : scalar * value) :
  steady_entry K s rule_name pair ->
  preserves (advances K s) (sequence_body rule_name sequence_overrides pair).
Proof.
  destruct pair as [path sequence_info]. intros Hsteady.
  unfold sequence_body. after_lift. intros info Hinfo.
  apply as_dict_Ok in Hinfo.
  after_lift. intros [k|] Hkey; [|keep].
  destruct (counter_key_eqb k K) eqn:Hk.
  - pose proof (Hsteady info k Hinfo Hkey Hk) as Hstep. cbv zeta.
    apply (counter_key_eqb_l K k K_strings) in Hk. subst k.
    intros [cfg cs lg] c Hc. cbn [sequence_counters] in Hc.
    cbv [bind lift get_counters ret put_counter emit put_config
         set_in_config get_config content_config sequence_counters log].
    rewrite Hc, Hstep.
    destruct (set_nested_value cfg (Atom path) _) as [cfg'|e];
      cbn [fst snd sequence_counters py_iadd as_number number_add res_bind].
    + exists 1%nat. rewrite (counter_same cs K _ K_strings).
      do 3 f_equal. change (Z.of_nat 1) with 1%Z. ring.
    + exists 0%nat. rewrite Hc. do 3 f_equal. simpl. ring.
  - cbv zeta.
    apply (preserves_bind _ advances_trans); [keep|intros known].
    apply (preserves_bind _ advances_trans).
    + destruct (assoc_get counter_key_eqb known k); [keep|].
      apply (preserves_bind _ advances_trans); [keep|intros initial_value].
      apply (preserves_bind _ advances_trans);
        [now apply advances_other_key|intros _].
      keep.
    + intros current_value. step. step. step.
      now apply advances_other_key.
Qed.

Lemma advances_sequence_phase (acts context : dict) (rule_name : value) :
  (forall entries pairs,
      dict_get acts (SStr "sequence") = Some entries ->
      process_placeholders entries context = Ok (VDict pairs) ->
      Forall (steady_entry K s rule_name) pairs) ->
  preserves (advances K s)
            (sequence_phase acts context rule_name sequence_overrides).
Proof.
  intros Hsteady. unfold sequence_phase.
  destruct (dict_get acts (SStr "sequence")) as [entries|]; [|keep].
  after_lift. intros processed Hprocessed. step.
  after_lift. intros pairs Hpairs. apply as_dict_Ok in Hpairs. subst processed.
  specialize (Hsteady entries pairs eq_refl Hprocessed).
  rewrite Forall_forall in Hsteady.
  apply (preserves_for_each_in _ advances_refl advances_trans).
  intros x Hx. now apply advances_sequence_body, Hsteady.
Qed.

Lemma advances_run_rule (context : dict) (executed : list scalar)
      (rule : value) :
  steady_rule K s rule ->
  preserves (advances K s)
            (run_rule context sequence_overrides executed rule).
Proof.
  intros Hsteady. unfold run_rule. after_lift. intros r Hrule.
  apply as_dict_Ok in Hrule. cbv zeta.
  apply (preserves_bind _ advances_trans); [keep|intros [|]]; [keep|].
  after_lift. intros acts Hacts. apply as_dict_Ok in Hacts.
  destruct (py_truthy _); [keep|].
  apply (preserves_bind _ advances_trans).
  - destruct (dict_get r (SStr "conditions")); [|keep].
    step. apply (preserves_conditions_hold _ advances_refl advances_trans).
  - intros [|]; [|keep].
    apply (preserves_bind _ advances_trans).
    + unfold apply_actions. rewrite Hacts. cbn [as_dict].
      after_lift. intros acts' [= <-].
      destruct (py_truthy _); [keep|].
      apply (preserves_phases_then _ advances_refl advances_trans
                                   advances_config advances_log).
      apply advances_sequence_phase.
      intros entries pairs Hentries Hpairs.
      exact (Hsteady r acts entries context pairs Hrule Hacts Hentries
                     Hpairs).
    + intros _. destruct (py_truthy _); keep.
Qed.

Lemma advances_run_rules (context : dict) (nested_rules : list value) :
  Forall (steady_rule K s) nested_rules ->
  forall executed,
    preserves (advances K s)
              (run_rules context sequence_overrides executed nested_rules).
Proof.
  induction 1 as [|rule rest Hrule Hrest IH]; intros executed.
  - keep.
  - cbn [run_rules]. apply (preserves_bind _ advances_trans);
      [now apply advances_run_rule|intros executed'; apply IH].
Qed.

Lemma advances_convert_items (content_type nested_rules definitions : value)
      (content_key : string) (items : list (scalar * value)) :
  (forall rules, py_iter nested_rules = Ok rules ->
                 Forall (steady_rule K s) rules) ->
  forall new_data,
    preserves (advances K s)
              (convert_items content_type nested_rules definitions
                             sequence_overrides content_key new_data items).
Proof.
  intros Hsteady.
  induction items as [|[content_id content_config_old] rest IH];
    intros new_data.
  - keep.
  - cbn [convert_items].
    apply (preserves_bind _ advances_trans); [|intro; apply IH].
    unfold convert_item. step. step. after_lift. intros rules Hrules.
    apply (preserves_bind _ advances_trans);
      [now apply advances_run_rules, Hsteady|intro].
    step. keep.
Qed.

Lemma advances_convert_groups (old_data content_type nested_rules
                                 definitions : value)
      (keys : list string) :
  (forall rules, py_iter nested_rules = Ok rules ->
                 Forall (steady_rule K s) rules) ->
  forall new_data,
    preserves (advances K s)
              (convert_groups old_data content_type nested_rules
                              definitions sequence_overrides new_data keys).
Proof.
  intros Hsteady. induction keys as [|key rest IH]; intros new_data.
  - keep.
  - cbn [convert_groups].
    apply (preserves_bind _ advances_trans); [|intro; apply IH].
    unfold convert_group.
    apply (preserves_bind _ advances_trans); [keep|intros contents].
    destruct (negb (py_truthy contents)); [keep|].
    step. now apply advances_convert_items.
Qed.

Lemma advances_convert_rules (old_data : value) (rules_list : list value) :
  Forall (steady_top K s) rules_list ->
  forall new_data,
    preserves (advances K s)
              (convert_rules old_data sequence_overrides new_data rules_list).
Proof.
  induction 1 as [|top rest Htop Hrest IH]; intros new_data.
  - keep.
  - cbn [convert_rules].
    apply (preserves_bind _ advances_trans); [|intro; apply IH].
    unfold convert_rule. after_lift. intros t Ht. apply as_dict_Ok in Ht.
    cbv zeta. destruct (negb (py_truthy _)); [keep|].
    step. step. apply advances_convert_groups.
    intros rules Hrules. exact (Htop t rules Ht Hrules).
Qed.

(** Over a whole conversion, whether it returns or raises. *)
Lemma advances_convert (old_data rules_list : value) :
  steady_rules K s rules_list ->
  preserves (advances K s) (convert old_data rules_list sequence_overrides).
Proof.
  intros Hsteady. unfold convert. after_lift. intros tops Htops. step.
  apply (preserves_bind _ advances_trans);
    [now apply advances_convert_rules, Hsteady|intro].
  keep.
Qed.
End SteadyKey.

(** C2.  Within one conversion, for a counter key [K] made of strings
    whose uses all have the step [s]:
    - in every conversion, whatever the rules hold besides and whether
      it returns or raises, a counter of [K] that stands at an integer
      [c] stands afterwards at [c] advanced by [s] a whole number of
      times: nothing resets it and no override or [start] is read for
      it again;
    - every use that counts in integers on a record logs the value it
      writes and leaves it in the record at its path; the value is that
      of its counter, which it creates when there is none (from the
      override under its override key if there is one, else from its
      [start]), and the counter then stands one step further;
    - the conversion of a file of record groups under a top-level rule
      whose nested rules only count (no dependencies, no conditions,
      action blocks with nothing but [sequence]), all in integers,
      returns, with one write for each use of each record, rule after
      rule and entry after entry; the values written for the uses bound
      to [K] are, whatever uses of other keys run in between, [v0],
      [v0 + s], [v0 + 2 s], ... (each through the format of its use),
      where [v0] is fixed by the first use bound to [K]: its override if
      there is one, else its [start]. *)
Theorem sequence_counter_progression (K : counter_key) (s : Z) :
  string_key K = true ->
  (forall (old_data rules_list : value) (st : state) (c : Z),
      steady_rules K s rules_list ->
      assoc_get counter_key_eqb (sequence_counters st) K = Some (VInt c) ->
      exists n : nat,
        assoc_get counter_key_eqb
                  (sequence_counters
                     (fst (convert old_data rules_list sequence_overrides
                                   st))) K
        = Some (VInt (c + Z.of_nat n * s)))
  /\ (forall (st : state) (d : dict) (u : sequence_use),
         content_config st = VDict d ->
         integer_counters (sequence_counters st) ->
         integer_use sequence_overrides u ->
         use_key u = Ok (Some K) ->
         use_step u = VInt s ->
         let after :=
           fst (sequence_body (use_rule u) sequence_overrides (use_entry u)
                              st) in
         exists c,
           let w := sequence_output (use_format u) (VInt c) in
           log after = log st ++ [SequenceSet (SStr (use_path u)) w]
           /\ get_nested_value (content_config after) (VStr (use_path u))
              = Ok w
           /\ assoc_get counter_key_eqb (sequence_counters after) K
              = Some (VInt (c + s))
           /\ match assoc_get counter_key_eqb (sequence_counters st) K with
              | Some v => v = VInt c
              | None =>
                  VInt c = match override_for sequence_overrides u with
                           | Some x => x
                           | None => use_start u
                           end
              end)
  /\ forall (groups top definitions : dict) (content_type base : string)
            (keys : list string) (rules : list (dict * list sequence_use))
            (u0 : sequence_use),
       let records := flat_map (group_items groups) keys in
       let contexts :=
         map (record_context definitions (VStr content_type)) records in
       let uses := flat_map (fun _ => flat_map snd rules) records in
       dict_get_default top (SStr "content") VNone = VStr content_type ->
       content_type <> "" ->
       dict_get_default top (SStr "rules") (VList [])
       = VList (map (fun ru => VDict (fst ru)) rules) ->
       dict_get_default top (SStr "context") (VDict []) = VDict definitions ->
       content_key_base (VStr content_type) = Ok base ->
       matching_keys (VDict groups) base = Ok keys ->
       Forall (fun key =>
                 exists items,
                   dict_get groups (SStr key) = Some (VDict items)
                   /\ Forall (fun item => exists d, snd item = VDict d)
                             items) keys ->
       Forall (fun ru => counting_rule contexts (fst ru) (snd ru)) rules ->
       Forall (integer_use sequence_overrides) (flat_map snd rules) ->
       (forall u, In u (flat_map snd rules) -> bound_to K u = true ->
                  use_step u = VInt s) ->
       first_bound_to K uses = Some u0 ->
       exists (v0 : Z) (st' : state) (new_data : value),
         VInt v0 = match override_for sequence_overrides u0 with
                   | Some x => x
                   | None => use_start u0
                   end
         /\ convert (VDict groups) (VList [VDict top]) sequence_overrides
                    initial_state = (st', Ok new_data)
         /\ length (sequence_writes (log st')) = length uses
         /\ forall (n : nat) (u : sequence_use),
              nth_error (filter (bound_to K) uses) n = Some u ->
              nth_error (writes_bound_to K uses (sequence_writes (log st')))
                        n
              = Some (sequence_output (use_format u)
                                      (VInt (v0 + Z.of_nat n * s))).
Proof.
  intros HK. split; [|split].
  - intros old_data rules_list st c Hsteady Hc.
    exact (advances_convert K s HK old_data rules_list Hsteady st c Hc).
  - intros st d u Hd Hcs Hu Hkey Hstep after. unfold after.
    rewrite (sequence_body_counted u st d Hd Hcs Hu). cbv zeta.
    cbn [fst log content_config sequence_counters].
    destruct Hu as (_ & (i & Hinit) & _).
    destruct (counted_use_spec (sequence_counters st) u K i s Hkey Hinit
                               Hstep Hcs) as (c & Hw & Hcase).
    exists c. rewrite Hw. split; [reflexivity|split; [|split]].
    + unfold get_nested_value. cbn [split_path res_bind]. f_equal.
      apply get_set_parts, split_on_not_nil.
    + destruct (assoc_get counter_key_eqb (sequence_counters st) K);
        destruct Hcase as [Hc ->]; [|subst c]; now apply counter_same.
    + destruct (assoc_get counter_key_eqb (sequence_counters st) K).
      * now destruct Hcase.
      * destruct Hcase as [-> _]. now apply initial_value_of_override.
  - intros groups top definitions content_type base keys rules u0
           records contexts uses Hcontent Hct Hrules Hdefs Hbase Hkeys
           Hgroups Hcount Hint Hstep Hfirst.
    assert (Hconvert : counts sequence_overrides
                         (convert (VDict groups) (VList [VDict top])
                                  sequence_overrides) uses).
    { unfold convert. cbn [py_iter]. apply counts_after_lift.
      assert (Htruthy : py_truthy (VStr content_type) = true).
      { cbn [py_truthy]. apply negb_true_iff. now apply String.eqb_neq. }
      destruct (count_keys_groups groups keys Hgroups 0%nat) as [n Hn].
      assert (Hcount_items :
                count_items (VDict groups) [VDict top] 0 = Ok n).
      { cbn [count_items as_dict res_bind]. rewrite Hcontent, Htruthy.
        cbn [negb]. rewrite Hbase. cbn [res_bind]. rewrite Hkeys.
        cbn [res_bind]. now rewrite Hn. }
      rewrite Hcount_items. apply counts_after_lift.
      apply counts_then; [|intros new_data; apply counts_ret].
      cbn [convert_rules].
      apply counts_then; [|intros new_data; apply counts_ret].
      unfold convert_rule. cbn [as_dict]. apply counts_after_lift.
      cbv zeta. rewrite Hcontent, Hrules, Hdefs, Htruthy. cbn [negb].
      rewrite Hbase. apply counts_after_lift.
      rewrite Hkeys. apply counts_after_lift.
      apply (counts_convert_groups content_type definitions rules contexts
               Hcount Hint groups keys Hgroups).
      intros item Hitem. unfold contexts. now apply in_map. }
    destruct (Hconvert initial_state) as (st' & new_data & Hrun & _ & Hlog).
    { constructor. }
    cbn [initial_state sequence_counters log sequence_writes flat_map app]
      in Hlog.
    assert (Hall : Forall (integer_use sequence_overrides) uses)
      by now apply Forall_repeated.
    assert (Hsame : same_step K s uses).
    { intros u Hu. apply Hstep. now apply In_repeated in Hu. }
    assert (Hu0 : integer_use sequence_overrides u0).
    { unfold first_bound_to in Hfirst. apply find_some in Hfirst.
      rewrite Forall_forall in Hall. now apply Hall. }
    destruct Hu0 as (_ & (v0 & Hv0) & _).
    pose proof (counted_fresh K s HK uses [] u0 v0 Hall Hsame
                  (Forall_nil _) eq_refl Hfirst Hv0) as Hw.
    exists v0, st', new_data. split; [|split; [|split]].
    + now apply initial_value_of_override.
    + exact Hrun.
    + rewrite Hlog. apply counted_length.
    + intros n u Hn. rewrite Hlog, Hw. now apply nth_error_progression.
Qed.

(** C10.  A rule that declares the name ["Unnamed Rule"] gets the
    rule name of a rule without a name.  With it a sequence entry
    that has no [id] (or a false one) is the unnamed-rule error: an
    error is logged, the record and the counters stay as they are,
    and the action goes on with its next entry; so both rules are
    applied alike. *)
Theorem unnamed_rule_name_collision (named unnamed : dict) (path : scalar)
        (info : dict) (st : state) :
  dict_get named (SStr "name") = Some (VStr "Unnamed Rule") ->
  dict_get unnamed (SStr "name") = None ->
  py_truthy (dict_get_default info (SStr "id") VNone) = false ->
  rule_name_of named = rule_name_of unnamed
  /\ sequence_body (rule_name_of named) sequence_overrides
                   (path, VDict info) st
     = (mkState (content_config st) (sequence_counters st)
                (log st ++ [UnnamedSequence path]), Ok tt)
  /\ event_level (UnnamedSequence path) = ERROR
  /\ forall (actions : value) (context : dict),
       apply_actions actions context (rule_name_of named)
                     sequence_overrides
       = apply_actions actions context (rule_name_of unnamed)
                       sequence_overrides.
Proof.
  intros Hnamed Hunnamed Hid.
  assert (Hname : rule_name_of named = VStr "Unnamed Rule").
  { unfold rule_name_of, dict_get_default. now rewrite Hnamed. }
  assert (Hnone : rule_name_of unnamed = VStr "Unnamed Rule").
  { unfold rule_name_of, dict_get_default. now rewrite Hunnamed. }
  rewrite Hname, Hnone. split; [reflexivity|split; [|split]].
  - unfold sequence_body, counter_key_of.
    cbv [bind lift as_dict]. rewrite Hid. reflexivity.
  - reflexivity.
  - reflexivity.
Qed.
End SequenceProperties.

(** Two records draw from the shared counter [custom-model-data], which
    starts at [1] in the rule and at [50000] by override, while the rule
    [r] counts [n] on its own in between: the shared counter gives
    50000, 50001.  Run on counters that hold [7] for the shared key, the
    same conversion leaves that counter at [7] plus a number of steps. *)
Lemma sequence_counter_progression_witness :
  let overrides := Some [(SStr "custom-model-data", VInt 50000)] in
  let shared := mkUse (VStr "r") "cmd"
                      [(SStr "id", VStr "custom-model-data");
                       (SStr "start", VInt 1)] in
  let own := mkUse (VStr "r") "n" [] in
  let rule := [(SStr "name", VStr "r");
               (SStr "actions",
                VDict [(SStr "sequence",
                        VDict [use_entry shared; use_entry own])])] in
  let top := [(SStr "content", VStr "item");
              (SStr "rules", VList [VDict rule])] in
  let groups := [(SStr "items",
                  VDict [(SStr "ruby", VDict []);
                         (SStr "opal", VDict [])])] in
  let uses := [shared; own; shared; own] in
  let K := SharedKey "shared_id_custom-model-data" in
  (exists st' new_data,
      @convert example_libraries (VDict groups) (VList [VDict top]) overrides
               initial_state = (st', Ok new_data)
      /\ nth_error (@writes_bound_to example_libraries K uses
                      (sequence_writes (log st'))) 0
         = Some (VInt 50000)
      /\ nth_error (@writes_bound_to example_libraries K uses
                      (sequence_writes (log st'))) 1
         = Some (VInt 50001))
  /\ exists n : nat,
       assoc_get counter_key_eqb
                 (sequence_counters
                    (fst (@convert example_libraries (VDict groups)
                            (VList [VDict top]) overrides
                            (mkState VNone [(K, VInt 7)] [])))) K
       = Some (VInt (7 + Z.of_nat n * 1)).
Proof.
  cbv zeta.
  pose (overrides := Some [(SStr "custom-model-data", VInt 50000)]).
  pose (shared := mkUse (VStr "r") "cmd"
                        [(SStr "id", VStr "custom-model-data");
                         (SStr "start", VInt 1)]).
  pose (own := mkUse (VStr "r") "n" []).
  pose (rule := [(SStr "name", VStr "r");
                 (SStr "actions",
                  VDict [(SStr "sequence",
                          VDict [use_entry shared; use_entry own])])]).
  pose (top := [(SStr "content", VStr "item");
                (SStr "rules", VList [VDict rule])]).
  pose (groups := [(SStr "items",
                    VDict [(SStr "ruby", VDict []);
                           (SStr "opal", VDict [])])]).
  destruct (@sequence_counter_progression example_libraries overrides
              (SharedKey "shared_id_custom-model-data") 1 eq_refl)
    as (Hany & _ & Hcounting).
  split.
  - destruct (Hcounting groups top [] "item" "items" ["items"]
                        [(rule, [shared; own])] shared)
      as (v0 & st' & new_data & Hv0 & Hrun & _ & Hnth).
    + reflexivity.
    + discriminate.
    + reflexivity.
    + reflexivity.
    + reflexivity.
    + reflexivity.
    + repeat constructor. eexists. split; [reflexivity|].
      repeat constructor; eexists; reflexivity.
    + repeat constructor.
      * now exists (SStr "r").
      * eexists. split; [reflexivity|].
        intros context [<-|[<-|[]]]; reflexivity.
    + repeat constructor; try (eexists; reflexivity).
    + intros u [<-|[<-|[]]]; try discriminate; reflexivity.
    + reflexivity.
    + injection Hv0 as ->.
      exists st', new_data. split; [exact Hrun|split].
      * apply (Hnth 0%nat shared). reflexivity.
      * apply (Hnth 1%nat shared). reflexivity.
  - apply (Hany (VDict groups) (VList [VDict top])
                (mkState VNone
                         [(SharedKey "shared_id_custom-model-data", VInt 7)]
                         []) 7%Z); [|reflexivity].
    intros tops [= <-]. repeat constructor.
    intros t nested [= <-] [= <-]. repeat constructor.
    intros r acts entries context pairs [= <-] [= <-] [= <-] Hpairs.
    cbn [process_placeholders use_entry shared own use_path use_info]
      in Hpairs.
    rewrite !(@process_key_no_brace example_libraries) in Hpairs
      by reflexivity.
    rewrite !(@process_str_no_brace example_libraries) in Hpairs
      by reflexivity.
    cbn in Hpairs. injection Hpairs as <-.
    repeat constructor; intros info k [= <-] _ _; reflexivity.
Defined.

(** A rule named ["Unnamed Rule"] and a rule without a name, on a
    sequence entry without [id]. *)
Lemma unnamed_rule_name_collision_witness :
  let named := [(SStr "name", VStr "Unnamed Rule")] in
  @sequence_body example_libraries (rule_name_of named) None
                 (SStr "n", VDict [(SStr "start", VInt 5)])
                 (mkState (VDict []) [] [])
  = (mkState (VDict []) [] [UnnamedSequence (SStr "n")], Ok tt).
Proof.
  cbv zeta.
  apply (@unnamed_rule_name_collision example_libraries None
           [(SStr "name", VStr "Unnamed Rule")] []
           (SStr "n") [(SStr "start", VInt 5)]
           (mkState (VDict []) [] []) eq_refl eq_refl eq_refl).
Defined.

(** ** The order of the phases *)

















Section PhaseOrder.
Context {L : Libraries}.
Variable sequence_overrides : option dict.


















End PhaseOrder.


(** ** The entry point *)

Lemma dict_get_set_other (d : dict) (k k' : string) (v : value) :
  k <> k' ->
  dict_get (dict_set d (SStr k) v) (SStr k') = dict_get d (SStr k').
Proof.
  intros Hne. apply assoc_get_set_other.
  - intros x. apply scalar_eqb_str_r.
  - intros x. apply scalar_eqb_str_l.
  - simpl. now apply String.eqb_neq.
Qed.

Lemma string_keyed_set (d : dict) (k : string) (v : value) :
  string_keyed d -> string_keyed (dict_set d (SStr k) v).
Proof.
  unfold string_keyed, dict_set.
  induction 1 as [|[k0 v0] rest Hk Hrest IH]; simpl.
  - constructor; [now exists k|constructor].
  - destruct (scalar_eqb k0 (SStr k)); constructor; auto.
Qed.

Lemma dict_set_new (acc : dict) (id : scalar) (c : value) :
  (forall kv, In kv acc -> scalar_eqb (fst kv) id = false) ->
  dict_set acc id c = acc ++ [(id, c)].
Proof.
  unfold dict_set. induction acc as [|[k0 v0] rest IH]; intros Hnew; simpl.
  - reflexivity.
  - pose proof (Hnew (k0, v0) (or_introl eq_refl)) as Hhead.
    simpl in Hhead. rewrite Hhead.
    rewrite IH; auto. intros kv Hin. apply Hnew. now right.
Qed.

Lemma distinct_keys_middle (a b : dict) (x : scalar * value) :
  distinct_keys (a ++ x :: b) = true ->
  forall kv, In kv a -> scalar_eqb (fst kv) (fst x) = false.
Proof.
  induction a as [|[k0 v0] a IH]; intros Hd kv Hin; [contradiction|].
  simpl in Hd. apply andb_true_iff in Hd. destruct Hd as [Hhead Htail].
  destruct Hin as [<-|Hin].
  - rewrite forallb_forall in Hhead.
    assert (Hx : In x (a ++ x :: b)) by (apply in_or_app; right; now left).
    specialize (Hhead x Hx).
    simpl. now apply negb_true_iff in Hhead.
  - now apply IH.
Qed.

(** Storing the items of a dict one by one builds the dict again. *)
Lemma rebuild_distinct (items : dict) :
  forall acc,
    distinct_keys (acc ++ items) = true ->
    fold_left (fun a it => dict_set a (fst it) (snd it)) items acc
    = acc ++ items.
Proof.
  induction items as [|[id c] rest IH]; intros acc Hd; simpl.
  - now rewrite app_nil_r.
  - rewrite dict_set_new by (apply (distinct_keys_middle acc rest (id, c) Hd)).
    rewrite IH; rewrite <- app_assoc; auto.
Qed.

Lemma dict_get_distinct (groups : dict) (k : string) (v : value) :
  distinct_keys groups = true -> In (SStr k, v) groups ->
  dict_get groups (SStr k) = Some v.
Proof.
  unfold dict_get.
  induction groups as [|[k0 v0] rest IH]; intros Hd Hin; [contradiction|].
  simpl in Hd. apply andb_true_iff in Hd. destruct Hd as [Hhead Htail].
  simpl. destruct Hin as [Heq|Hin].
  - injection Heq as -> ->. now rewrite scalar_eqb_str_refl.
  - rewrite forallb_forall in Hhead. specialize (Hhead _ Hin).
    apply negb_true_iff in Hhead. simpl in Hhead. rewrite Hhead. auto.
Qed.

Lemma dict_get_In (d : dict) (k : string) (v : value) :
  string_keyed d -> dict_get d (SStr k) = Some v -> In (SStr k, v) d.
Proof.
  unfold string_keyed, dict_get.
  induction 1 as [|[k0 v0] rest Hk Hrest IH]; simpl; [discriminate|].
  destruct (scalar_eqb k0 (SStr k)) eqn:E.
  - intros H. injection H as <-. apply scalar_eqb_str_r in E. subst.
    now left.
  - intros H. right. auto.
Qed.

Lemma record_tree_string_keyed (groups : dict) :
  record_tree groups -> string_keyed groups.
Proof.
  intros [_ Hall]. unfold string_keyed.
  eapply Forall_impl; [|exact Hall].
  intros kv (k & g & -> & _). now exists k.
Qed.

Lemma record_tree_group (groups : dict) (k : string) (v : value) :
  record_tree groups -> In (SStr k, v) groups ->
  dict_get groups (SStr k) = Some v
  /\ exists g, v = VDict g /\ distinct_keys g = true.
Proof.
  intros [Hd Hall] Hin. split; [now apply dict_get_distinct|].
  rewrite Forall_forall in Hall.
  destruct (Hall _ Hin) as (k' & g & Heq & Hg).
  injection Heq as _ ->. now exists g.
Qed.

Section EntryPoint.
Context {L : Libraries}.
Variable sequence_overrides : option dict.

Lemma select_keys_tree (pattern : string) (groups : dict) :
  string_keyed groups ->
  (forall k, re_match pattern k <> None) ->
  select_keys pattern (map (fun kv => Atom (fst kv)) groups)
  = Ok (selected_keys pattern groups).
Proof.
  intros Hkeys Hre.
  induction Hkeys as [|[k0 v0] rest (k & Hk) Hrest IH]; [reflexivity|].
  simpl in Hk. subst k0. cbn [map fst select_keys selected_keys].
  rewrite IH. unfold py_re_match, matches.
  specialize (Hre k).
  destruct (re_match pattern k) as [[|]|]; [reflexivity|reflexivity|].
  now contradiction Hre.
Qed.

Lemma In_selected_keys (pattern : string) (groups : dict) (k : string) :
  In k (selected_keys pattern groups) ->
  matches pattern k = true /\ exists v, In (SStr k, v) groups.
Proof.
  induction groups as [|[k0 v0] rest IH]; simpl; [contradiction|].
  assert (Hrest : In k (selected_keys pattern rest) ->
                  matches pattern k = true
                  /\ exists v, (k0, v0) = (SStr k, v) \/ In (SStr k, v) rest).
  { intros H. destruct (IH H) as (Hm & v & Hin). split; auto.
    exists v. now right. }
  destruct k0 as [| | | |k1]; auto.
  destruct (matches pattern k1) eqn:Hm; auto.
  intros [<-|H]; auto. split; auto. exists v0. now left.
Qed.

Lemma selected_keys_complete (pattern : string) (groups : dict)
      (k : string) (v : value) :
  matches pattern k = true -> In (SStr k, v) groups ->
  In k (selected_keys pattern groups).
Proof.
  intros Hm. induction groups as [|[k0 v0] rest IH]; simpl; [contradiction|].
  intros [Heq|Hin].
  - injection Heq as -> ->. rewrite Hm. now left.
  - destruct k0 as [| | | |k1]; auto.
    destruct (matches pattern k1); [right|]; auto.
Qed.

Lemma existsb_eqb_In (k : string) (keys : list string) :
  existsb (String.eqb k) keys = true <-> In k keys.
Proof.
  rewrite existsb_exists. split.
  - intros (x & Hin & Heq). apply String.eqb_eq in Heq. now subst.
  - intros Hin. exists k. split; auto. apply String.eqb_refl.
Qed.

Section OneTree.
Variable groups : dict.
Hypothesis groups_tree : record_tree groups.

Lemma count_keys_tree (keys : list string) :
  (forall k, In k keys -> exists v, In (SStr k, v) groups) ->
  forall total, exists n, count_keys (VDict groups) keys total = Ok n.
Proof.
  induction keys as [|k rest IH]; intros Hin total; simpl.
  - now exists total.
  - destruct (Hin k (or_introl eq_refl)) as (v & Hv).
    destruct (record_tree_group groups k v groups_tree Hv)
      as (Hget & g & -> & _).
    unfold group_of, dict_get_default. cbn [as_dict res_bind].
    rewrite Hget. cbn [py_len res_bind].
    apply IH. intros k' Hk'. apply Hin. now right.
Qed.

(** The keys a bare rule selects in the tree. *)
Lemma matching_keys_tree (base : string) :
  (forall k, re_match (key_pattern base) k <> None) ->
  matching_keys (VDict groups) base
  = Ok (selected_keys (key_pattern base) groups).
Proof.
  intros Hre. unfold matching_keys. cbn [py_iter res_bind].
  apply select_keys_tree; auto.
  now apply record_tree_string_keyed.
Qed.

Lemma convert_item_bare (content_type : value) (content_key : string)
      (new_data : dict) (item : scalar * value) (st : state) :
  convert_item content_type (VList []) (VDict []) sequence_overrides
               content_key new_data item st
  = (mkState (snd item) (sequence_counters st) (log st),
     Ok (store new_data content_key (fst item) (snd item))).
Proof. destruct item as [content_id content_config_old]. reflexivity. Qed.

Lemma convert_items_bare (content_type : value) (content_key : string)
      (items : list (scalar * value)) :
  forall new_data st,
  exists st',
    convert_items content_type (VList []) (VDict []) sequence_overrides
                  content_key new_data items st
    = (st', Ok (fold_left
                  (fun nd it => store nd content_key (fst it) (snd it))
                  items new_data)).
Proof.
  induction items as [|item rest IH]; intros new_data st.
  - now exists st.
  - cbn [convert_items fold_left]. unfold bind at 1.
    rewrite convert_item_bare. apply IH.
Qed.

Lemma store_fold (content_key : string) (items : list (scalar * value)) :
  forall new_data acc,
    dict_get new_data (SStr content_key) = Some (VDict acc) ->
    let stored := fold_left
                    (fun nd it => store nd content_key (fst it) (snd it))
                    items new_data in
    dict_get stored (SStr content_key)
    = Some (VDict (fold_left (fun a it => dict_set a (fst it) (snd it))
                             items acc))
    /\ (forall k, content_key <> k ->
                  dict_get stored (SStr k) = dict_get new_data (SStr k))
    /\ (string_keyed new_data -> string_keyed stored).
Proof.
  induction items as [|[id c] rest IH]; intros new_data acc Hget; cbv zeta.
  - simpl. auto.
  - cbn [fold_left fst snd].
    assert (Hstore : store new_data content_key id c
                     = dict_set new_data (SStr content_key)
                                (VDict (dict_set acc id c))).
    { unfold store. now rewrite Hget. }
    rewrite Hstore.
    destruct (IH (dict_set new_data (SStr content_key)
                           (VDict (dict_set acc id c)))
                 (dict_set acc id c)) as (Hkey & Hother & Hkeys).
    { apply dict_get_set_same. }
    split; [exact Hkey|split].
    + intros k Hk. rewrite (Hother k Hk). now apply dict_get_set_other.
    + intros Hnd. apply Hkeys. now apply string_keyed_set.
Qed.

Lemma convert_group_bare (content_type : value) (content_key : string)
      (v : value) :
  In (SStr content_key, v) groups ->
  forall new_data st,
  exists st' new_data',
    convert_group (VDict groups) content_type (VList []) (VDict [])
                  sequence_overrides new_data content_key st
    = (st', Ok new_data')
    /\ dict_get new_data' (SStr content_key)
       = dict_get groups (SStr content_key)
    /\ (forall k, content_key <> k ->
                  dict_get new_data' (SStr k) = dict_get new_data (SStr k))
    /\ (string_keyed new_data -> string_keyed new_data').
Proof.
  intros Hin new_data st.
  destruct (record_tree_group groups content_key v groups_tree Hin)
    as (Hget & g & -> & Hg).
  unfold convert_group. unfold bind at 1.
  unfold group_of, dict_get_default. cbn [lift as_dict res_bind].
  rewrite Hget.
  destruct g as [|item rest].
  - cbn [py_truthy negb]. exists st. eexists. split; [reflexivity|].
    split; [|split].
    + apply dict_get_set_same.
    + intros k Hk. now apply dict_get_set_other.
    + apply string_keyed_set.
  - cbn [py_truthy negb]. unfold bind at 1. cbn [lift as_dict].
    destruct (convert_items_bare content_type content_key (item :: rest)
                (dict_set new_data (SStr content_key) (VDict [])) st)
      as (st' & Hrun).
    exists st'. eexists. split; [exact Hrun|].
    destruct (store_fold content_key (item :: rest)
                (dict_set new_data (SStr content_key) (VDict [])) [])
      as (Hkey & Hother & Hkeys).
    { apply dict_get_set_same. }
    split; [|split].
    + rewrite Hkey. now rewrite rebuild_distinct.
    + intros k Hk. rewrite (Hother k Hk). now apply dict_get_set_other.
    + intros Hnd. apply Hkeys. now apply string_keyed_set.
Qed.

Lemma convert_groups_bare (content_type : value) (keys : list string) :
  (forall k, In k keys -> exists v, In (SStr k, v) groups) ->
  forall new_data st,
  exists st' new_data',
    convert_groups (VDict groups) content_type (VList []) (VDict [])
                   sequence_overrides new_data keys st
    = (st', Ok new_data')
    /\ (forall k, dict_get new_data' (SStr k)
                  = if existsb (String.eqb k) keys
                    then dict_get groups (SStr k)
                    else dict_get new_data (SStr k))
    /\ (string_keyed new_data -> string_keyed new_data').
Proof.
  induction keys as [|key rest IH]; intros Hin new_data st.
  - exists st, new_data. simpl. auto.
  - destruct (Hin key (or_introl eq_refl)) as (v & Hv).
    destruct (convert_group_bare content_type key v Hv new_data st)
      as (st1 & nd1 & Hrun1 & Hkey1 & Hother1 & Hkeys1).
    destruct (IH (fun k Hk => Hin k (or_intror Hk)) nd1 st1)
      as (st2 & nd2 & Hrun2 & Hget2 & Hkeys2).
    exists st2, nd2. split; [|split].
    + cbn [convert_groups]. unfold bind at 1. now rewrite Hrun1.
    + intros k. rewrite Hget2. cbn [existsb].
      destruct (existsb (String.eqb k) rest).
      * now rewrite orb_true_r.
      * rewrite orb_false_r. destruct (String.eqb_spec k key) as [->|Hne].
        -- exact Hkey1.
        -- apply Hother1. congruence.
    + auto.
Qed.

Lemma dict_mem_In (k : string) :
  dict_mem groups (SStr k) = true <-> exists v, In (SStr k, v) groups.
Proof.
  unfold dict_mem, assoc_mem. fold (dict_get groups (SStr k)). split.
  - destruct (dict_get groups (SStr k)) as [v|] eqn:Hget; [|discriminate].
    intros _. exists v. apply dict_get_In; auto.
    now apply record_tree_string_keyed.
  - intros (v & Hin).
    destruct groups_tree as [Hd _].
    now rewrite (dict_get_distinct groups k v Hd Hin).
Qed.

Lemma dict_mem_false (k : string) :
  dict_mem groups (SStr k) = false -> dict_get groups (SStr k) = None.
Proof.
  unfold dict_mem, assoc_mem. fold (dict_get groups (SStr k)).
  now destruct (dict_get groups (SStr k)).
Qed.

Hypothesis key_patterns_compile :
  forall base k, re_match (key_pattern base) k <> None.

Lemma count_items_tree (rules : list value) :
  Forall bare_rule rules ->
  forall total, exists n, count_items (VDict groups) rules total = Ok n.
Proof.
  induction 1 as [|rule rest Hrule Hrest IH]; intros total.
  - now exists total.
  - destruct Hrule as (r & ct & -> & Hct & Hne & _ & _).
    cbn [count_items as_dict res_bind]. rewrite Hct.
    rewrite (py_truthy_str ct Hne). cbn [negb content_key_base res_bind].
    rewrite matching_keys_tree by apply key_patterns_compile.
    cbn [res_bind].
    destruct (count_keys_tree
                (selected_keys
                   (key_pattern (if endswith ct "s" then ct
                                 else (ct ++ "s")%string)) groups)
                (fun k Hk => proj2 (In_selected_keys _ groups k Hk)) total)
      as (n & ->).
    cbn [res_bind]. apply IH.
Qed.

Lemma convert_rule_bare (rule : value) :
  bare_rule rule ->
  forall new_data st,
  exists st' new_data',
    convert_rule (VDict groups) sequence_overrides new_data rule st
    = (st', Ok new_data')
    /\ (forall k, dict_get new_data' (SStr k)
                  = if selects rule k && dict_mem groups (SStr k)
                    then dict_get groups (SStr k)
                    else dict_get new_data (SStr k))
    /\ (string_keyed new_data -> string_keyed new_data').
Proof.
  intros (r & ct & -> & Hct & Hne & Hrules & Hctx) new_data st.
  unfold convert_rule. unfold bind at 1. cbn [lift as_dict].
  rewrite Hct, Hrules, Hctx, (py_truthy_str ct Hne). cbn [negb].
  unfold bind at 1. cbn [lift content_key_base].
  unfold bind at 1. cbn [lift].
  rewrite matching_keys_tree by apply key_patterns_compile.
  set (base := if endswith ct "s" then ct else (ct ++ "s")%string).
  destruct (convert_groups_bare (VStr ct)
              (selected_keys (key_pattern base) groups)
              (fun k Hk => proj2 (In_selected_keys _ groups k Hk))
              new_data st)
    as (st' & nd' & Hrun & Hget & Hkeys).
  exists st', nd'. split; [exact Hrun|split; [|exact Hkeys]].
  intros k. rewrite Hget.
  assert (Hsel : existsb (String.eqb k)
                         (selected_keys (key_pattern base) groups)
                 = selects (VDict r) k && dict_mem groups (SStr k)).
  { unfold selects. rewrite Hct. cbn [content_key_base]. fold base.
    apply eq_true_iff_eq.
    rewrite existsb_eqb_In, andb_true_iff, dict_mem_In. split.
    - apply In_selected_keys.
    - intros (Hm & v & Hin). now apply selected_keys_complete with v. }
  now rewrite Hsel.
Qed.

Lemma convert_rules_bare (rules : list value) :
  Forall bare_rule rules ->
  forall new_data st,
  exists st' new_data',
    convert_rules (VDict groups) sequence_overrides new_data rules st
    = (st', Ok new_data')
    /\ (forall k, dict_get new_data' (SStr k)
                  = if existsb (fun rule => selects rule k) rules
                       && dict_mem groups (SStr k)
                    then dict_get groups (SStr k)
                    else dict_get new_data (SStr k))
    /\ (string_keyed new_data -> string_keyed new_data').
Proof.
  induction 1 as [|rule rest Hrule Hrest IH]; intros new_data st.
  - exists st, new_data. simpl. auto.
  - destruct (convert_rule_bare rule Hrule new_data st)
      as (st1 & nd1 & Hrun1 & Hget1 & Hkeys1).
    destruct (IH nd1 st1) as (st2 & nd2 & Hrun2 & Hget2 & Hkeys2).
    exists st2, nd2. split; [|split; [|auto]].
    + cbn [convert_rules]. unfold bind at 1. now rewrite Hrun1.
    + intros k. rewrite Hget2, Hget1. cbn [existsb].
      destruct (selects rule k);
        destruct (existsb (fun rule0 => selects rule0 k) rest);
        destruct (dict_mem groups (SStr k)); reflexivity.
Qed.
End OneTree.

(** C1, as the code has it.  With an empty rule set the
    transformation returns the empty mapping for every input tree: the
    output is built from the groups that top-level rules select, so no
    group, record or field of the input reaches it.  What holds in its
    place: when the rule set consists of top-level rules that only name
    a content type (no context, no nested rules), the output is a
    mapping with string keys that holds, unchanged, exactly the groups
    of the input tree whose key some rule selects. *)
Theorem rule_set_without_nested_rules (old_data : value) :
  convert_single_file old_data (VList []) sequence_overrides
  = Ok (VDict [])
  /\ forall (groups : dict) (rules : list value),
       record_tree groups ->
       Forall bare_rule rules ->
       (forall base k, re_match (key_pattern base) k <> None) ->
       exists new_data,
         convert_single_file (VDict groups) (VList rules) sequence_overrides
         = Ok (VDict new_data)
         /\ string_keyed new_data
         /\ forall k,
              dict_get new_data (SStr k)
              = if existsb (fun rule => selects rule k) rules
                then dict_get groups (SStr k)
                else None.
Proof.
  split; [reflexivity|].
  intros groups rules Htree Hrules Hre.
  destruct (count_items_tree groups Htree Hre rules Hrules 0%nat)
    as (n & Hcount).
  destruct (convert_rules_bare groups Htree Hre rules Hrules []
                               initial_state)
    as (st' & new_data & Hrun & Hget & Hkeys).
  exists new_data. split; [|split].
  - unfold convert_single_file, convert.
    unfold bind at 1. cbn [lift py_iter].
    unfold bind at 1. cbn [lift]. rewrite Hcount.
    unfold bind at 1. rewrite Hrun. reflexivity.
  - apply Hkeys. constructor.
  - intros k. rewrite Hget.
    destruct (dict_mem groups (SStr k)) eqn:Hmem.
    + now rewrite andb_true_r.
    + rewrite andb_false_r, (dict_mem_false groups k Hmem).
      now destruct (existsb (fun rule => selects rule k) rules).
Qed.
End EntryPoint.

(** The rule [{content: item}] alone on a tree with the groups [items]
    and [blocks]: [items] is carried over as it is, [blocks] is not. *)
Lemma rule_set_without_nested_rules_witness :
  let sword := VDict [(SStr "sword", VDict [(SStr "damage", VInt 5)])] in
  let groups := [(SStr "items", sword);
                 (SStr "blocks", VDict [(SStr "stone", VDict [])])] in
  let rules := [VDict [(SStr "content", VStr "item")]] in
  exists new_data,
    @convert_single_file example_libraries (VDict groups) (VList rules) None
    = Ok (VDict new_data)
    /\ dict_get new_data (SStr "items") = Some sword
    /\ dict_get new_data (SStr "blocks") = None.
Proof.
  cbv zeta.
  pose (sword := VDict [(SStr "sword", VDict [(SStr "damage", VInt 5)])]).
  pose (groups := [(SStr "items", sword);
                   (SStr "blocks", VDict [(SStr "stone", VDict [])])]).
  pose (rule := [(SStr "content", VStr "item")]).
  destruct (@rule_set_without_nested_rules example_libraries None VNone)
    as (_ & Hbare).
  destruct (Hbare groups [VDict rule]) as (new_data & Hrun & _ & Hget).
  - split; [reflexivity|].
    repeat constructor.
    + exists "items", [(SStr "sword", VDict [(SStr "damage", VInt 5)])].
      split; reflexivity.
    + exists "blocks", [(SStr "stone", VDict [])]. split; reflexivity.
  - repeat constructor. exists rule, "item".
    repeat split; try reflexivity. discriminate.
  - intros base k. simpl. unfold example_re_match.
    destruct (_ && _); discriminate.
  - exists new_data. split; [exact Hrun|split].
    + apply (Hget "items").
    + apply (Hget "blocks").
Defined.

(** C1 as stated fails: with no rule the tree
    [{"items": {"sword": {"damage": 5}}}] is not returned. *)
Lemma empty_rule_set_is_not_identity :
  ~ (forall (L : Libraries) (old_data : value)
            (sequence_overrides : option dict),
        exists new_data,
          convert_single_file old_data (VList []) sequence_overrides
          = Ok new_data
          /\ py_eqb new_data old_data = true).
Proof.
  intros H.
  destruct (H example_libraries
              (VDict [(SStr "items",
                       VDict [(SStr "sword",
                               VDict [(SStr "damage", VInt 5)])])])
              None) as (new_data & Hrun & Heq).
  vm_compute in Hrun. injection Hrun as <-. discriminate Heq.
Qed.

(** * Further properties of the engine *)

(** ** More on dictionaries *)

Section AssocMore.
Variables (K V : Type) (eqb : K -> K -> bool).

Lemma assoc_get_In (d : list (K * V)) (k : K) (v : V) :
  assoc_get eqb d k = Some v -> exists k', In (k', v) d /\ eqb k' k = true.
Proof.
  induction d as [|[k0 v0] rest IH]; simpl; [discriminate|].
  destruct (eqb k0 k) eqn:E.
  - intros H. injection H as <-. exists k0. auto.
  - intros H. destruct (IH H) as (k' & Hin & Hk). exists k'. auto.
Qed.

Lemma assoc_set_set (d : list (K * V)) (k : K) (v w : V) :
  eqb k k = true ->
  assoc_set eqb (assoc_set eqb d k v) k w = assoc_set eqb d k w.
Proof.
  intros Hrefl. induction d as [|[k0 v0] rest IH]; simpl.
  - now rewrite Hrefl.
  - destruct (eqb k0 k) eqn:E; simpl; rewrite E; [reflexivity|].
    now rewrite IH.
Qed.

Lemma assoc_set_found (d : list (K * V)) (k : K) (v : V) :
  assoc_get eqb d k = Some v -> assoc_set eqb d k v = d.
Proof.
  induction d as [|[k0 v0] rest IH]; simpl; [discriminate|].
  destruct (eqb k0 k).
  - intros H. now injection H as <-.
  - intros H. now rewrite IH.
Qed.

Lemma assoc_del_absent (d : list (K * V)) (k : K) :
  assoc_get eqb d k = None -> assoc_del eqb d k = d.
Proof.
  induction d as [|[k0 v0] rest IH]; simpl; [reflexivity|].
  destruct (eqb k0 k); [discriminate|].
  intros H. now rewrite IH.
Qed.

Lemma assoc_get_del_other (d : list (K * V)) (k k0 : K) :
  (forall x, eqb x k0 = true -> x = k0) ->
  eqb k0 k = false ->
  assoc_get eqb (assoc_del eqb d k) k0 = assoc_get eqb d k0.
Proof.
  intros Hl Hne. induction d as [|[k' v'] rest IH]; simpl; [reflexivity|].
  destruct (eqb k' k) eqn:E; simpl.
  - destruct (eqb k' k0) eqn:E0; auto.
    pose proof (Hl _ E0) as ->. congruence.
  - destruct (eqb k' k0); auto.
Qed.

(** The keys of a dict after a store: the old ones, and the new one
    when no old key equals it. *)
Lemma assoc_set_keys (d : list (K * V)) (k : K) (v : V) (P : K -> bool) :
  P k = true -> forallb (fun kv => P (fst kv)) d = true ->
  forallb (fun kv => P (fst kv)) (assoc_set eqb d k v) = true.
Proof.
  intros Hk. induction d as [|[k0 v0] rest IH]; simpl.
  - now rewrite Hk.
  - intros H. apply andb_true_iff in H. destruct H as [H0 Hrest].
    destruct (eqb k0 k); simpl; rewrite H0; auto.
Qed.

Lemma assoc_del_keys (d : list (K * V)) (k : K) (P : K * V -> bool) :
  forallb P d = true -> forallb P (assoc_del eqb d k) = true.
Proof.
  induction d as [|[k0 v0] rest IH]; simpl; [reflexivity|].
  intros H. apply andb_true_iff in H. destruct H as [H0 Hrest].
  destruct (eqb k0 k); simpl; [assumption|]. rewrite H0. auto.
Qed.

Lemma assoc_set_values (d : list (K * V)) (k : K) (v : V) (P : V -> bool) :
  P v = true -> forallb (fun kv => P (snd kv)) d = true ->
  forallb (fun kv => P (snd kv)) (assoc_set eqb d k v) = true.
Proof.
  intros Hv. induction d as [|[k0 v0] rest IH]; simpl.
  - now rewrite Hv.
  - intros H. apply andb_true_iff in H. destruct H as [H0 Hrest].
    destruct (eqb k0 k); simpl.
    + now rewrite Hv.
    + rewrite H0. auto.
Qed.
End AssocMore.

Lemma distinct_keys_set (d : dict) (k : scalar) (v : value) :
  distinct_keys d = true -> distinct_keys (dict_set d k v) = true.
Proof.
  unfold dict_set. induction d as [|[k0 v0] rest IH]; simpl; [reflexivity|].
  intros H. apply andb_true_iff in H. destruct H as [Hhead Htail].
  destruct (scalar_eqb k0 k) eqn:E; simpl.
  - now rewrite Hhead.
  - rewrite IH by assumption. rewrite andb_true_r.
    apply (assoc_set_keys _ _ scalar_eqb rest k v
             (fun x => negb (scalar_eqb k0 x))); auto.
    now rewrite E.
Qed.

Lemma distinct_keys_del (d : dict) (k : scalar) :
  distinct_keys d = true -> distinct_keys (dict_del d k) = true.
Proof.
  unfold dict_del. induction d as [|[k0 v0] rest IH]; simpl; [reflexivity|].
  intros H. apply andb_true_iff in H. destruct H as [Hhead Htail].
  destruct (scalar_eqb k0 k); simpl; [assumption|].
  rewrite IH by assumption. rewrite andb_true_r.
  now apply assoc_del_keys.
Qed.

Lemma dict_get_del_same (d : dict) (k : string) :
  distinct_keys d = true -> dict_get (dict_del d (SStr k)) (SStr k) = None.
Proof.
  unfold dict_get, dict_del.
  induction d as [|[k0 v0] rest IH]; simpl; [reflexivity|].
  intros H. apply andb_true_iff in H. destruct H as [Hhead Htail].
  destruct (scalar_eqb k0 (SStr k)) eqn:E; simpl.
  - apply scalar_eqb_str_r in E. subst k0. clear IH Htail.
    induction rest as [|[k1 v1] rest IH]; simpl; [reflexivity|].
    simpl in Hhead. apply andb_true_iff in Hhead. destruct Hhead as [H1 Hr].
    apply negb_true_iff in H1.
    destruct (scalar_eqb k1 (SStr k)) eqn:E1.
    + apply scalar_eqb_str_r in E1. subst k1.
      simpl in H1. now rewrite String.eqb_refl in H1.
    + auto.
  - rewrite E. auto.
Qed.

Lemma dict_get_del_other (d : dict) (k k' : string) :
  k <> k' ->
  dict_get (dict_del d (SStr k)) (SStr k') = dict_get d (SStr k').
Proof.
  intros Hne. apply assoc_get_del_other.
  - intros x. apply scalar_eqb_str_r.
  - simpl. apply String.eqb_neq. congruence.
Qed.

Lemma dict_set_set (d : dict) (k : string) (v w : value) :
  dict_set (dict_set d (SStr k) v) (SStr k) w = dict_set d (SStr k) w.
Proof. apply assoc_set_set, scalar_eqb_str_refl. Qed.

Lemma well_formed_dict (d : dict) :
  well_formed (VDict d) = true ->
  distinct_keys d = true
  /\ forallb (fun kv => well_formed (snd kv)) d = true.
Proof. simpl. intros H. now apply andb_true_iff in H. Qed.

Lemma well_formed_child (d : dict) (k : scalar) (c : value) :
  well_formed (VDict d) = true -> dict_get d k = Some c ->
  well_formed c = true.
Proof.
  intros Hd Hget. apply well_formed_dict in Hd. destruct Hd as [_ Hall].
  apply assoc_get_In in Hget. destruct Hget as (k' & Hin & _).
  rewrite forallb_forall in Hall. exact (Hall _ Hin).
Qed.

Lemma well_formed_set (d : dict) (k : scalar) (v : value) :
  well_formed (VDict d) = true -> well_formed v = true ->
  well_formed (VDict (dict_set d k v)) = true.
Proof.
  intros Hd Hv. apply well_formed_dict in Hd. destruct Hd as [Hkeys Hall].
  cbn [well_formed]. apply andb_true_iff. split.
  - now apply distinct_keys_set.
  - now apply (assoc_set_values _ _ scalar_eqb d k v well_formed).
Qed.

Lemma well_formed_del (d : dict) (k : scalar) :
  well_formed (VDict d) = true ->
  well_formed (VDict (dict_del d k)) = true.
Proof.
  intros Hd. apply well_formed_dict in Hd. destruct Hd as [Hkeys Hall].
  cbn [well_formed]. apply andb_true_iff. split.
  - now apply distinct_keys_del.
  - now apply assoc_del_keys.
Qed.

(** ** Deleting and writing again *)

Lemma delete_parts_cons (current : value) (part : string)
      (rest : list string) :
  rest <> [] ->
  delete_parts current (part :: rest)
  = match current with
    | VDict d =>
        match dict_get d (SStr part) with
        | Some child =>
            VDict (dict_set d (SStr part) (delete_parts child rest))
        | None => current
        end
    | _ => current
    end.
Proof. intros Hne. destruct rest; [congruence|reflexivity]. Qed.

Lemma delete_parts_absent (parts : list string) :
  forall data, has_parts data parts = false -> delete_parts data parts = data.
Proof.
  induction parts as [|part rest IH]; intros data Habs; [discriminate|].
  destruct rest as [|part' rest'].
  - simpl in *. destruct data as [a|l|d]; auto.
    destruct (dict_get d (SStr part)) eqn:Hget; [discriminate|].
    unfold dict_del. now rewrite assoc_del_absent.
  - rewrite delete_parts_cons by discriminate.
    cbn [has_parts] in Habs. destruct data as [a|l|d]; auto.
    destruct (dict_get d (SStr part)) as [child|] eqn:Hget; auto.
    rewrite (IH child Habs). unfold dict_set. now rewrite assoc_set_found.
Qed.

Lemma delete_parts_removes (parts : list string) :
  forall data,
    well_formed data = true -> parts <> [] ->
    has_parts (delete_parts data parts) parts = false
    /\ well_formed (delete_parts data parts) = true.
Proof.
  induction parts as [|part rest IH]; intros data Hwf Hne; [congruence|].
  destruct rest as [|part' rest'].
  - simpl. destruct data as [a|l|d]; auto. split.
    + apply well_formed_dict in Hwf. destruct Hwf as [Hkeys _].
      now rewrite dict_get_del_same.
    + now apply well_formed_del.
  - rewrite delete_parts_cons by discriminate.
    destruct data as [a|l|d]; auto.
    destruct (dict_get d (SStr part)) as [child|] eqn:Hget.
    + destruct (IH child (well_formed_child d _ child Hwf Hget))
        as [Hgone Hchild]; [discriminate|].
      split.
      * cbn [has_parts]. now rewrite dict_get_set_same.
      * now apply well_formed_set.
    + split; [|assumption]. cbn [has_parts]. now rewrite Hget.
Qed.

Lemma set_parts_set_parts (p : list string) :
  forall d v w, set_parts (set_parts d p v) p w = set_parts d p w.
Proof.
  induction p as [|x p' IH]; intros d v w; [reflexivity|].
  destruct p' as [|x' p''].
  - simpl. apply dict_set_set.
  - rewrite !set_parts_cons by discriminate.
    rewrite dict_get_set_same. cbn [mapping_or_empty].
    rewrite IH, dict_set_set.
    now rewrite (set_parts_cons x (x' :: p'') d w) by discriminate.
Qed.

Lemma set_parts_well_formed (p : list string) :
  forall d v,
    well_formed (VDict d) = true -> well_formed v = true ->
    well_formed (VDict (set_parts d p v)) = true.
Proof.
  induction p as [|x p' IH]; intros d v Hd Hv; [assumption|].
  destruct p' as [|x' p''].
  - now apply well_formed_set.
  - rewrite set_parts_cons by discriminate.
    apply well_formed_set; [assumption|]. apply IH; [|assumption].
    destruct (dict_get d (SStr x)) as [[a|l|c]|] eqn:Hget; try reflexivity.
    exact (well_formed_child d _ _ Hd Hget).
Qed.

Lemma well_formed_get_parts (parts : list string) :
  forall data, well_formed data = true ->
               well_formed (get_parts data parts) = true.
Proof.
  induction parts as [|part rest IH]; intros data Hwf; [assumption|].
  simpl. destruct data as [a|l|d]; auto.
  destruct (dict_get d (SStr part)) as [child|] eqn:Hget; auto.
  apply IH. exact (well_formed_child d _ _ Hwf Hget).
Qed.

(** X1.  Deleting at a path that is not present changes nothing: not
    when a segment is missing, not when the way leads through a value
    that is no mapping. *)
Theorem delete_absent_path_unchanged (data : value) (path : string) :
  has_parts data (split_on "." path) = false ->
  delete_nested_value data (VStr path) = Ok data.
Proof.
  intros Habs. unfold delete_nested_value. simpl.
  now rewrite delete_parts_absent.
Qed.

(** [{"a": {"b": 1}}] has no [a.c] and no [a.b.c]. *)
Lemma delete_absent_path_unchanged_witness :
  let data := VDict [(SStr "a", VDict [(SStr "b", VInt 1)])] in
  delete_nested_value data (VStr "a.c") = Ok data
  /\ delete_nested_value data (VStr "a.b.c") = Ok data.
Proof.
  cbv zeta. split; apply delete_absent_path_unchanged; reflexivity.
Defined.

(** X2.  After a delete the path is not present, also when the field
    held null, and the getter reads no value there; the dicts keep
    their keys distinct. *)
Theorem delete_removes_field (data : value) (path : string) :
  well_formed data = true ->
  exists data',
    delete_nested_value data (VStr path) = Ok data'
    /\ has_parts data' (split_on "." path) = false
    /\ get_nested_value data' (VStr path) = Ok VNone
    /\ well_formed data' = true.
Proof.
  intros Hwf. exists (delete_parts data (split_on "." path)).
  destruct (delete_parts_removes (split_on "." path) data Hwf
              (split_on_not_nil _ _)) as [Hgone Hwf'].
  split; [reflexivity|split; [exact Hgone|split; [|exact Hwf']]].
  unfold get_nested_value. simpl. f_equal.
  now apply has_parts_false_get_parts.
Qed.

(** Deleting the null field [a.b] of [{"a": {"b": null, "c": 1}}]. *)
Lemma delete_removes_field_witness :
  exists data',
    delete_nested_value
      (VDict [(SStr "a", VDict [(SStr "b", VNone); (SStr "c", VInt 1)])])
      (VStr "a.b") = Ok data'
    /\ has_parts data' ["a"; "b"] = false.
Proof.
  destruct (delete_removes_field
              (VDict [(SStr "a",
                       VDict [(SStr "b", VNone); (SStr "c", VInt 1)])])
              "a.b" eq_refl) as (data' & Hdel & Hgone & _).
  exists data'. split; [exact Hdel|exact Hgone].
Defined.

(** X4.  Two writes at one path amount to the second one: the record is
    the same, key order included, as if the first had not happened. *)
Theorem set_last_write_wins (d : dict) (path : string) (v w : value) :
  exists once twice,
    set_nested_value (VDict d) (VStr path) v = Ok once
    /\ set_nested_value once (VStr path) w = Ok twice
    /\ set_nested_value (VDict d) (VStr path) w = Ok twice.
Proof.
  exists (VDict (set_parts d (split_on "." path) v)),
         (VDict (set_parts d (split_on "." path) w)).
  split; [reflexivity|split; [|reflexivity]].
  unfold set_nested_value. simpl. now rewrite set_parts_set_parts.
Qed.

(** X5.  A write keeps the keys of every dict distinct: in a record
    whose dicts have distinct keys, writing a value whose dicts have
    distinct keys gives such a record again. *)
Theorem set_keeps_well_formed (d : dict) (path : string) (v : value) :
  well_formed (VDict d) = true -> well_formed v = true ->
  exists written,
    set_nested_value (VDict d) (VStr path) v = Ok written
    /\ well_formed written = true.
Proof.
  intros Hd Hv. eexists. split; [reflexivity|].
  now apply set_parts_well_formed.
Qed.

(** Writing [{"x": 1}] at [a.b] into [{"a": 5, "k": 1}]. *)
Lemma set_keeps_well_formed_witness :
  exists written,
    set_nested_value (VDict [(SStr "a", VInt 5); (SStr "k", VInt 1)])
                     (VStr "a.b") (VDict [(SStr "x", VInt 1)]) = Ok written
    /\ well_formed written = true.
Proof.
  exact (set_keeps_well_formed [(SStr "a", VInt 5); (SStr "k", VInt 1)]
           "a.b" (VDict [(SStr "x", VInt 1)]) eq_refl eq_refl).
Defined.

(** ** Renaming and prepending *)

(** X6.  A rename whose source reads as no value (missing, or null)
    leaves the record and the counters as they are.  Otherwise it
    succeeds, the counters are not touched, and the getter then finds
    no value at the source path, whatever the target path is: a rename
    of a path onto itself loses the value. *)
Theorem rename_moves_field (st : state) (d : dict)
        (old_path new_path : string) :
  content_config st = VDict d ->
  well_formed (VDict d) = true ->
  let v := get_parts (VDict d) (split_on "." old_path) in
  let run := rename_body (SStr old_path, VStr new_path) st in
  snd run = Ok tt
  /\ sequence_counters (fst run) = sequence_counters st
  /\ (v = VNone -> content_config (fst run) = VDict d)
  /\ (v <> VNone ->
      get_nested_value (content_config (fst run)) (VStr old_path)
      = Ok VNone).
Proof.
  intros Hd Hwf v run.
  assert (Hrun : run
                 = if is_None v then (st, Ok tt)
                   else (mkState
                           (delete_parts
                              (VDict (set_parts d (split_on "." new_path) v))
                              (split_on "." old_path))
                           (sequence_counters st) (log st), Ok tt)).
  { unfold run, rename_body. unfold bind at 1.
    rewrite get_in_config_str, Hd. fold v.
    destruct (is_None v); [reflexivity|].
    unfold bind. rewrite (set_in_config_dict st d new_path v Hd).
    now rewrite delete_in_config_str. }
  rewrite Hrun. split; [|split; [|split]].
  - now destruct (is_None v).
  - now destruct (is_None v).
  - intros ->. exact Hd.
  - intros Hv. rewrite (is_None_false v Hv). cbn [fst content_config].
    unfold get_nested_value. simpl. f_equal.
    apply has_parts_false_get_parts.
    apply delete_parts_removes; [|apply split_on_not_nil].
    apply set_parts_well_formed; [assumption|].
    now apply well_formed_get_parts.
Qed.

(** In [{"damage": 5}]: [power] is missing; [damage] moved to
    [stats.dmg] is gone from [damage]; [damage] renamed to [damage] is
    lost. *)
Lemma rename_moves_field_witness :
  let d := [(SStr "damage", VInt 5)] in
  let st := mkState (VDict d) [] [] in
  content_config (fst (rename_body (SStr "power", VStr "stats.pow") st))
  = VDict d
  /\ get_nested_value
       (content_config (fst (rename_body (SStr "damage", VStr "stats.dmg") st)))
       (VStr "damage") = Ok VNone
  /\ get_nested_value
       (content_config (fst (rename_body (SStr "damage", VStr "damage") st)))
       (VStr "damage") = Ok VNone.
Proof.
  cbv zeta.
  pose (d := [(SStr "damage", VInt 5)]).
  pose (st := mkState (VDict d) [] []).
  split; [|split].
  - apply (rename_moves_field st d "power" "stats.pow" eq_refl eq_refl).
    reflexivity.
  - apply (rename_moves_field st d "damage" "stats.dmg" eq_refl eq_refl).
    discriminate.
  - apply (rename_moves_field st d "damage" "damage" eq_refl eq_refl).
    discriminate.
Defined.

(** X7.  A [prepend] at a path: where the getter finds no value the
    record then holds the added values, in order; where it finds a
    sequence the added values come first, in order, before its
    elements; where it finds anything else the record and the counters
    stay as they are and a warning is logged.  A prepend after an
    append therefore frames the old elements. *)
Theorem prepend_puts_first (st : state) (d : dict) (p : string)
        (elements_to_add : value) :
  content_config st = VDict d ->
  let parts := split_on "." p in
  let added := as_elements elements_to_add in
  let prepend := extend_body KPrepend (fun l new => new ++ l) in
  let result := prepend (SStr p, elements_to_add) st in
  (get_parts (VDict d) parts = VNone ->
   snd result = Ok tt
   /\ get_parts (content_config (fst result)) parts = VList added)
  /\ (forall l, get_parts (VDict d) parts = VList l ->
      snd result = Ok tt
      /\ get_parts (content_config (fst result)) parts = VList (added ++ l))
  /\ (is_None (get_parts (VDict d) parts) = false ->
      is_list (get_parts (VDict d) parts) = false ->
      result = (mkState (VDict d) (sequence_counters st)
                        (log st ++ [NotAList KPrepend (SStr p)]), Ok tt))
  /\ (forall l appended,
         get_parts (VDict d) parts = VList l ->
         let after_append :=
           fst (extend_body KAppend (fun l new => l ++ new)
                            (SStr p, appended) st) in
         get_parts
           (content_config (fst (prepend (SStr p, elements_to_add)
                                         after_append))) parts
         = VList (added ++ l ++ as_elements appended)).
Proof.
  intros Hd parts added prepend result.
  assert (Hparts : parts <> []) by apply split_on_not_nil.
  pose proof (extend_body_run KPrepend (fun l new => new ++ l) st d p
                elements_to_add Hd) as Hres.
  cbv zeta in Hres. fold parts prepend result added in Hres.
  split; [|split; [|split]].
  - intros Hv. rewrite Hres, Hv. simpl. split; [reflexivity|].
    rewrite get_set_parts by assumption. now rewrite app_nil_r.
  - intros l Hv. rewrite Hres, Hv. simpl. split; [reflexivity|].
    now apply get_set_parts.
  - intros Hnone Hlist. rewrite Hres.
    destruct (get_parts (VDict d) parts) as [[| | | |]| |];
      try reflexivity; discriminate.
  - intros l appended Hv after_append.
    assert (Hafter : after_append
                     = mkState (VDict (set_parts d parts
                                  (VList (l ++ as_elements appended))))
                               (sequence_counters st) (log st)).
    { unfold after_append.
      rewrite (extend_body_run KAppend (fun l new => l ++ new) st d p
                 appended Hd).
      cbv zeta. fold parts. now rewrite Hv. }
    unfold prepend.
    rewrite (extend_body_run KPrepend (fun l new => new ++ l) after_append
               (set_parts d parts (VList (l ++ as_elements appended))) p
               elements_to_add) by (now rewrite Hafter).
    cbv zeta. fold parts. rewrite get_set_parts by assumption.
    cbn [fst content_config]. now apply get_set_parts.
Qed.

(** Prepending to [{"tags": ["rare"], "id": "x"}]. *)
Lemma prepend_puts_first_witness :
  let d := [(SStr "tags", VList [VStr "rare"]); (SStr "id", VStr "x")] in
  let st := mkState (VDict d) [] [] in
  let run p e := extend_body KPrepend (fun l new => new ++ l) (SStr p, e) st in
  get_parts (content_config (fst (run "lore" (VStr "old")))) ["lore"]
  = VList [VStr "old"]
  /\ get_parts
       (content_config (fst (run "tags" (VList [VStr "epic"; VStr "new"]))))
       ["tags"]
     = VList [VStr "epic"; VStr "new"; VStr "rare"]
  /\ run "id" (VStr "y")
     = (mkState (VDict d) [] [NotAList KPrepend (SStr "id")], Ok tt).
Proof.
  cbv zeta.
  pose (d := [(SStr "tags", VList [VStr "rare"]); (SStr "id", VStr "x")]).
  pose (st := mkState (VDict d) [] []).
  split; [|split].
  - exact (proj2 (proj1 (prepend_puts_first st d "lore" (VStr "old") eq_refl)
                        eq_refl)).
  - exact (proj2 (proj1 (proj2 (prepend_puts_first st d "tags"
                                  (VList [VStr "epic"; VStr "new"]) eq_refl))
                        [VStr "rare"] eq_refl)).
  - exact (proj1 (proj2 (proj2 (prepend_puts_first st d "id" (VStr "y")
                                  eq_refl)))
                 eq_refl eq_refl).
Defined.

(** ** What the actions do to the counters *)

Section CounterProperties.
Context {L : Libraries}.

(** X8.  Whatever the action block, the context and the outcome
    (return or exception), [apply_actions] never removes a sequence
    counter: a key that has a counter before has one afterwards. *)
Theorem actions_never_drop_counters (actions : value) (context : dict)
        (rule_name : value) (sequence_overrides : option dict) (st : state)
        (k : counter_key) :
  assoc_mem counter_key_eqb (sequence_counters st) k = true ->
  assoc_mem counter_key_eqb
    (sequence_counters
       (fst (apply_actions actions context rule_name sequence_overrides st)))
    k = true.
Proof.
  revert k.
  apply (preserves_apply_actions counters_persist).
  - intros s0 k H. exact H.
  - exact counters_persist_trans.
  - intros s0 c k H. exact H.
  - intros s0 l k H. exact H.
  - intros s0 k0 v k. apply assoc_mem_set.
Qed.

(** X9.  An action block without [sequence] leaves the sequence
    counters exactly as they are, whatever else it holds and whether it
    returns or raises: only sequence actions count. *)
Theorem only_sequence_counts (acts context : dict) (rule_name : value)
        (sequence_overrides : option dict) (st : state) :
  dict_get acts (SStr "sequence") = None ->
  sequence_counters
    (fst (apply_actions (VDict acts) context rule_name sequence_overrides
                        st))
  = sequence_counters st.
Proof.
  intros Hnone. unfold apply_actions. unfold bind at 1. cbn [lift as_dict].
  destruct (py_truthy _); [reflexivity|].
  apply (preserves_phases_then same_counters).
  - intros s0. reflexivity.
  - exact same_counters_trans.
  - intros s0 c. reflexivity.
  - intros s0 l. reflexivity.
  - unfold sequence_phase. rewrite Hnone. intros s0. reflexivity.
Qed.
End CounterProperties.

(** A block that sets and deletes, run with one counter standing at 7:
    the counter is still there, and still 7. *)
Lemma only_sequence_counts_witness :
  let acts := [(SStr "set", VDict [(SStr "a", VInt 1)]);
               (SStr "delete", VList [VStr "b"])] in
  let st := mkState (VDict [(SStr "b", VInt 0)])
                    [(SharedKey "shared_id_x", VInt 7)] [] in
  sequence_counters
    (fst (@apply_actions example_libraries (VDict acts) [] (VStr "r") None st))
  = [(SharedKey "shared_id_x", VInt 7)].
Proof.
  cbv zeta.
  exact (@only_sequence_counts example_libraries
           [(SStr "set", VDict [(SStr "a", VInt 1)]);
            (SStr "delete", VList [VStr "b"])] [] (VStr "r") None
           (mkState (VDict [(SStr "b", VInt 0)])
                    [(SharedKey "shared_id_x", VInt 7)] []) eq_refl).
Defined.

(** A sequence action on another key, run with the counter of [x]
    standing: the counter of [x] is still there. *)
Lemma actions_never_drop_counters_witness :
  let acts := VDict [(SStr "sequence",
                      VDict [(SStr "n", VDict [(SStr "id", VStr "y")])])] in
  let st := mkState (VDict []) [(SharedKey "shared_id_x", VInt 7)] [] in
  assoc_mem counter_key_eqb
    (sequence_counters
       (fst (@apply_actions example_libraries acts [] (VStr "r") None st)))
    (SharedKey "shared_id_x") = true.
Proof.
  cbv zeta.
  exact (@actions_never_drop_counters example_libraries
           (VDict [(SStr "sequence",
                    VDict [(SStr "n", VDict [(SStr "id", VStr "y")])])])
           [] (VStr "r") None
           (mkState (VDict []) [(SharedKey "shared_id_x", VInt 7)] [])
           (SharedKey "shared_id_x") eq_refl).
Defined.

(** ** More on conditions *)

Section MoreConditions.
Context {L : Libraries}.

(** X10.  A condition whose only clauses are [min] and [max], with
    integer bounds, on a field holding an integer (or a boolean, which
    counts as 0 or 1), passes exactly when the value lies between the
    bounds, both included; a missing bound does not limit.  On a field
    holding anything else it fails.  A bound that is no number does
    not fail the condition when it is compared: a [min] that is no
    number raises [TypeError] on every number; a [max] that is no
    number raises [TypeError] when there is no [min] or the number is
    not below the [min], and is not looked at when the number is below
    the [min], where the condition fails. *)
Theorem range_condition (item_config condition : value)
        (context pc : dict) (p : string) :
  process_placeholders condition context = Ok (VDict pc) ->
  dict_get pc (SStr "path") = Some (VStr p) ->
  p <> "" ->
  dict_get pc (SStr "exists") = None ->
  dict_get pc (SStr "value") = None ->
  dict_get pc (SStr "regex_match") = None ->
  let value_at_path := get_parts item_config (split_on "." p) in
  let outcome := evaluate_condition item_config condition context in
  (forall (x : Z) (lo hi : option Z),
      value_number value_at_path = Some (NInt x) ->
      dict_get pc (SStr "min") = option_map (fun z => VInt z) lo ->
      dict_get pc (SStr "max") = option_map (fun z => VInt z) hi ->
      outcome = Ok (match lo with Some l => (l <=? x)%Z | None => true end
                    && match hi with Some h => (x <=? h)%Z | None => true end))
  /\ (value_number value_at_path = None ->
      needs_value pc = true ->
      outcome = Ok false)
  /\ (forall (x : number) (bound : value),
         value_number value_at_path = Some x ->
         dict_get pc (SStr "min") = Some bound ->
         value_number bound = None ->
         outcome = Raise TypeError)
  /\ (forall (x : number) (bound : value),
         value_number value_at_path = Some x ->
         dict_get pc (SStr "max") = Some bound ->
         value_number bound = None ->
         (dict_get pc (SStr "min") = None
          \/ exists lo y, dict_get pc (SStr "min") = Some lo
                          /\ value_number lo = Some y
                          /\ number_ltb x y = false) ->
         outcome = Raise TypeError)
  /\ (forall (x y : number) (lo : value),
         value_number value_at_path = Some x ->
         dict_get pc (SStr "min") = Some lo ->
         value_number lo = Some y ->
         number_ltb x y = true ->
         outcome = Ok false).
Proof.
  intros Hpc Hpath Hp Hex Hval Hre value_at_path outcome.
  assert (Hout : outcome = _)
    by apply (evaluate_condition_at item_config _ _ _ _ Hpc Hpath Hp).
  cbv zeta in Hout. fold value_at_path in Hout.
  unfold exists_fails, value_fails, regex_fails in Hout.
  rewrite Hex, Hval, Hre in Hout. cbn [res_bind] in Hout.
  assert (Hnum : forall x, value_number value_at_path = Some x ->
                           is_None value_at_path = false).
  { intros x Hx. destruct value_at_path as [[| | | |]| |];
      try reflexivity; discriminate Hx. }
  split; [|split; [|split; [|split]]].
  - intros x lo hi Hx Hmin Hmax.
    rewrite Hout, (Hnum _ Hx). cbn [andb].
    unfold range_fails. rewrite Hmin, Hmax, Hx.
    destruct lo as [l|], hi as [h|];
      cbn [option_map py_lt py_gt as_number res_bind];
      unfold number_ltb, number_gtb; cbn [number_compare];
      rewrite ?Z.leb_compare; try rewrite (Z.compare_antisym x l);
      repeat match goal with
             | |- context [(?a ?= ?b)%Z] => destruct (a ?= b)%Z
             end; reflexivity.
  - intros Hnot Hneeds. rewrite Hout, Hneeds, andb_true_r.
    destruct (is_None value_at_path); [reflexivity|].
    unfold range_fails. unfold needs_value, dict_mem, assoc_mem in Hneeds.
    unfold dict_get in *. rewrite Hval, Hre in Hneeds. cbn [orb] in Hneeds.
    rewrite Hnot.
    destruct (assoc_get scalar_eqb pc (SStr "min"));
      destruct (assoc_get scalar_eqb pc (SStr "max"));
      try reflexivity; discriminate.
  - intros x bound Hx Hmin Hbound.
    rewrite Hout, (Hnum _ Hx). cbn [andb].
    unfold range_fails. rewrite Hmin, Hx.
    destruct bound as [b| |]; cbn [py_lt res_bind];
      [|now destruct (dict_get pc (SStr "max"))..].
    cbn [value_number] in Hbound. rewrite Hbound.
    now destruct (dict_get pc (SStr "max")).
  - intros x bound Hx Hmax Hbound Hmin.
    rewrite Hout, (Hnum _ Hx). cbn [andb].
    unfold range_fails. rewrite Hmax, Hx.
    assert (Hgt : py_gt x bound = Raise TypeError).
    { destruct bound as [b| |]; try reflexivity.
      cbn [value_number] in Hbound. cbn [py_gt]. now rewrite Hbound. }
    destruct Hmin as [Hmin|(lo & y & Hmin & Hlo & Hlt)]; rewrite Hmin.
    + cbn [res_bind]. now rewrite Hgt.
    + destruct lo as [b| |]; try discriminate. cbn [value_number] in Hlo.
      cbn [py_lt]. rewrite Hlo, Hlt. cbn [res_bind]. now rewrite Hgt.
  - intros x y lo Hx Hmin Hlo Hlt.
    rewrite Hout, (Hnum _ Hx). cbn [andb].
    unfold range_fails. rewrite Hmin, Hx.
    destruct lo as [b| |]; try discriminate. cbn [value_number] in Hlo.
    cbn [py_lt]. rewrite Hlo, Hlt. reflexivity.
Qed.

(** X11.  A condition whose only clause is [exists]: with [true] it
    passes exactly when the getter finds a value that is not null; with
    a value that is neither the boolean [true] nor the boolean [false]
    (say [1] or ["yes"]) the clause is not applied and the condition
    passes on every record. *)
Theorem exists_honours_booleans_only (item_config condition : value)
        (context pc : dict) (p : string) (e : value) :
  process_placeholders condition context = Ok (VDict pc) ->
  dict_get pc (SStr "path") = Some (VStr p) ->
  p <> "" ->
  dict_get pc (SStr "exists") = Some e ->
  needs_value pc = false ->
  evaluate_condition item_config condition context
  = Ok (if is_True e
        then negb (is_None (get_parts item_config (split_on "." p)))
        else if is_False e
             then is_None (get_parts item_config (split_on "." p))
             else true).
Proof.
  intros Hpc Hpath Hp Hex Hneeds.
  rewrite (evaluate_condition_at item_config _ _ _ _ Hpc Hpath Hp).
  cbv zeta. rewrite Hneeds, andb_false_r.
  unfold exists_fails. rewrite Hex.
  unfold needs_value, dict_mem, assoc_mem in Hneeds.
  unfold value_fails, regex_fails, range_fails, dict_get.
  destruct (assoc_get scalar_eqb pc (SStr "value")); [discriminate|].
  destruct (assoc_get scalar_eqb pc (SStr "regex_match")); [discriminate|].
  destruct (assoc_get scalar_eqb pc (SStr "min")); [discriminate|].
  destruct (assoc_get scalar_eqb pc (SStr "max")); [discriminate|].
  cbn [res_bind].
  destruct (is_True e) eqn:Ht, (is_False e) eqn:Hf,
    (is_None (get_parts item_config (split_on "." p))); try reflexivity;
    destruct e as [[|[|]| | |]| |]; discriminate.
Qed.

(** X12.  The conditions of a rule are tried in order on the record as
    it stands; the record, the counters and the log are not changed.
    All passing gives true.  The first condition that does not pass
    settles the result, false or its exception, and the conditions
    after it are not evaluated, whatever they are. *)
Theorem conditions_stop_at_first_failure (passed later : list value)
        (context : dict) (st : state) :
  (forall c, In c passed ->
             evaluate_condition (content_config st) c context = Ok true) ->
  conditions_hold passed context st = (st, Ok true)
  /\ forall c,
       evaluate_condition (content_config st) c context <> Ok true ->
       conditions_hold (passed ++ c :: later) context st
       = (st, match evaluate_condition (content_config st) c context with
              | Ok _ => Ok false
              | Raise e => Raise e
              end).
Proof.
  induction passed as [|c0 rest IH]; intros Hpassed.
  - split; [reflexivity|]. intros c Hc. cbn [app conditions_hold].
    unfold bind, get_config, lift.
    destruct (evaluate_condition (content_config st) c context)
      as [[|]|e]; try reflexivity. congruence.
  - destruct IH as [Hall Hfirst].
    { intros c Hc. apply Hpassed. now right. }
    assert (H0 : conditions_hold (c0 :: rest) context st
                 = conditions_hold rest context st).
    { cbn [conditions_hold]. unfold bind at 1. cbn [get_config].
      unfold bind at 1. cbn [lift].
      now rewrite (Hpassed c0 (or_introl eq_refl)). }
    split.
    + now rewrite H0.
    + intros c Hc. cbn [app conditions_hold].
      unfold bind at 1. cbn [get_config]. unfold bind at 1. cbn [lift].
      rewrite (Hpassed c0 (or_introl eq_refl)). now apply Hfirst.
Qed.
End MoreConditions.

(** [{path: damage, min: 3, max: 5}] on damage 5, 6 and "high";
    [min: "low"] on damage 5; [{min: 3, max: "high"}] on damage 5 and
    on damage 1. *)
Lemma range_condition_witness :
  let condition := VDict [(SStr "path", VStr "damage");
                          (SStr "min", VInt 3); (SStr "max", VInt 5)] in
  let record v := VDict [(SStr "damage", v)] in
  @evaluate_condition example_libraries (record (VInt 5)) condition []
  = Ok true
  /\ @evaluate_condition example_libraries (record (VInt 6)) condition []
     = Ok false
  /\ @evaluate_condition example_libraries (record (VStr "high")) condition []
     = Ok false
  /\ @evaluate_condition example_libraries (record (VInt 5))
       (VDict [(SStr "path", VStr "damage"); (SStr "min", VStr "low")]) []
     = Raise TypeError
  /\ @evaluate_condition example_libraries (record (VInt 5))
       (VDict [(SStr "path", VStr "damage"); (SStr "min", VInt 3);
               (SStr "max", VStr "high")]) []
     = Raise TypeError
  /\ @evaluate_condition example_libraries (record (VInt 1))
       (VDict [(SStr "path", VStr "damage"); (SStr "min", VInt 3);
               (SStr "max", VStr "high")]) []
     = Ok false.
Proof.
  cbv zeta.
  pose (mixed := [(SStr "path", VStr "damage"); (SStr "min", VInt 3);
                  (SStr "max", VStr "high")]).
  pose (pc := [(SStr "path", VStr "damage");
               (SStr "min", VInt 3); (SStr "max", VInt 5)]).
  assert (Hp : "damage" <> "") by discriminate.
  split; [|split; [|split; [|split; [|split]]]].
  - exact (proj1 (@range_condition example_libraries
                    (VDict [(SStr "damage", VInt 5)]) (VDict pc) [] pc
                    "damage" eq_refl eq_refl Hp eq_refl eq_refl eq_refl)
                 5%Z (Some 3%Z) (Some 5%Z) eq_refl eq_refl eq_refl).
  - exact (proj1 (@range_condition example_libraries
                    (VDict [(SStr "damage", VInt 6)]) (VDict pc) [] pc
                    "damage" eq_refl eq_refl Hp eq_refl eq_refl eq_refl)
                 6%Z (Some 3%Z) (Some 5%Z) eq_refl eq_refl eq_refl).
  - exact (proj1 (proj2 (@range_condition example_libraries
                    (VDict [(SStr "damage", VStr "high")]) (VDict pc) [] pc
                    "damage" eq_refl eq_refl Hp eq_refl eq_refl eq_refl))
                 eq_refl eq_refl).
  - exact (proj1 (proj2 (proj2 (@range_condition example_libraries
                    (VDict [(SStr "damage", VInt 5)])
                    (VDict [(SStr "path", VStr "damage");
                            (SStr "min", VStr "low")]) []
                    [(SStr "path", VStr "damage"); (SStr "min", VStr "low")]
                    "damage" eq_refl eq_refl Hp eq_refl eq_refl eq_refl)))
                 (NInt 5) (VStr "low") eq_refl eq_refl eq_refl).
  - refine (proj1 (proj2 (proj2 (proj2 (@range_condition example_libraries
                    (VDict [(SStr "damage", VInt 5)]) (VDict mixed) [] mixed
                    "damage" eq_refl eq_refl Hp eq_refl eq_refl eq_refl))))
                  (NInt 5) (VStr "high") eq_refl eq_refl eq_refl _).
    right. exists (VInt 3), (NInt 3). repeat split.
  - exact (proj2 (proj2 (proj2 (proj2 (@range_condition example_libraries
                    (VDict [(SStr "damage", VInt 1)]) (VDict mixed) [] mixed
                    "damage" eq_refl eq_refl Hp eq_refl eq_refl eq_refl))))
                 (NInt 1) (NInt 3) (VInt 3) eq_refl eq_refl eq_refl eq_refl).
Defined.

(** [exists: true] on a null field, and [exists: 1] on a missing one. *)
Lemma exists_honours_booleans_only_witness :
  @evaluate_condition example_libraries (VDict [(SStr "a", VNone)])
    (VDict [(SStr "path", VStr "a"); (SStr "exists", VBool true)]) []
  = Ok false
  /\ @evaluate_condition example_libraries (VDict [])
       (VDict [(SStr "path", VStr "a"); (SStr "exists", VInt 1)]) []
     = Ok true.
Proof.
  assert (Hp : "a" <> "") by discriminate.
  split.
  - exact (@exists_honours_booleans_only example_libraries
             (VDict [(SStr "a", VNone)])
             (VDict [(SStr "path", VStr "a"); (SStr "exists", VBool true)])
             [] [(SStr "path", VStr "a"); (SStr "exists", VBool true)]
             "a" (VBool true) eq_refl eq_refl Hp eq_refl eq_refl).
  - exact (@exists_honours_booleans_only example_libraries (VDict [])
             (VDict [(SStr "path", VStr "a"); (SStr "exists", VInt 1)])
             [] [(SStr "path", VStr "a"); (SStr "exists", VInt 1)]
             "a" (VInt 1) eq_refl eq_refl Hp eq_refl eq_refl).
Defined.

(** A passing condition, a failing one, and one without a mapping that
    would raise: the result is false and the last is not reached. *)
Lemma conditions_stop_at_first_failure_witness :
  let st := mkState (VDict [(SStr "a", VInt 1)]) [] [] in
  let passing := VDict [(SStr "path", VStr "a"); (SStr "min", VInt 0)] in
  let failing := VDict [(SStr "path", VStr "b"); (SStr "exists", VBool true)] in
  @conditions_hold example_libraries [passing; failing; VStr "oops"] [] st
  = (st, Ok false).
Proof.
  cbv zeta.
  pose (st := mkState (VDict [(SStr "a", VInt 1)]) [] []).
  pose (passing := VDict [(SStr "path", VStr "a"); (SStr "min", VInt 0)]).
  pose (failing :=
          VDict [(SStr "path", VStr "b"); (SStr "exists", VBool true)]).
  destruct (@conditions_stop_at_first_failure example_libraries
              [passing] [VStr "oops"] [] st) as [_ Hfirst].
  - intros c [<-|[]]. reflexivity.
  - apply (Hfirst failing). discriminate.
Defined.

(** ** Dependencies between the rules of a record *)

Lemma missing_deps_names (names : list string) (executed : list scalar) :
  missing_deps (map (fun n => VStr n) names) executed
  = Ok (map (fun n => VStr n)
            (filter (fun n => negb (executed_has executed (SStr n))) names)).
Proof.
  induction names as [|n names IH]; [reflexivity|].
  cbn [map missing_deps as_key res_bind filter]. rewrite IH. cbn [res_bind].
  unfold executed_has.
  now destruct (existsb (scalar_eqb (SStr n)) executed).
Qed.

Lemma dependencies_missing_names (names : list string)
      (executed : list scalar) :
  dependencies_missing (VList (map (fun n => VStr n) names)) executed
  = Ok (negb (forallb (fun n => executed_has executed (SStr n)) names)).
Proof.
  unfold dependencies_missing.
  destruct names as [|n0 names0] eqn:Hn; [reflexivity|]. rewrite <- Hn.
  replace (py_truthy (VList (map (fun n => VStr n) names))) with true
    by now rewrite Hn.
  cbn [is_str py_iter res_bind]. rewrite missing_deps_names.
  cbn [res_bind]. f_equal. clear Hn.
  induction names as [|n names IH]; [reflexivity|].
  cbn [filter forallb].
  destruct (executed_has executed (SStr n)); cbn [negb andb map];
    [exact IH | reflexivity].
Qed.

Lemma dependencies_missing_name (n : string) (executed : list scalar) :
  dependencies_missing (VStr n) executed
  = Ok (negb (String.eqb n "") && negb (executed_has executed (SStr n))).
Proof.
  unfold dependencies_missing, executed_has. cbn [py_truthy].
  destruct (String.eqb n ""); [reflexivity|].
  cbn [negb andb is_str res_bind missing_deps as_key].
  now destruct (existsb (scalar_eqb (SStr n)) executed).
Qed.

Section Dependencies.
Context {L : Libraries}.

Lemma conditions_hold_state (conditions : list value) (context : dict)
      (st : state) :
  fst (conditions_hold conditions context st) = st.
Proof.
  induction conditions as [|c rest IH]; [reflexivity|].
  cbn [conditions_hold]. unfold bind, get_config, lift.
  destruct (evaluate_condition (content_config st) c context) as [[|]|e];
    try reflexivity. exact IH.
Qed.

(** X13.  A rule whose [depends_on] names a rule that has not been
    applied to the record does nothing: the record, the counters and the
    log stay as they are and the rule is not added to the applied set,
    whatever its actions and conditions are.  [depends_on] may be a list
    of names, where one missing name is enough, or one name; an empty
    list or an empty name never blocks. *)
Theorem unmet_dependency_blocks (context : dict)
        (sequence_overrides : option dict) (executed : list scalar)
        (r : dict) (st : state) :
  (forall names n,
      dict_get_default r (SStr "depends_on") VNone
      = VList (map (fun n => VStr n) names) ->
      In n names ->
      executed_has executed (SStr n) = false ->
      run_rule context sequence_overrides executed (VDict r) st
      = (st, Ok executed))
  /\ (forall n,
         dict_get_default r (SStr "depends_on") VNone = VStr n ->
         n <> "" ->
         executed_has executed (SStr n) = false ->
         run_rule context sequence_overrides executed (VDict r) st
         = (st, Ok executed))
  /\ (dict_get_default r (SStr "depends_on") VNone = VList []
      \/ dict_get_default r (SStr "depends_on") VNone = VStr "" ->
      dependencies_missing (dict_get_default r (SStr "depends_on") VNone)
                           executed = Ok false).
Proof.
  split; [|split].
  - intros names n Hdeps Hin Hnot.
    unfold run_rule. unfold bind at 1. cbn [lift as_dict].
    unfold bind at 1. cbn [lift].
    rewrite Hdeps, dependencies_missing_names.
    replace (forallb _ names) with false; [reflexivity|].
    symmetry. apply not_true_is_false. intros Hall.
    rewrite forallb_forall in Hall. specialize (Hall n Hin). congruence.
  - intros n Hdeps Hn Hnot.
    unfold run_rule. unfold bind at 1. cbn [lift as_dict].
    unfold bind at 1. cbn [lift].
    rewrite Hdeps, dependencies_missing_name, Hnot.
    apply String.eqb_neq in Hn. now rewrite Hn.
  - intros [H|H]; now rewrite H.
Qed.

(** X14.  At the start of a record no rule has been applied.  If the
    first rule has conditions that are not met, and each rule after it
    depends on some rule, then none of them is applied: the record, the
    counters and the log are what they were. *)
Theorem failed_rule_blocks_dependents (context : dict)
        (sequence_overrides : option dict) (a acts : dict)
        (conditions : value) (cs dependents : list value) (st : state) :
  py_truthy (dict_get_default a (SStr "depends_on") VNone) = false ->
  dict_get_default a (SStr "actions") (VDict []) = VDict acts ->
  py_truthy (dict_get_default acts (SStr "skip") (VBool false)) = false ->
  dict_get a (SStr "conditions") = Some conditions ->
  py_iter conditions = Ok cs ->
  snd (conditions_hold cs context st) = Ok false ->
  Forall (fun rule =>
            exists b n names,
              rule = VDict b
              /\ dict_get_default b (SStr "depends_on") VNone
                 = VList (map (fun n => VStr n) (n :: names)))
         dependents ->
  run_rules context sequence_overrides [] (VDict a :: dependents) st
  = (st, Ok []).
Proof.
  intros Hdeps Hacts Hskip Hconds Hiter Hfail Hall.
  assert (Hfirst : run_rule context sequence_overrides [] (VDict a) st
                   = (st, Ok [])).
  { unfold run_rule. unfold bind at 1. cbn [lift as_dict].
    unfold bind at 1. cbn [lift]. unfold dependencies_missing.
    rewrite Hdeps, Hacts. unfold bind at 1. cbn [lift as_dict].
    rewrite Hskip, Hconds. unfold bind at 1. unfold bind at 1.
    cbn [lift]. rewrite Hiter.
    pose proof (conditions_hold_state cs context st) as Hst.
    destruct (conditions_hold cs context st) as [st' r'].
    cbn [fst snd] in Hst, Hfail. now subst. }
  cbn [run_rules]. unfold bind at 1. rewrite Hfirst.
  induction Hall as [|rule rest (b & n & names & -> & Hb) _ IH];
    [reflexivity|].
  cbn [run_rules]. unfold bind at 1.
  unfold run_rule. unfold bind at 1. cbn [lift as_dict].
  unfold bind at 1. cbn [lift].
  rewrite Hb, dependencies_missing_names. cbn [forallb executed_has existsb
    andb negb]. exact IH.
Qed.
End Dependencies.

(** A rule depending on [a] and [b] when only [a] has been applied. *)
Lemma unmet_dependency_blocks_witness :
  let st := mkState (VDict [(SStr "x", VInt 1)]) [] [] in
  @run_rule example_libraries [] None [SStr "a"]
    (VDict [(SStr "name", VStr "c");
            (SStr "depends_on", VList [VStr "a"; VStr "b"]);
            (SStr "actions", VDict [(SStr "delete", VList [VStr "x"])])]) st
  = (st, Ok [SStr "a"])
  /\ @run_rule example_libraries [] None [SStr "a"]
       (VDict [(SStr "depends_on", VStr "b");
               (SStr "actions", VDict [(SStr "delete", VList [VStr "x"])])])
       st
     = (st, Ok [SStr "a"]).
Proof.
  cbv zeta.
  pose (st := mkState (VDict [(SStr "x", VInt 1)]) [] []).
  pose (acts := VDict [(SStr "delete", VList [VStr "x"])]).
  split.
  - exact (proj1 (@unmet_dependency_blocks example_libraries [] None
                    [SStr "a"]
                    [(SStr "name", VStr "c");
                     (SStr "depends_on", VList [VStr "a"; VStr "b"]);
                     (SStr "actions", acts)] st) ["a"; "b"] "b"
                 eq_refl (or_intror (or_introl eq_refl)) eq_refl).
  - refine (proj1 (proj2 (@unmet_dependency_blocks example_libraries [] None
                            [SStr "a"]
                            [(SStr "depends_on", VStr "b");
                             (SStr "actions", acts)] st))
                  "b" eq_refl _ eq_refl).
    discriminate.
Defined.

(** A first rule asking for a field the record lacks, and a second one
    that depends on it. *)
Lemma failed_rule_blocks_dependents_witness :
  let st := mkState (VDict [(SStr "x", VInt 1)]) [] [] in
  let first :=
    [(SStr "name", VStr "a");
     (SStr "conditions",
      VList [VDict [(SStr "path", VStr "y"); (SStr "exists", VBool true)]]);
     (SStr "actions", VDict [(SStr "delete", VList [VStr "x"])])] in
  let second :=
    [(SStr "name", VStr "b"); (SStr "depends_on", VList [VStr "a"]);
     (SStr "actions", VDict [(SStr "delete", VList [VStr "x"])])] in
  @run_rules example_libraries [] None [] [VDict first; VDict second] st
  = (st, Ok []).
Proof.
  cbv zeta.
  pose (condition :=
          VDict [(SStr "path", VStr "y"); (SStr "exists", VBool true)]).
  pose (acts := [(SStr "delete", VList [VStr "x"])]).
  refine (@failed_rule_blocks_dependents example_libraries [] None
            [(SStr "name", VStr "a");
             (SStr "conditions", VList [condition]);
             (SStr "actions", VDict acts)]
            acts (VList [condition]) [condition]
            [VDict [(SStr "name", VStr "b");
                    (SStr "depends_on", VList [VStr "a"]);
                    (SStr "actions", VDict acts)]]
            (mkState (VDict [(SStr "x", VInt 1)]) [] [])
            eq_refl eq_refl eq_refl eq_refl eq_refl eq_refl _).
  constructor; [|constructor].
  eexists _, "a", []. split; reflexivity.
Defined.

(** ** Placeholders *)

Section Placeholders.
Context {L : Libraries}.

(** X15.  A value in which no string, key or leaf, holds an opening
    brace comes back from placeholder processing as it is, in every
    context: nothing is substituted and nothing is read again as YAML;
    lists keep their order and dicts their keys and order. *)
Theorem placeholders_leave_plain_values :
  forall (v : value) (context : dict),
    brace_free v = true -> well_formed v = true ->
    process_placeholders v context = Ok v.
Proof.
  fix IH 1. intros [a|l|d] context Hb Hw.
  - destruct a; try reflexivity.
    cbn [process_placeholders]. now apply process_str_no_brace.
  - cbn [process_placeholders]. cbn [brace_free well_formed] in Hb, Hw.
    match goal with
    | |- res_bind (?f l) _ = _ => assert (H : f l = Ok l)
    end.
    { induction l as [|item rest IHl]; [reflexivity|].
      cbn [forallb] in Hb, Hw.
      apply andb_true_iff in Hb, Hw. destruct Hb as [Hb1 Hb2].
      destruct Hw as [Hw1 Hw2].
      rewrite (IH item context Hb1 Hw1). cbn [res_bind].
      now rewrite (IHl Hb2 Hw2). }
    now rewrite H.
  - cbn [process_placeholders]. cbn [brace_free well_formed] in Hb, Hw.
    apply andb_true_iff in Hw. destruct Hw as [Hd Hw].
    match goal with
    | |- res_bind (?f d []) _ = _ =>
        assert (H : forall acc, distinct_keys (acc ++ d) = true ->
                                f d acc = Ok (acc ++ d))
    end.
    { clear Hd. induction d as [|[k x] rest IHd]; intros acc Hd.
      - now rewrite app_nil_r.
      - cbn [forallb fst snd] in Hb, Hw.
        apply andb_true_iff in Hb, Hw. destruct Hb as [Hb1 Hb2].
        destruct Hw as [Hw1 Hw2].
        apply andb_true_iff in Hb1. destruct Hb1 as [Hk Hx].
        rewrite (process_key_no_brace k context Hk). cbn [res_bind].
        rewrite (IH x context Hx Hw1). cbn [as_key res_bind].
        rewrite dict_set_new
          by (apply (distinct_keys_middle acc rest (k, x) Hd)).
        rewrite (IHd Hb2 Hw2); rewrite <- app_assoc; auto. }
    now rewrite (H [] Hd).
Qed.

(** X16.  A string with one token [{k}], and no other brace, under a
    context whose first variable is [k]: the token is replaced by the
    text of the variable's value, and the whole result is then read as
    YAML.  What YAML loads is returned, a number or a list as well as a
    string; the replaced string itself is returned when YAML rejects it
    with a [YAMLError]; any other exception of the loader is not caught
    and is raised by the processing.  The variables after the first
    play no part when that text has no brace. *)
Theorem placeholder_spliced_then_parsed (k pre post : string) (v : value)
        (rest : dict) :
  no_brace pre = true -> no_brace post = true ->
  no_brace (py_str v) = true ->
  let s := (pre ++ "{" ++ k ++ "}" ++ post)%string in
  let t := (pre ++ py_str v ++ post)%string in
  process_placeholders (VStr s) ((SStr k, v) :: rest)
  = match yaml_safe_load t with
    | Ok (Some parsed) => Ok parsed
    | Ok None => Ok (VStr t)
    | Raise e => Raise e
    end.
Proof.
  intros Hpre Hpost Hv s t.
  assert (Ht : no_brace t = true).
  { unfold t. rewrite !no_brace_app, Hpre, Hv, Hpost. reflexivity. }
  assert (Hs : no_brace s = false).
  { unfold s. rewrite no_brace_app. cbn [append no_brace Ascii.eqb].
    rewrite Bool.eqb_reflx. cbn. apply andb_false_r. }
  cbn [process_placeholders]. unfold process_str.
  assert (Hsub : substitute s ((SStr k, v) :: rest) = t).
  { unfold substitute. cbn [fold_left fst snd str_scalar].
    fold (substitute
            (str_replace s ("{" ++ k ++ "}") (py_str v)) rest).
    replace s with (pre ++ String "{" (k ++ "}") ++ post)%string
      by (unfold s; cbn [append]; now rewrite string_append_assoc).
    change ("{" ++ k ++ "}")%string with (String "{" (k ++ "}")).
    rewrite str_replace_token by assumption.
    now apply substitute_no_brace. }
  rewrite Hsub.
  destruct (String.eqb t s) eqn:E.
  - apply String.eqb_eq in E. congruence.
  - now destruct (yaml_safe_load t) as [[parsed|]|e].
Qed.
End Placeholders.

(** A record with a list, under a context that defines [content_id]. *)
Lemma placeholders_leave_plain_values_witness :
  let v := VDict [(SStr "name", VStr "content_id");
                  (SStr "tags", VList [VStr "x"; VInt 1])] in
  @process_placeholders yaml_libraries v [(SStr "content_id", VStr "12")]
  = Ok v.
Proof.
  cbv zeta.
  exact (@placeholders_leave_plain_values yaml_libraries
           (VDict [(SStr "name", VStr "content_id");
                   (SStr "tags", VList [VStr "x"; VInt 1])])
           [(SStr "content_id", VStr "12")] eq_refl eq_refl).
Defined.

(** The id ["12"] alone becomes the integer 12; after a prefix it stays
    text; the id ["2001-02-30"] makes the loader, and so the
    processing, raise. *)
Lemma placeholder_spliced_then_parsed_witness :
  let context := [(SStr "content_id", VStr "12");
                  (SStr "content_type", VStr "item")] in
  @process_placeholders yaml_libraries (VStr "{content_id}") context
  = Ok (VInt 12)
  /\ @process_placeholders yaml_libraries (VStr "id_{content_id}") context
     = Ok (VStr "id_12")
  /\ @process_placeholders yaml_libraries (VStr "{content_id}")
       [(SStr "content_id", VStr "2001-02-30")]
     = Raise ValueError.
Proof.
  cbv zeta. split; [|split].
  - exact (@placeholder_spliced_then_parsed yaml_libraries
             "content_id" "" "" (VStr "12")
             [(SStr "content_type", VStr "item")] eq_refl eq_refl eq_refl).
  - exact (@placeholder_spliced_then_parsed yaml_libraries
             "content_id" "id_" "" (VStr "12")
             [(SStr "content_type", VStr "item")] eq_refl eq_refl eq_refl).
  - exact (@placeholder_spliced_then_parsed yaml_libraries
             "content_id" "" "" (VStr "2001-02-30") []
             eq_refl eq_refl eq_refl).
Defined.

(** ** The context of a record *)

Lemma dict_get_set_str (d : dict) (k' : scalar) (k : string) (v : value) :
  dict_get (dict_set d k' v) (SStr k)
  = if scalar_eqb k' (SStr k) then Some v else dict_get d (SStr k).
Proof.
  destruct (scalar_eqb k' (SStr k)) eqn:E.
  - apply scalar_eqb_str_r in E. subst. apply dict_get_set_same.
  - apply assoc_get_set_other; auto.
    + intros x. apply scalar_eqb_str_r.
    + intros x. apply scalar_eqb_str_l.
Qed.

Lemma distinct_keys_head (k : string) (k' : scalar) (v : value)
      (rest : dict) :
  distinct_keys ((k', v) :: rest) = true ->
  scalar_eqb k' (SStr k) = true ->
  dict_get rest (SStr k) = None.
Proof.
  intros Hd E. apply scalar_eqb_str_r in E. subst.
  cbn [distinct_keys] in Hd. apply andb_true_iff in Hd.
  destruct Hd as [Hhead _]. unfold dict_get.
  induction rest as [|[k0 v0] rest IH]; [reflexivity|].
  cbn [forallb fst] in Hhead. apply andb_true_iff in Hhead.
  destruct Hhead as [H0 Hrest]. cbn [assoc_get].
  destruct (scalar_eqb k0 (SStr k)) eqn:E0; [|now apply IH].
  apply scalar_eqb_str_r in E0. subst.
  now rewrite scalar_eqb_str_refl in H0.
Qed.

Section Context.
Context {L : Libraries}.

(** X17.  When every definition of a rule's [context] block is a plain
    value, not a mapping with an [expression], the context of a record
    holds, under each name, the defined value if the block defines the
    name and the base value otherwise: a definition named [content_id]
    or [content_type] replaces the built-in variable, and no expression
    is evaluated, so the result does not depend on the record. *)
Theorem static_context_lookup (definitions : dict) (content_config : value)
        (base_context : dict) :
  distinct_keys definitions = true ->
  forallb (fun kv => static_definition (snd kv)) definitions = true ->
  exists final_context,
    process_dynamic_context (VDict definitions) content_config base_context
    = Ok final_context
    /\ forall k : string,
         dict_get final_context (SStr k)
         = match dict_get definitions (SStr k) with
           | Some v => Some v
           | None => dict_get base_context (SStr k)
           end.
Proof.
  intros Hd Hs. eexists. split; [reflexivity|]. intros k.
  revert base_context.
  induction definitions as [|[k' v] rest IH]; intros base_context;
    [reflexivity|].
  cbn [forallb snd] in Hs. apply andb_true_iff in Hs.
  destruct Hs as [Hv Hrest].
  assert (Hnext : context_loop ((k', v) :: rest) content_config base_context
                  = context_loop rest content_config
                                 (dict_set base_context k' v)).
  { cbn [context_loop]. destruct v as [a|l|c]; try reflexivity.
    cbn [static_definition] in Hv. unfold dict_mem, assoc_mem in Hv.
    unfold dict_get.
    now destruct (assoc_get scalar_eqb c (SStr "expression")). }
  rewrite Hnext.
  assert (Hd' : distinct_keys rest = true).
  { cbn [distinct_keys] in Hd. now apply andb_true_iff in Hd. }
  rewrite (IH Hd' Hrest), dict_get_set_str.
  change (dict_get ((k', v) :: rest) (SStr k))
    with (if scalar_eqb k' (SStr k) then Some v else dict_get rest (SStr k)).
  destruct (scalar_eqb k' (SStr k)) eqn:E; [|reflexivity].
  now rewrite (distinct_keys_head k k' v rest Hd E).
Qed.
End Context.

(** A block that defines [prefix] and redefines [content_type]. *)
Lemma static_context_lookup_witness :
  let definitions := [(SStr "prefix", VStr "ce");
                      (SStr "content_type", VStr "block")] in
  let base := [(SStr "content_id", VStr "ruby");
               (SStr "content_type", VStr "item")] in
  exists final_context,
    @process_dynamic_context example_libraries (VDict definitions)
      (VDict []) base = Ok final_context
    /\ dict_get final_context (SStr "prefix") = Some (VStr "ce")
    /\ dict_get final_context (SStr "content_type") = Some (VStr "block")
    /\ dict_get final_context (SStr "content_id") = Some (VStr "ruby").
Proof.
  cbv zeta.
  destruct (@static_context_lookup example_libraries
              [(SStr "prefix", VStr "ce");
               (SStr "content_type", VStr "block")] (VDict [])
              [(SStr "content_id", VStr "ruby");
               (SStr "content_type", VStr "item")] eq_refl eq_refl)
    as (final_context & Hrun & Hget).
  exists final_context. split; [exact Hrun|].
  split; [exact (Hget "prefix")|].
  split; [exact (Hget "content_type")|exact (Hget "content_id")].
Defined.

(** ** Overrides from the command line *)


Lemma parse_override_lookup (py_int : string -> option Z)
      (acc : dict) (token path : string) :
  dict_get (parse_override py_int acc token) (SStr path)
  = match override_of py_int path token with
    | Some z => Some (VInt z)
    | None => dict_get acc (SStr path)
    end.
Proof.
  unfold parse_override, override_of.
  destruct (rsplit_on ":" token) as [[p value_str]|]; [|reflexivity].
  destruct (py_int value_str) as [z|].
  - rewrite dict_get_set_str. cbn [scalar_eqb].
    now destruct (String.eqb p path).
  - now destruct (String.eqb p path).
Qed.

Lemma parse_lookup_unchanged (py_int : string -> option Z)
      (tokens : list string) (path : string) :
  (forall t, In t tokens -> override_of py_int path t = None) ->
  forall acc,
    dict_get (fold_left (parse_override py_int) tokens acc) (SStr path)
    = dict_get acc (SStr path).
Proof.
  induction tokens as [|t rest IH]; intros Hnone acc; [reflexivity|].
  cbn [fold_left]. rewrite IH by (intros t' Ht'; apply Hnone; now right).
  rewrite parse_override_lookup.
  now rewrite (Hnone t (or_introl eq_refl)).
Qed.

Lemma parse_string_keyed (py_int : string -> option Z)
      (tokens : list string) :
  forall acc, string_keyed acc ->
              string_keyed (fold_left (parse_override py_int) tokens acc).
Proof.
  induction tokens as [|t rest IH]; intros acc Hacc; [exact Hacc|].
  cbn [fold_left]. apply IH. unfold parse_override.
  destruct (rsplit_on ":" t) as [[p value_str]|]; [|exact Hacc].
  destruct (py_int value_str); [|exact Hacc].
  now apply string_keyed_set.
Qed.

Lemma string_keyed_other (d : dict) (k : scalar) :
  string_keyed d -> (forall p, k <> SStr p) -> dict_get d k = None.
Proof.
  unfold string_keyed, dict_get. intros Hd Hk.
  induction Hd as [|[k0 v0] rest (p & Hp) _ IH]; [reflexivity|].
  cbn [fst] in Hp. subst k0. cbn [assoc_get].
  destruct (scalar_eqb (SStr p) k) eqn:E; [|exact IH].
  apply scalar_eqb_str_l in E. now specialize (Hk p).
Qed.

(** X18.  What the parsed overrides hold under a path: the integer of
    the last token that reads [<path>:<integer>], whatever stands before
    it; nothing, when no token reads so (tokens without a colon, with a
    text that is no integer, or for another path are passed over); and
    nothing under a key that is not a string. *)
Theorem parsed_overrides_lookup (py_int : string -> option Z)
        (tokens : list string) (path : string) :
  (forall before token after z,
      tokens = before ++ token :: after ->
      override_of py_int path token = Some z ->
      (forall t, In t after -> override_of py_int path t = None) ->
      dict_get (parse_sequence_overrides py_int tokens) (SStr path)
      = Some (VInt z))
  /\ ((forall t, In t tokens -> override_of py_int path t = None) ->
      dict_get (parse_sequence_overrides py_int tokens) (SStr path) = None)
  /\ (forall k, (forall p, k <> SStr p) ->
                dict_get (parse_sequence_overrides py_int tokens) k = None).
Proof.
  unfold parse_sequence_overrides. split; [|split].
  - intros before token after z -> Htoken Hafter.
    rewrite fold_left_app. cbn [fold_left].
    rewrite parse_lookup_unchanged by exact Hafter.
    now rewrite parse_override_lookup, Htoken.
  - intros Hnone. now rewrite parse_lookup_unchanged.
  - intros k Hk. apply string_keyed_other; [|exact Hk].
    apply parse_string_keyed. constructor.
Qed.


(** Four tokens: one without a colon, one that is no integer, and two
    for the same path. *)
Lemma parsed_overrides_lookup_witness :
  let tokens := ["oops"; "model:x"; "model:5"; "model:7"] in
  dict_get (parse_sequence_overrides example_int tokens) (SStr "model")
  = Some (VInt 7)
  /\ dict_get (parse_sequence_overrides example_int tokens) (SStr "oops")
     = None
  /\ dict_get (parse_sequence_overrides example_int tokens) (SInt 5) = None.
Proof.
  cbv zeta.
  pose (tokens := ["oops"; "model:x"; "model:5"; "model:7"]).
  split; [|split].
  - exact (proj1 (parsed_overrides_lookup example_int tokens "model")
                 ["oops"; "model:x"; "model:5"] "model:7" [] 7%Z
                 eq_refl eq_refl (fun t H => match H with end)).
  - apply (proj1 (proj2 (parsed_overrides_lookup example_int tokens "oops"))).
    intros t [<-|[<-|[<-|[<-|[]]]]]; reflexivity.
  - apply (proj2 (proj2 (parsed_overrides_lookup example_int tokens ""))).
    discriminate.
Defined.


(** ** The output tree *)

Lemma bind_ok {A B : Type} (m : M A) (k : A -> M B) (st st' : state)
      (b : B) :
  bind m k st = (st', Ok b) ->
  exists st1 a, m st = (st1, Ok a) /\ k a st1 = (st', Ok b).
Proof.
  unfold bind. destruct (m st) as [st1 [a|e]]; [eauto|discriminate].
Qed.

Lemma lift_ok {A : Type} (r : res A) (st st' : state) (a : A) :
  lift r st = (st', Ok a) -> r = Ok a /\ st' = st.
Proof. unfold lift. intros H. now injection H as <- ->. Qed.

Section AssocInvariant.
Variables (K V : Type) (eqb : K -> K -> bool).

Lemma Forall_assoc_set (Q : K * V -> Prop) (d : list (K * V)) (k : K)
      (v : V) :
  Forall Q d ->
  (forall k0 v0, Q (k0, v0) -> eqb k0 k = true -> Q (k0, v)) ->
  Q (k, v) ->
  Forall Q (assoc_set eqb d k v).
Proof.
  intros Hd Hsame Hnew. induction Hd as [|[k0 v0] rest H0 Hrest IH]; simpl.
  - constructor; [exact Hnew|constructor].
  - destruct (eqb k0 k) eqn:E; constructor; eauto.
Qed.

Lemma assoc_set_key_In (d : list (K * V)) (k x : K) (v : V) :
  In x (map fst (assoc_set eqb d k v)) -> In x (map fst d) \/ x = k.
Proof.
  induction d as [|[k0 v0] rest IH]; simpl.
  - intros [<-|[]]. now right.
  - destruct (eqb k0 k); simpl.
    + intros [<-|H]; auto.
    + intros [<-|H]; auto. destruct (IH H); auto.
Qed.
End AssocInvariant.

Lemma groups_from_set (old_data : value) (new_data : dict) (key : string)
      (v : value) :
  groups_from old_data new_data ->
  group_from old_data (SStr key) v ->
  groups_from old_data (dict_set new_data (SStr key) v).
Proof.
  intros [Hd Hall] Hv. split; [now apply distinct_keys_set|].
  apply Forall_assoc_set; [exact Hall| |exact Hv].
  intros k0 v0 _ E. apply scalar_eqb_str_r in E. now subst.
Qed.

Lemma groups_from_store (old_data : value) (new_data : dict)
      (key : string) (id : scalar) (cfg : value) (input_group : dict) :
  groups_from old_data new_data ->
  group_of old_data key = Ok (VDict input_group) ->
  In id (map fst input_group) ->
  groups_from old_data (store new_data key id cfg).
Proof.
  intros Hnd Hgroup Hid. unfold store.
  destruct (dict_get new_data (SStr key)) as [[a|l|group]|] eqn:Hget;
    try exact Hnd.
  apply groups_from_set; [exact Hnd|].
  destruct (assoc_get_In _ _ scalar_eqb new_data _ _ Hget)
    as (k' & Hin & E).
  apply scalar_eqb_str_r in E. subst k'.
  destruct Hnd as [_ Hall]. rewrite Forall_forall in Hall.
  destruct (Hall _ Hin) as (k & g & Hk & Hg & Hkey & Hdist & Hids).
  cbn [fst snd] in Hk, Hg. injection Hk as <-. injection Hg as <-.
  exists key, (dict_set group id cfg).
  repeat split; auto.
  - now apply distinct_keys_set.
  - intros x Hx. apply assoc_set_key_In in Hx. destruct Hx as [Hx| ->].
    + now apply Hids.
    + now exists input_group.
Qed.

Lemma select_keys_In (pattern : string) {L : Libraries}
      (keys : list value) :
  forall selected,
    select_keys pattern keys = Ok selected ->
    forall k, In k selected -> In (VStr k) keys.
Proof.
  induction keys as [|key rest IH]; intros selected Hsel k Hk.
  - injection Hsel as <-. contradiction.
  - cbn [select_keys] in Hsel.
    destruct key as [[| | | |s]| |]; try discriminate.
    destruct (py_re_match (VStr pattern) s) as [found|]; [|discriminate].
    cbn [res_bind] in Hsel.
    destruct (select_keys pattern rest) as [rest'|]; [|discriminate].
    cbn [res_bind] in Hsel. injection Hsel as <-.
    destruct found.
    + destruct Hk as [<-|Hk]; [now left|]. right. now apply (IH rest').
    + right. now apply (IH rest').
Qed.

Section OutputTree.
Context {L : Libraries}.
Variable old_data : value.
Variable sequence_overrides : option dict.

Lemma convert_item_stores (content_type nested_rules definitions : value)
      (content_key : string) (new_data : dict) (item : scalar * value)
      (st st' : state) (new_data' : dict) :
  convert_item content_type nested_rules definitions sequence_overrides
               content_key new_data item st = (st', Ok new_data') ->
  exists cfg, new_data' = store new_data content_key (fst item) cfg.
Proof.
  destruct item as [content_id content_config_old]. unfold convert_item.
  intros H.
  apply bind_ok in H. destruct H as (st1 & [] & _ & H).
  apply bind_ok in H. destruct H as (st2 & final_context & _ & H).
  apply bind_ok in H. destruct H as (st3 & rules & _ & H).
  apply bind_ok in H. destruct H as (st4 & executed & _ & H).
  apply bind_ok in H. destruct H as (st5 & cfg & _ & H).
  unfold ret in H. injection H as _ <-. now exists cfg.
Qed.

Lemma convert_items_groups (content_type nested_rules definitions : value)
      (content_key : string) (input_group : dict)
      (items : list (scalar * value)) :
  group_of old_data content_key = Ok (VDict input_group) ->
  (forall item, In item items -> In (fst item) (map fst input_group)) ->
  forall new_data st st' new_data',
    groups_from old_data new_data ->
    convert_items content_type nested_rules definitions sequence_overrides
                  content_key new_data items st = (st', Ok new_data') ->
    groups_from old_data new_data'.
Proof.
  intros Hgroup. induction items as [|item rest IH];
    intros Hitems new_data st st' new_data' Hnd H.
  - unfold convert_items, ret in H. now injection H as _ <-.
  - cbn [convert_items] in H.
    apply bind_ok in H. destruct H as (st1 & nd1 & Hitem & H).
    apply convert_item_stores in Hitem. destruct Hitem as (cfg & ->).
    apply (IH (fun it Hit => Hitems it (or_intror Hit)) _ _ _ _) in H;
      [exact H|].
    apply (groups_from_store _ _ _ _ _ input_group); auto.
    apply Hitems. now left.
Qed.

Lemma convert_group_groups (content_type nested_rules definitions : value)
      (new_data : dict) (content_key : string) (st st' : state)
      (new_data' : dict) :
  groups_from old_data new_data ->
  In (VStr content_key) (input_keys old_data) ->
  convert_group old_data content_type nested_rules definitions
                sequence_overrides new_data content_key st
  = (st', Ok new_data') ->
  groups_from old_data new_data'.
Proof.
  intros Hnd Hkey H. unfold convert_group in H.
  apply bind_ok in H. destruct H as (st1 & contents & Hgroup & H).
  apply lift_ok in Hgroup. destruct Hgroup as [Hgroup ->].
  assert (Hempty : groups_from old_data
                     (dict_set new_data (SStr content_key) (VDict []))).
  { apply groups_from_set; [exact Hnd|].
    exists content_key, []. repeat split; auto. intros id []. }
  destruct (negb (py_truthy contents)).
  - unfold ret in H. now injection H as _ <-.
  - apply bind_ok in H. destruct H as (st2 & items & Hitems & H).
    apply lift_ok in Hitems. destruct Hitems as [Hitems ->].
    destruct contents as [a|l|d]; try discriminate.
    injection Hitems as <-.
    apply (convert_items_groups _ _ _ _ d d Hgroup) in H; auto.
    intros item Hin. now apply in_map.
Qed.

Lemma convert_groups_groups (content_type nested_rules definitions : value)
      (keys : list string) :
  (forall k, In k keys -> In (VStr k) (input_keys old_data)) ->
  forall new_data st st' new_data',
    groups_from old_data new_data ->
    convert_groups old_data content_type nested_rules definitions
                   sequence_overrides new_data keys st
    = (st', Ok new_data') ->
    groups_from old_data new_data'.
Proof.
  induction keys as [|key rest IH];
    intros Hkeys new_data st st' new_data' Hnd H.
  - unfold convert_groups, ret in H. now injection H as _ <-.
  - cbn [convert_groups] in H.
    apply bind_ok in H. destruct H as (st1 & nd1 & Hgroup & H).
    apply convert_group_groups in Hgroup;
      [|exact Hnd|apply Hkeys; now left].
    apply (IH (fun k Hk => Hkeys k (or_intror Hk)) _ _ _ _ Hgroup H).
Qed.

Lemma convert_rule_groups (new_data : dict) (top_level_rule : value)
      (st st' : state) (new_data' : dict) :
  groups_from old_data new_data ->
  convert_rule old_data sequence_overrides new_data top_level_rule st
  = (st', Ok new_data') ->
  groups_from old_data new_data'.
Proof.
  intros Hnd H. unfold convert_rule in H.
  apply bind_ok in H. destruct H as (st1 & rule & _ & H).
  destruct (negb (py_truthy (dict_get_default rule (SStr "content") VNone))).
  - unfold ret in H. now injection H as _ <-.
  - apply bind_ok in H. destruct H as (st2 & base & _ & H).
    apply bind_ok in H. destruct H as (st3 & keys & Hkeys & H).
    apply lift_ok in Hkeys. destruct Hkeys as [Hkeys ->].
    apply convert_groups_groups in H; auto.
    intros k Hk. unfold matching_keys in Hkeys. unfold input_keys.
    destruct (py_iter old_data) as [all_keys|]; [|discriminate].
    cbn [res_bind] in Hkeys.
    now apply (select_keys_In _ _ _ Hkeys).
Qed.

Lemma convert_rules_groups (rules_list : list value) :
  forall new_data st st' new_data',
    groups_from old_data new_data ->
    convert_rules old_data sequence_overrides new_data rules_list st
    = (st', Ok new_data') ->
    groups_from old_data new_data'.
Proof.
  induction rules_list as [|rule rest IH];
    intros new_data st st' new_data' Hnd H.
  - unfold convert_rules, ret in H. now injection H as _ <-.
  - cbn [convert_rules] in H.
    apply bind_ok in H. destruct H as (st1 & nd1 & Hrule & H).
    apply convert_rule_groups in Hrule; [|exact Hnd].
    apply (IH _ _ _ _ Hrule H).
Qed.

(** X20.  Whatever the rules are, a conversion that succeeds yields a
    mapping that holds nothing but groups and records of the input:
    each key is a key of the input tree, each group is a mapping with
    distinct ids, and each id is an id of the input group under the same
    key.  Rules change records; they cannot add a group or a record, nor
    move a record to another group or id. *)
Theorem output_stems_from_input (rules_list new_data : value) :
  convert_single_file old_data rules_list sequence_overrides = Ok new_data ->
  exists groups, new_data = VDict groups /\ groups_from old_data groups.
Proof.
  unfold convert_single_file, convert. intros H.
  destruct (bind _ _ initial_state) as [st' r] eqn:Hrun.
  cbn [snd] in H. subst r.
  apply bind_ok in Hrun. destruct Hrun as (st1 & rules & _ & Hrun).
  apply bind_ok in Hrun. destruct Hrun as (st2 & total & _ & Hrun).
  apply bind_ok in Hrun. destruct Hrun as (st3 & groups & Hrules & Hrun).
  unfold ret in Hrun. injection Hrun as _ <-.
  exists groups. split; [reflexivity|].
  apply (convert_rules_groups _ _ _ _ _) in Hrules; [exact Hrules|].
  split; [reflexivity|constructor].
Qed.
End OutputTree.

(** A run on the one-group tree with a rule that deletes a field. *)
Lemma output_stems_from_input_witness :
  let old_data :=
    VDict [(SStr "items",
            VDict [(SStr "ruby", VDict [(SStr "a", VInt 1)])])] in
  let rules_list :=
    VList [VDict [(SStr "content", VStr "item");
                  (SStr "rules",
                   VList [VDict [(SStr "name", VStr "drop");
                                 (SStr "actions",
                                  VDict [(SStr "delete",
                                          VList [VStr "a"])])]])]] in
  exists groups,
    VDict [(SStr "items", VDict [(SStr "ruby", VDict [])])] = VDict groups
    /\ groups_from old_data groups.
Proof.
  cbv zeta.
  exact (@output_stems_from_input example_libraries
           (VDict [(SStr "items",
                    VDict [(SStr "ruby", VDict [(SStr "a", VInt 1)])])])
           None
           (VList [VDict [(SStr "content", VStr "item");
                          (SStr "rules",
                           VList [VDict [(SStr "name", VStr "drop");
                                         (SStr "actions",
                                          VDict [(SStr "delete",
                                                  VList [VStr "a"])])]])]])
           (VDict [(SStr "items", VDict [(SStr "ruby", VDict [])])])
           eq_refl).
Defined.

Lemma store_agree (key : string) (id : scalar) (cfg : value)
      (new_data1 new_data2 : dict) :
  dict_get new_data1 (SStr key) = dict_get new_data2 (SStr key) ->
  dict_get (store new_data1 key id cfg) (SStr key)
  = dict_get (store new_data2 key id cfg) (SStr key).
Proof.
  intros H. unfold store. rewrite <- H.
  destruct (dict_get new_data1 (SStr key)) as [[a|l|group]|] eqn:E;
    cbv beta iota; try congruence.
  now rewrite !dict_get_set_same.
Qed.

Lemma store_frame (key other : string) (id : scalar) (cfg : value)
      (new_data : dict) :
  key <> other ->
  dict_get (store new_data key id cfg) (SStr other)
  = dict_get new_data (SStr other).
Proof.
  intros Hne. unfold store.
  destruct (dict_get new_data (SStr key)) as [[a|l|group]|];
    try reflexivity.
  now apply dict_get_set_other.
Qed.

Section GroupRebuilt.
Context {L : Libraries}.
Variables (old_data content_type nested_rules definitions : value).
Variable sequence_overrides : option dict.
Variable content_key : string.

Lemma convert_item_shape (item : scalar * value) (st : state) :
  exists st' r,
    forall new_data,
      convert_item content_type nested_rules definitions sequence_overrides
                   content_key new_data item st
      = (st', match r with
              | Ok cfg => Ok (store new_data content_key (fst item) cfg)
              | Raise e => Raise e
              end).
Proof.
  destruct item as [content_id content_config_old]. unfold convert_item.
  unfold bind at 1. cbn [put_config].
  set (st1 := mkState content_config_old (sequence_counters st) (log st)).
  unfold bind at 1. cbn [lift].
  destruct (process_dynamic_context definitions content_config_old _)
    as [final_context|e]; [|now exists st1, (Raise e)].
  unfold bind at 1. cbn [lift].
  destruct (py_iter nested_rules) as [rules|e];
    [|now exists st1, (Raise e)].
  unfold bind at 1.
  destruct (run_rules final_context sequence_overrides [] rules st1)
    as [st2 [executed|e]]; [|now exists st2, (Raise e)].
  exists st2, (Ok (content_config st2)). reflexivity.
Qed.

Lemma convert_items_agree (items : list (scalar * value)) :
  forall new_data1 new_data2 st,
    dict_get new_data1 (SStr content_key)
    = dict_get new_data2 (SStr content_key) ->
    agree_at content_key
      (convert_items content_type nested_rules definitions
                     sequence_overrides content_key new_data1 items st)
      (convert_items content_type nested_rules definitions
                     sequence_overrides content_key new_data2 items st).
Proof.
  induction items as [|item rest IH]; intros new_data1 new_data2 st H.
  - split; [reflexivity|exact H].
  - cbn [convert_items]. unfold bind.
    destruct (convert_item_shape item st) as (st' & r & Hshape).
    rewrite (Hshape new_data1), (Hshape new_data2).
    destruct r as [cfg|e]; [|now split].
    apply IH. now apply store_agree.
Qed.

Lemma convert_items_frame (other : string) (items : list (scalar * value)) :
  content_key <> other ->
  forall new_data st st' new_data',
    convert_items content_type nested_rules definitions sequence_overrides
                  content_key new_data items st = (st', Ok new_data') ->
    dict_get new_data' (SStr other) = dict_get new_data (SStr other).
Proof.
  intros Hne. induction items as [|item rest IH];
    intros new_data st st' new_data' H.
  - unfold convert_items, ret in H. now injection H as _ <-.
  - cbn [convert_items] in H.
    apply bind_ok in H. destruct H as (st1 & nd1 & Hitem & H).
    apply convert_item_stores in Hitem. destruct Hitem as (cfg & ->).
    rewrite (IH _ _ _ _ H). now apply store_frame.
Qed.

(** X21.  The conversion of a group touches the output tree under the
    group's key only, and what it leaves there does not depend on what
    the tree held before: the group is built anew from the input
    records.  So when two top-level rules select the same group, the
    records the first one produced are discarded; only its counters and
    log, which are part of the state, carry over. *)
Theorem group_rebuilt_from_input :
  (forall new_data1 new_data2 st,
      agree_at content_key
        (convert_group old_data content_type nested_rules definitions
                       sequence_overrides new_data1 content_key st)
        (convert_group old_data content_type nested_rules definitions
                       sequence_overrides new_data2 content_key st))
  /\ (forall new_data st st' new_data' other,
         convert_group old_data content_type nested_rules definitions
                       sequence_overrides new_data content_key st
         = (st', Ok new_data') ->
         content_key <> other ->
         dict_get new_data' (SStr other) = dict_get new_data (SStr other)).
Proof.
  split.
  - intros new_data1 new_data2 st. unfold convert_group.
    unfold bind at 1 3. cbn [lift].
    destruct (group_of old_data content_key) as [contents|e]; [|now split].
    destruct (negb (py_truthy contents)).
    + split; [reflexivity|]. cbn [snd ret].
      now rewrite !dict_get_set_same.
    + unfold bind at 1 2. cbn [lift].
      destruct (as_dict contents) as [items|e]; [|now split].
      apply convert_items_agree. now rewrite !dict_get_set_same.
  - intros new_data st st' new_data' other H Hne. unfold convert_group in H.
    apply bind_ok in H. destruct H as (st1 & contents & _ & H).
    destruct (negb (py_truthy contents)).
    + unfold ret in H. injection H as _ <-. now apply dict_get_set_other.
    + apply bind_ok in H. destruct H as (st2 & items & _ & H).
      rewrite (convert_items_frame other items Hne _ _ _ _ H).
      now apply dict_get_set_other.
Qed.
End GroupRebuilt.

(** The group [items] converted into a tree that already holds [items]
    and [blocks]. *)
Lemma group_rebuilt_from_input_witness :
  let old_data :=
    VDict [(SStr "items", VDict [(SStr "ruby", VDict [(SStr "a", VInt 1)])])]
  in
  let earlier :=
    [(SStr "items", VDict [(SStr "gone", VDict [])]);
     (SStr "blocks", VDict [(SStr "stone", VDict [])])] in
  let new_data :=
    [(SStr "items", VDict [(SStr "ruby", VDict [(SStr "a", VInt 1)])]);
     (SStr "blocks", VDict [(SStr "stone", VDict [])])] in
  @convert_group example_libraries old_data (VStr "item") (VList [])
    (VDict []) None earlier "items" initial_state
  = (mkState (VDict [(SStr "a", VInt 1)]) [] [], Ok new_data)
  /\ dict_get new_data (SStr "blocks") = dict_get earlier (SStr "blocks").
Proof.
  cbv zeta. split; [reflexivity|].
  refine (proj2 (@group_rebuilt_from_input example_libraries
                   (VDict [(SStr "items",
                            VDict [(SStr "ruby",
                                    VDict [(SStr "a", VInt 1)])])])
                   (VStr "item") (VList []) (VDict []) None "items")
                [(SStr "items", VDict [(SStr "gone", VDict [])]);
                 (SStr "blocks", VDict [(SStr "stone", VDict [])])]
                initial_state
                (mkState (VDict [(SStr "a", VInt 1)]) [] [])
                [(SStr "items",
                  VDict [(SStr "ruby", VDict [(SStr "a", VInt 1)])]);
                 (SStr "blocks", VDict [(SStr "stone", VDict [])])]
                "blocks" eq_refl _).
  discriminate.
Defined.

(** ** The group name of a content type *)

Lemma endswith_appended (s : string) : endswith (s ++ "s") "s" = true.
Proof.
  unfold endswith. cbn [String.length].
  assert (Hlen : String.length (s ++ "s") = S (String.length s)).
  { induction s as [|c s IH]; [reflexivity|].
    cbn [append String.length]. now rewrite IH. }
  rewrite Hlen. cbn [Nat.leb Nat.sub]. rewrite Nat.sub_0_r.
  replace (substring (String.length s) 1 (s ++ "s")) with "s"%string;
    [reflexivity|].
  induction s as [|c s IH]; [reflexivity|].
  cbn [append String.length substring]. apply IH.
  clear -Hlen. cbn [append String.length] in Hlen. now injection Hlen.
Qed.

(** X22.  The group name of a content type ends in [s], and taking the
    group name of a group name changes nothing: [content: item] and
    [content: items] stand for the same groups, and a type that already
    ends in [s] gets no second one. *)
Theorem content_key_base_plural (content_type : string) :
  exists base,
    content_key_base (VStr content_type) = Ok base
    /\ endswith base "s" = true
    /\ content_key_base (VStr base) = Ok base
    /\ (endswith content_type "s" = false
        -> base = (content_type ++ "s")%string)
    /\ (endswith content_type "s" = true -> base = content_type).
Proof.
  unfold content_key_base.
  destruct (endswith content_type "s") eqn:E.
  - exists content_type. rewrite E. repeat split; auto. discriminate.
  - exists (content_type ++ "s")%string. rewrite endswith_appended.
    repeat split; auto. discriminate.
Qed.

(** A type without and a type with the final [s]. *)
Lemma content_key_base_plural_witness :
  content_key_base (VStr "item") = Ok "items"
  /\ content_key_base (VStr "glass") = Ok "glass".
Proof.
  split.
  - destruct (content_key_base_plural "item") as (base & H & _ & _ & Hno & _).
    rewrite H. f_equal. now apply Hno.
  - destruct (content_key_base_plural "glass")
      as (base & H & _ & _ & _ & Hyes).
    rewrite H. f_equal. now apply Hyes.
Defined.

(** ** Counters and the applied set over a whole conversion *)

Section PreservingRun.
Context {L : Libraries}.
Variable R : state -> state -> Prop.
Hypothesis R_refl : forall st, R st st.
Hypothesis R_trans : forall a b c, R a b -> R b c -> R a c.
Hypothesis R_config :
  forall st c, R st (mkState c (sequence_counters st) (log st)).
Hypothesis R_log :
  forall st l, R st (mkState (content_config st) (sequence_counters st) l).
Hypothesis R_counter :
  forall st k v,
    R st (mkState (content_config st)
                  (assoc_set counter_key_eqb (sequence_counters st) k v)
                  (log st)).

Local Ltac step :=
  apply (preserves_bind R R_trans);
  [first [apply (preserves_lift R R_refl)
         |apply (preserves_get_config R R_refl)
         |apply (preserves_put_config R R_config)
         |idtac]
  |intro].

Lemma preserves_run_rule (context : dict) (sequence_overrides : option dict)
      (executed : list scalar) (rule : value) :
  preserves R (run_rule context sequence_overrides executed rule).
Proof.
  unfold run_rule. step. step.
  destruct a0; [apply (preserves_ret R R_refl)|]. step.
  destruct (py_truthy _); [apply (preserves_ret R R_refl)|].
  apply (preserves_bind R R_trans).
  - destruct (dict_get a (SStr "conditions"));
      [|apply (preserves_ret R R_refl)].
    step. apply (preserves_conditions_hold R R_refl R_trans).
  - intros [|]; [|apply (preserves_ret R R_refl)].
    apply (preserves_bind R R_trans).
    + now apply (preserves_apply_actions R R_refl R_trans R_config R_log).
    + intros _. destruct (py_truthy _);
        [apply (preserves_lift R R_refl)|apply (preserves_ret R R_refl)].
Qed.

Lemma preserves_run_rules (context : dict)
      (sequence_overrides : option dict) (nested_rules : list value) :
  forall executed,
    preserves R (run_rules context sequence_overrides executed nested_rules).
Proof.
  induction nested_rules as [|rule rest IH]; intros executed.
  - apply (preserves_ret R R_refl).
  - cbn [run_rules]. apply (preserves_bind R R_trans);
      [apply preserves_run_rule|intros executed'; apply IH].
Qed.

Lemma preserves_convert_items (content_type nested_rules definitions : value)
      (sequence_overrides : option dict) (content_key : string)
      (items : list (scalar * value)) :
  forall new_data,
    preserves R (convert_items content_type nested_rules definitions
                               sequence_overrides content_key new_data items).
Proof.
  induction items as [|[content_id content_config_old] rest IH];
    intros new_data.
  - apply (preserves_ret R R_refl).
  - cbn [convert_items]. apply (preserves_bind R R_trans); [|intro; apply IH].
    unfold convert_item. step. step. step.
    apply (preserves_bind R R_trans); [apply preserves_run_rules|intro].
    step. apply (preserves_ret R R_refl).
Qed.

Lemma preserves_convert_groups (old_data content_type nested_rules
                                  definitions : value)
      (sequence_overrides : option dict) (keys : list string) :
  forall new_data,
    preserves R (convert_groups old_data content_type nested_rules
                                definitions sequence_overrides new_data keys).
Proof.
  induction keys as [|key rest IH]; intros new_data.
  - apply (preserves_ret R R_refl).
  - cbn [convert_groups]. apply (preserves_bind R R_trans); [|intro; apply IH].
    unfold convert_group. step.
    destruct (negb (py_truthy a)); [apply (preserves_ret R R_refl)|].
    step. apply preserves_convert_items.
Qed.

Lemma preserves_convert_rules (old_data : value)
      (sequence_overrides : option dict) (rules_list : list value) :
  forall new_data,
    preserves R (convert_rules old_data sequence_overrides new_data
                               rules_list).
Proof.
  induction rules_list as [|rule rest IH]; intros new_data.
  - apply (preserves_ret R R_refl).
  - cbn [convert_rules]. apply (preserves_bind R R_trans); [|intro; apply IH].
    unfold convert_rule. step.
    destruct (negb (py_truthy _)); [apply (preserves_ret R R_refl)|].
    step. step. apply preserves_convert_groups.
Qed.

Lemma preserves_convert (old_data rules_list : value)
      (sequence_overrides : option dict) :
  preserves R (convert old_data rules_list sequence_overrides).
Proof.
  unfold convert. step. step.
  apply (preserves_bind R R_trans); [apply preserves_convert_rules|intro].
  apply (preserves_ret R R_refl).
Qed.
End PreservingRun.

Section RunCounters.
Context {L : Libraries}.

(** X23.  The counters belong to the conversion of a file, not to a
    record, a group or a rule: from any state, neither the rules run on
    one record nor the whole conversion loop drops a counter, whether
    the run returns or raises.  A counter made for one record is there
    for every later record, group and top-level rule. *)
Theorem conversion_keeps_counters (st : state) (k : counter_key) :
  assoc_mem counter_key_eqb (sequence_counters st) k = true ->
  (forall context sequence_overrides executed nested_rules,
      assoc_mem counter_key_eqb
        (sequence_counters
           (fst (run_rules context sequence_overrides executed nested_rules
                           st))) k = true)
  /\ (forall old_data rules_list sequence_overrides,
         assoc_mem counter_key_eqb
           (sequence_counters
              (fst (convert old_data rules_list sequence_overrides st))) k
         = true).
Proof.
  intros Hk.
  assert (Hrefl : forall s, counters_persist s s) by (intros s k0 H; exact H).
  assert (Hconfig : forall s c, counters_persist s
                      (mkState c (sequence_counters s) (log s)))
    by (intros s c k0 H; exact H).
  assert (Hlog : forall s l, counters_persist s
                   (mkState (content_config s) (sequence_counters s) l))
    by (intros s l k0 H; exact H).
  assert (Hcounter : forall s k0 v, counters_persist s
                       (mkState (content_config s)
                          (assoc_set counter_key_eqb (sequence_counters s)
                                     k0 v)
                          (log s)))
    by (intros s k0 v k1; apply assoc_mem_set).
  split.
  - intros context sequence_overrides executed nested_rules.
    now apply (preserves_run_rules counters_persist Hrefl
                 counters_persist_trans Hconfig Hlog Hcounter).
  - intros old_data rules_list sequence_overrides.
    now apply (preserves_convert counters_persist Hrefl
                 counters_persist_trans Hconfig Hlog Hcounter).
Qed.
End RunCounters.

(** A counter in the initial state, and a conversion that counts. *)
Lemma conversion_keeps_counters_witness :
  let st := mkState VNone [(SharedKey "shared_id_n", VInt 3)] [] in
  let old_data :=
    VDict [(SStr "items", VDict [(SStr "ruby", VDict [])])] in
  let rules_list :=
    VList [VDict [(SStr "content", VStr "item");
                  (SStr "rules",
                   VList [VDict [(SStr "name", VStr "number");
                                 (SStr "actions",
                                  VDict [(SStr "sequence",
                                          VDict [(SStr "n", VDict [])])])]])]]
  in
  assoc_mem counter_key_eqb
    (sequence_counters
       (fst (@convert example_libraries old_data rules_list None st)))
    (SharedKey "shared_id_n") = true.
Proof.
  cbv zeta.
  exact (proj2 (@conversion_keeps_counters example_libraries
                  (mkState VNone [(SharedKey "shared_id_n", VInt 3)] [])
                  (SharedKey "shared_id_n") eq_refl)
               (VDict [(SStr "items", VDict [(SStr "ruby", VDict [])])])
               (VList [VDict [(SStr "content", VStr "item");
                              (SStr "rules",
                               VList [VDict [(SStr "name", VStr "number");
                                             (SStr "actions",
                                              VDict
                                                [(SStr "sequence",
                                                  VDict [(SStr "n",
                                                          VDict [])])])]])]])
               None).
Defined.

Lemma add_executed_result (executed executed' : list scalar) (name : value) :
  add_executed executed name = Ok executed' ->
  executed' = executed
  \/ exists k, name = Atom k /\ executed' = executed ++ [k].
Proof.
  unfold add_executed. destruct name as [k| |]; try discriminate.
  cbn [as_key res_bind]. destruct (existsb (scalar_eqb k) executed);
    intros H; injection H as <-; [now left|right]. now exists k.
Qed.

Section AppliedSet.
Context {L : Libraries}.

Lemma run_rule_result (context : dict) (sequence_overrides : option dict)
      (executed executed' : list scalar) (rule : value) (st st' : state) :
  run_rule context sequence_overrides executed rule st
  = (st', Ok executed') ->
  executed' = executed
  \/ exists r k, rule = VDict r
                 /\ dict_get r (SStr "name") = Some (Atom k)
                 /\ executed' = executed ++ [k].
Proof.
  unfold run_rule. intros H.
  apply bind_ok in H. destruct H as (st1 & r & Hr & H).
  apply lift_ok in Hr. destruct Hr as [Hr _].
  destruct rule as [a|l|d]; try discriminate. injection Hr as <-.
  apply bind_ok in H. destruct H as (st2 & blocked & _ & H).
  destruct blocked; [unfold ret in H; injection H as _ <-; now left|].
  apply bind_ok in H. destruct H as (st3 & acts & _ & H).
  destruct (py_truthy (dict_get_default acts (SStr "skip") (VBool false)));
    [unfold ret in H; injection H as _ <-; now left|].
  apply bind_ok in H. destruct H as (st4 & conditions_met & _ & H).
  destruct conditions_met; [|unfold ret in H; injection H as _ <-; now left].
  apply bind_ok in H. destruct H as (st5 & [] & _ & H).
  unfold dict_get_default in H at 1 2.
  destruct (dict_get d (SStr "name")) as [name|] eqn:Hname;
    [|unfold ret in H; cbn [py_truthy] in H; injection H as _ <-; now left].
  destruct (py_truthy name);
    [|unfold ret in H; injection H as _ <-; now left].
  apply lift_ok in H. destruct H as [H _].
  apply add_executed_result in H. destruct H as [->|(k & -> & ->)];
    [now left|right]. now exists d, k.
Qed.

(** X24.  Over the rules of a record the applied set only grows, so a
    dependency that is met stays met; and every name in it at the end
    was there at the start or is the [name] of a rule of the list.  A
    rule without a name never enters the set, so nothing can depend on
    it. *)
Theorem applied_set_grows (context : dict) (sequence_overrides : option dict)
        (nested_rules : list value) :
  forall executed st st' executed',
    run_rules context sequence_overrides executed nested_rules st
    = (st', Ok executed') ->
    (forall k, executed_has executed k = true ->
               executed_has executed' k = true)
    /\ (forall k, In k executed' ->
                  In k executed
                  \/ exists r, In (VDict r) nested_rules
                               /\ dict_get r (SStr "name") = Some (Atom k)).
Proof.
  induction nested_rules as [|rule rest IH];
    intros executed st st' executed' H.
  - unfold run_rules, ret in H. injection H as _ <-. auto.
  - cbn [run_rules] in H.
    apply bind_ok in H. destruct H as (st1 & executed1 & Hrule & H).
    apply IH in H. destruct H as [Hgrow Hfrom].
    apply run_rule_result in Hrule.
    destruct Hrule as [->|(r & k0 & -> & Hname & ->)].
    + split; [exact Hgrow|]. intros k Hk.
      destruct (Hfrom k Hk) as [Hin|(r & Hin & Hr)]; [now left|right].
      exists r. split; [now right|exact Hr].
    + split.
      * intros k Hk. apply Hgrow. unfold executed_has in *.
        rewrite existsb_app, Hk. reflexivity.
      * intros k Hk.
        destruct (Hfrom k Hk) as [Hin|(r' & Hin & Hr)].
        -- apply in_app_or in Hin. destruct Hin as [Hin|[<-|[]]];
             [now left|right].
           exists r. split; [now left|exact Hname].
        -- right. exists r'. split; [now right|exact Hr].
Qed.
End AppliedSet.

(** A named rule and a nameless one, both applied. *)
Lemma applied_set_grows_witness :
  let named := VDict [(SStr "name", VStr "b")] in
  let nameless := VDict [(SStr "actions", VDict [])] in
  @run_rules example_libraries [] None [SStr "a"] [named; nameless]
    initial_state = (initial_state, Ok [SStr "a"; SStr "b"])
  /\ executed_has [SStr "a"; SStr "b"] (SStr "a") = true.
Proof.
  cbv zeta. split; [reflexivity|].
  exact (proj1 (@applied_set_grows example_libraries [] None
                  [VDict [(SStr "name", VStr "b")];
                   VDict [(SStr "actions", VDict [])]]
                  [SStr "a"] initial_state initial_state
                  [SStr "a"; SStr "b"] eq_refl)
               (SStr "a") eq_refl).
Defined.
